(** * Base Bonsai: the call encoders, the seeded generator, the game state
      machine and the branch renderer of [src/App.tsx], embedded and verified.

    Conventions of the embedding.
    - A JavaScript string is a [string] whose characters are UTF-16 code
      units below 256 (every string the program builds or tests here is
      ASCII: hex digits, action tags, storage keys).
    - A [bigint] is a [Z].  A [number] that only ever holds an integer
      (timestamps of [Date.now()], counters) is a [Z]; another finite
      number is the rational value [Q] of a binary64 number, the results of
      the game's and the seed's arithmetic being rounded to binary64
      ([round_double]); the geometry of the renderer is kept in exact
      rationals.  The non-finite values the program can produce are
      explicit constructors of [num].
    - A [throw] is the [Throw] constructor of [result]. *)

From Stdlib Require Import ZArith QArith Qround Qminmax Ascii String List Lia Bool.
From stdpp Require Import gmap strings.
Import ListNotations.

Close Scope Q_scope.
Open Scope string_scope.
Open Scope Z_scope.

(** ** Results of fallible functions *)

Inductive result (A : Type) : Type :=
| Ok (a : A)
| Throw (msg : string).
Arguments Ok {A} a.
Arguments Throw {A} msg.

Definition is_ok {A} (r : result A) : bool :=
  match r with Ok _ => true | Throw _ => false end.

(** ** String primitives of the host language *)

Module Str.

(** [s.slice(n)] for [0 <= n]. *)
Fixpoint drop (n : nat) (s : string) : string :=
  match n, s with
  | O, _ => s
  | S _, EmptyString => EmptyString
  | S n', String _ s' => drop n' s'
  end.

(** [s.slice(0, n)]. *)
Fixpoint take (n : nat) (s : string) : string :=
  match n, s with
  | O, _ => EmptyString
  | S _, EmptyString => EmptyString
  | S n', String c s' => String c (take n' s')
  end.

(** [n] copies of the character [c]. *)
Fixpoint rep (n : nat) (c : ascii) : string :=
  match n with
  | O => EmptyString
  | S n' => String c (rep n' c)
  end.

(** [s.padEnd(n, c)] and [s.padStart(n, c)] with a one-character filler:
    a string already [n] long or longer is returned as it is. *)
Definition padEnd (n : nat) (c : ascii) (s : string) : string :=
  s ++ rep (n - String.length s) c.

Definition padStart (n : nat) (c : ascii) (s : string) : string :=
  rep (n - String.length s) c ++ s.

(** [s.startsWith(p)]. *)
Definition startsWith (p s : string) : bool := String.prefix p s.

Fixpoint forallb (f : ascii -> bool) (s : string) : bool :=
  match s with
  | EmptyString => true
  | String c s' => f c && forallb f s'
  end.

Fixpoint map (f : ascii -> ascii) (s : string) : string :=
  match s with
  | EmptyString => EmptyString
  | String c s' => String (f c) (map f s')
  end.

Definition code (c : ascii) : Z := Z.of_nat (nat_of_ascii c).

Definition chr (z : Z) : ascii := ascii_of_nat (Z.to_nat z).

(** [toLowerCase] on one code unit below 256: the ASCII capitals and the
    Latin-1 capitals (0xC0..0xDE without the multiplication sign). *)
Definition lower_char (c : ascii) : ascii :=
  let k := code c in
  if ((65 <=? k) && (k <=? 90))
     || ((192 <=? k) && (k <=? 222) && negb (k =? 215))
  then chr (k + 32) else c.

Definition toLowerCase (s : string) : string := map lower_char s.

(** The white space and line terminators of the language, below 256. *)
Definition is_space (c : ascii) : bool :=
  let k := code c in
  ((9 <=? k) && (k <=? 13)) || (k =? 32) || (k =? 160).

Fixpoint trimStart (s : string) : string :=
  match s with
  | EmptyString => EmptyString
  | String c s' => if is_space c then trimStart s' else s
  end.

Definition rev (s : string) : string :=
  string_of_list_ascii (List.rev (list_ascii_of_string s)).

Definition trim (s : string) : string :=
  rev (trimStart (rev (trimStart s))).

End Str.

(** ** Hexadecimal digits *)

Definition hex_digit (d : Z) : ascii :=
  if d <? 10 then Str.chr (48 + d) else Str.chr (87 + d).

(** The class [[a-fA-F0-9]]. *)
Definition is_hex (c : ascii) : bool :=
  let k := Str.code c in
  ((48 <=? k) && (k <=? 57)) || ((97 <=? k) && (k <=? 102))
  || ((65 <=? k) && (k <=? 70)).

Definition hex_value (c : ascii) : Z :=
  let k := Str.code c in
  if (48 <=? k) && (k <=? 57) then k - 48
  else if (97 <=? k) && (k <=? 102) then k - 87
  else k - 55.

(** [n.toString(16)] for an integer: no leading zero, ["0"] for zero, a
    minus sign for a negative one.  The recursion peels one digit per unit
    of fuel; [to_hex] supplies more fuel than [n] has digits. *)
Fixpoint to_hex_fuel (fuel : nat) (n : Z) : string :=
  match fuel with
  | O => EmptyString
  | S f =>
      if n <? 16 then String (hex_digit n) EmptyString
      else to_hex_fuel f (n / 16) ++ String (hex_digit (n mod 16)) EmptyString
  end.

Definition to_hex (n : Z) : string :=
  if n <? 0 then String "-" (to_hex_fuel (S (Z.to_nat (Z.log2 (- n)))) (- n))
  else to_hex_fuel (S (Z.to_nat (Z.log2 n))) n.

(** Two hex digits of one byte, as [b.toString(16).padStart(2, "0")]. *)
Definition byte_hex (b : Z) : string := Str.padStart 2 "0" (to_hex b).

(** ** Utilities of the program *)

(** [TextEncoder.encode]: the UTF-8 bytes of a string of code units below
    256 (one byte below 128, two bytes from 128 on). *)
Definition utf8_of_char (c : ascii) : list Z :=
  let k := Str.code c in
  if k <? 128 then [k]
  else [Z.lor 192 (Z.shiftr k 6); Z.lor 128 (Z.land k 63)].

Fixpoint utf8_encode (s : string) : list Z :=
  match s with
  | EmptyString => []
  | String c s' => (utf8_of_char c ++ utf8_encode s')%list
  end.

Fixpoint join (l : list string) : string :=
  match l with
  | [] => EmptyString
  | x :: l' => x ++ join l'
  end.

Definition utf8ToHex (str : string) : string :=
  "0x" ++ join (List.map byte_hex (utf8_encode str)).

Definition padRightTo32Bytes (hexNoPrefix : string) : string :=
  Str.padEnd 64 "0" hexNoPrefix.

Definition padLeftTo32Bytes (hexNoPrefix : string) : string :=
  Str.padStart 64 "0" hexNoPrefix.

Definition strip0x (hex : string) : string :=
  if Str.startsWith "0x" hex then Str.drop 2 hex else hex.

(** [s.replace(/^0x/, "")]: the same removal of one leading ["0x"]. *)
Definition replace_0x (s : string) : string :=
  match s with
  | String "0" (String "x" rest) => rest
  | _ => s
  end.

(** [/^0x[a-fA-F0-9]{40}$/.test(addr)]. *)
Definition isLikelyAddress (addr : string) : bool :=
  match addr with
  | String "0" (String "x" rest) =>
      (String.length rest =? 40)%nat && Str.forallb is_hex rest
  | _ => false
  end.

Definition bytes32Pad (hexNo0x : string) : string :=
  Str.padStart 64 "0" hexNo0x.

(** [Math.ceil(a / b)] for naturals, [0 < b]. *)
Definition ceil_div (a b : nat) : nat := ((a + (b - 1)) / b)%nat.

(** [encodeLogAction(action, dataHex = "0x")]: an omitted second argument is
    [None] and takes the default. *)
Definition encodeLogAction (action : string) (dataHex : option string)
  : result string :=
  let dataHex := match dataHex with Some d => d | None => "0x" end in
  let selector := "2d9bc1fb" in
  let actionHex := strip0x (utf8ToHex action) in
  let actionWord := padRightTo32Bytes actionHex in
  let offsetWord := padLeftTo32Bytes "40" in
  let data := strip0x (if String.eqb dataHex "" then "0x" else dataHex) in
  if negb (Nat.eqb (Nat.modulo (String.length data) 2) 0)
  then Throw "Invalid data hex (odd length)."
  else
    let dataLen := Nat.div (String.length data) 2 in
    let lenWord := padLeftTo32Bytes (to_hex (Z.of_nat dataLen)) in
    let paddedData := Str.padEnd (ceil_div dataLen 32 * 64) "0" data in
    Ok ("0x" ++ selector ++ actionWord ++ offsetWord ++ lenWord ++ paddedData).

(** [encodeUsdcTransfer(to, amountBaseUnits)], the amount a [bigint]. *)
Definition encodeUsdcTransfer (to : string) (amountBaseUnits : Z)
  : result string :=
  if negb (isLikelyAddress to) then Throw "Invalid recipient address."
  else if amountBaseUnits <=? 0 then Throw "Amount must be greater than 0."
  else
    let selector := "a9059cbb" in
    let toNo0x := replace_0x (Str.toLowerCase to) in
    let toPadded := bytes32Pad toNo0x in
    let amtHex := to_hex amountBaseUnits in
    let amtPadded := bytes32Pad amtHex in
    Ok ("0x" ++ selector ++ toPadded ++ amtPadded).

(** ** Numbers of the host language

    A finite [number] is the rational value of a binary64 number; [NaN] and
    the two infinities are separate values.  The result of a sum, a
    difference, a product or a quotient is rounded to the nearest binary64
    number, ties to even ([round_double], for magnitudes below 2^1024).
    Scaling by a power of two and [Math.floor] are exact. *)

Inductive num : Type :=
| Fin (q : Q)
| NaN
| PosInf
| NegInf.

Definition two32 : Z := 4294967296.

(** The integer nearest to [n / d], the even one on a tie ([0 <= n],
    [0 < d]). *)
Definition nearest_even (n d : Z) : Z :=
  let k := n / d in
  let r := n mod d in
  if 2 * r <? d then k
  else if d <? 2 * r then k + 1
  else if Z.even k then k else k + 1.

(** [floor(log2(n / d))] for positive [n] and [d]. *)
Definition log2_floor (n d : Z) : Z :=
  if d <=? n then Z.log2 (n / d) else - Z.log2_up ((d + n - 1) / n).

(** The binary64 number nearest to [q]: 53 significant bits, the exponent
    of the last place not below -1074, ties to even. *)
Definition round_double (q : Q) : Q :=
  let n := Z.abs (Qnum q) in
  let d := Zpos (Qden q) in
  if n =? 0 then 0%Q
  else
    let e := Z.max (log2_floor n d) (-1022) - 52 in
    let k := nearest_even (n * 2 ^ Z.max 0 (- e)) (d * 2 ^ Z.max 0 e) in
    Qred (Qmake (Z.sgn (Qnum q) * k * 2 ^ Z.max 0 e)
            (Z.to_pos (2 ^ Z.max 0 (- e)))).

(** [(x - y) / c] for two integers and a constant [c]: the difference and
    the quotient are both rounded. *)
Definition quotient_double (m c : Z) : Q :=
  round_double (Qdiv (round_double (inject_Z m)) (inject_Z c)).

(** [a + b]. *)
Definition num_add (a b : num) : num :=
  match a, b with
  | Fin p, Fin q => Fin (round_double (Qplus p q))
  | NaN, _ | _, NaN => NaN
  | PosInf, NegInf | NegInf, PosInf => NaN
  | PosInf, _ | _, PosInf => PosInf
  | NegInf, _ | _, NegInf => NegInf
  end.

(** [a - b]. *)
Definition num_sub (a b : num) : num :=
  match a, b with
  | Fin p, Fin q => Fin (round_double (Qminus p q))
  | NaN, _ | _, NaN => NaN
  | PosInf, PosInf | NegInf, NegInf => NaN
  | PosInf, _ | _, NegInf => PosInf
  | NegInf, _ | _, PosInf => NegInf
  end.

(** [a >= b]: false as soon as one side is [NaN]. *)
Definition num_ge (a b : num) : bool :=
  match a, b with
  | NaN, _ | _, NaN => false
  | PosInf, _ => true
  | _, NegInf => true
  | Fin p, Fin q => if Qlt_le_dec p q then false else true
  | Fin _, PosInf => false
  | NegInf, _ => false
  end.

(** [Math.max(a, b)]. *)
Definition num_max (a b : num) : num :=
  match a, b with
  | NaN, _ | _, NaN => NaN
  | PosInf, _ | _, PosInf => PosInf
  | NegInf, x | x, NegInf => x
  | Fin p, Fin q => if Qlt_le_dec p q then Fin q else Fin p
  end.

(** [Math.floor(a)]. *)
Definition Math_floor (a : num) : num :=
  match a with
  | Fin q => Fin (inject_Z (Qfloor q))
  | other => other
  end.

(** [a * 2 ** 31] (a power of two scales a binary64 value exactly). *)
Definition num_scale31 (a : num) : num :=
  match a with
  | Fin q => Fin (Qmult q (inject_Z (2 ^ 31)))
  | other => other
  end.

(** The integer the bit operators see in a number: truncation toward zero,
    and 0 for [NaN] and the infinities (ToInt32 and ToUint32 before their
    reduction modulo 2^32). *)
Definition to_integer (a : num) : Z :=
  match a with
  | Fin q => Z.quot (Qnum q) (Zpos (Qden q))
  | _ => 0
  end.

(** Equality of numbers as [===] sees it on non-[NaN] values. *)
Definition num_eqv (a b : num) : Prop :=
  match a, b with
  | Fin p, Fin q => Qeq p q
  | PosInf, PosInf | NegInf, NegInf => True
  | _, _ => False
  end.

(** ** 32-bit operators *)

Definition uint32 (z : Z) : Z := z mod two32.

Definition int32 (z : Z) : Z :=
  let u := uint32 z in if u <? 2147483648 then u else u - two32.

(** [Math.imul(x, y)]. *)
Definition imul (x y : Z) : Z := int32 (int32 x * int32 y).

(** [x ^ y], [x | y] and [x >>> n]. *)
Definition bxor (x y : Z) : Z := Z.lxor (int32 x) (int32 y).
Definition bor (x y : Z) : Z := Z.lor (int32 x) (int32 y).
Definition ushr (x n : Z) : Z := Z.shiftr (uint32 x) n.

(** ** The seeded generator [mulberry32]

    The closure returned by [mulberry32(a)] owns the variable [a]; one call
    of the closure is [mulberry32_next], from the value of [a] to its new
    value and the number returned. *)

Definition mulberry32_next (a : num) : num * Q :=
  let a := num_add a (Fin (inject_Z 1831565813)) in
  let t := to_integer a in
  let t := imul (bxor t (ushr t 15)) (bor t 1) in
  let t := bxor t (t + imul (bxor t (ushr t 7)) (bor t 61)) in
  (a, Qmake (uint32 (bxor t (ushr t 14))) 4294967296).

(** The first [n] numbers of the closure whose variable holds [a]. *)
Fixpoint mulberry32_take (n : nat) (a : num) : list Q :=
  match n with
  | O => []
  | S n' => let '(a', x) := mulberry32_next a in x :: mulberry32_take n' a'
  end.

(** Closures live in a store, one cell per closure, addressed by the order
    of creation; a call of closure [g] reads and writes its own cell. *)
Abbreviation gen_store := (list num).

Definition mulberry32 (a : num) (h : gen_store) : nat * gen_store :=
  (List.length h, (h ++ [a])%list).

Definition gen_call (g : nat) (h : gen_store) : option (Q * gen_store) :=
  match h !! g with
  | Some a => let '(a', x) := mulberry32_next a in Some (x, <[g := a']> h)
  | None => None
  end.

(** A run of calls, each naming the closure it calls; the result pairs each
    call with the number it returned. *)
Fixpoint gen_run (calls : list nat) (h : gen_store) : list (nat * Q) :=
  match calls with
  | [] => []
  | g :: rest =>
      match gen_call g h with
      | Some (x, h') => (g, x) :: gen_run rest h'
      | None => gen_run rest h
      end
  end.

(** The numbers one closure returned in a run, in order. *)
Definition outputs_of (g : nat) (out : list (nat * Q)) : list Q :=
  List.map snd (List.filter (fun p => Nat.eqb (fst p) g) out).

(** ** Seed derivation *)

Fixpoint hex_prefix_value (acc : Z) (s : string) : Z :=
  match s with
  | EmptyString => acc
  | String c s' =>
      if is_hex c then hex_prefix_value (16 * acc + hex_value c) s' else acc
  end.

(** The steps of [parseInt(s, 16)]: leading white space is skipped, then an
    optional sign, then an optional [0x] or [0X]; the longest run of hex
    digits that follows is the value, and [None] is [NaN] (no digit).  The
    result is an integer whenever it is a number. *)
Definition strip_sign (s : string) : Z * string :=
  match s with
  | String c s' =>
      if Ascii.eqb c "-" then (-1, s')
      else if Ascii.eqb c "+" then (1, s')
      else (1, s)
  | EmptyString => (1, s)
  end.

Definition strip_radix_prefix (s : string) : string :=
  match s with
  | String c0 (String c1 s') =>
      if Ascii.eqb c0 "0" && (Ascii.eqb c1 "x" || Ascii.eqb c1 "X")
      then s' else s
  | _ => s
  end.

Definition parseInt16 (s : string) : option Z :=
  let '(sign, s) := strip_sign (Str.trimStart s) in
  let s := strip_radix_prefix s in
  match s with
  | String c _ => if is_hex c then Some (sign * hex_prefix_value 0 s) else None
  | EmptyString => None
  end.

(** [hashToUnitFloat(hex)]; [%] is the remainder that takes the sign of the
    dividend. *)
Definition hashToUnitFloat (hex : string) : num :=
  let clean := replace_0x hex in
  let chunk := Str.take 12 clean in
  match parseInt16 (if String.eqb chunk "" then "0" else chunk) with
  | Some n => Fin (round_double (Qmake (Z.rem n 1000000) 1000000))
  | None => NaN
  end.

(** [Math.floor(hashToUnitFloat(addr) * 360)] of [graft]. *)
Definition hue_of (addr : string) : num :=
  match hashToUnitFloat addr with
  | Fin q => Math_floor (Fin (round_double (Qmult q (inject_Z 360))))
  | other => other
  end.

(** ** Persisted game state *)

Record LocalState : Type := mkLocalState {
  plantedAt : option Z;
  growth : Z;
  lastWateredAt : option Z;
  missedStreak : Z;
  revivedAt : option Z;
  lastGraftedAt : option Z
}.

Definition zero_state : LocalState :=
  {| plantedAt := None; growth := 0; lastWateredAt := None;
     missedStreak := 0; revivedAt := None; lastGraftedAt := None |}.

Set Warnings "-register-all".

(** A parsed JSON value; numbers are integers in this model. *)
Inductive json : Type :=
| JNull
| JBool (b : bool)
| JNum (z : Z)
| JStr (s : string)
| JArr (items : list json)
| JObj (fields : list (string * json)).

(** What [JSON.parse] makes of a stored item: a value, or a thrown
    [SyntaxError] (the empty item, which [loadState] treats the same way,
    included). *)
Inductive stored : Type :=
| Unparsable
| Parsed (j : json).

Fixpoint assoc (k : string) (fields : list (string * json)) : option json :=
  match fields with
  | [] => None
  | (k', v) :: rest => if String.eqb k k' then Some v else assoc k rest
  end.

(** [j.k]: [Throw] on [null] (a [TypeError]), [undefined] on a value that
    has no such property. *)
Definition get_prop (j : json) (k : string) : result (option json) :=
  match j with
  | JNull => Throw "Cannot read properties of null"
  | JObj fields => Ok (assoc k fields)
  | _ => Ok None
  end.

(** [typeof v === "number" ? v : undefined]. *)
Definition as_number (v : option json) : option Z :=
  match v with
  | Some (JNum z) => Some z
  | _ => None
  end.

Definition lsKey (addr : string) : string :=
  "basebonsai:v1:" ++ Str.toLowerCase addr.

(** The body of the [try] of [loadState] once the item is parsed. *)
Definition state_of_json (j : json) : result LocalState :=
  match get_prop j "plantedAt", get_prop j "growth",
        get_prop j "lastWateredAt", get_prop j "missedStreak",
        get_prop j "revivedAt", get_prop j "lastGraftedAt" with
  | Ok p, Ok g, Ok l, Ok m, Ok r, Ok f =>
      Ok {| plantedAt := as_number p;
            growth := default 0 (as_number g);
            lastWateredAt := as_number l;
            missedStreak := default 0 (as_number m);
            revivedAt := as_number r;
            lastGraftedAt := as_number f |}
  | _, _, _, _, _, _ => Throw "Cannot read properties of null"
  end.

Definition loadState (addr : string) (ls : gmap string stored) : LocalState :=
  match ls !! lsKey addr with
  | None => zero_state
  | Some Unparsable => zero_state
  | Some (Parsed j) =>
      match state_of_json j with
      | Ok st => st
      | Throw _ => zero_state
      end
  end.

Definition opt_field (k : string) (v : option Z) : list (string * json) :=
  match v with
  | Some z => [(k, JNum z)]
  | None => []
  end.

(** [JSON.stringify(st)] as [JSON.parse] reads it back: the fields that are
    [undefined] are left out. *)
Definition json_of_state (st : LocalState) : json :=
  JObj (opt_field "plantedAt" (plantedAt st)
        ++ [("growth", JNum (growth st))]
        ++ opt_field "lastWateredAt" (lastWateredAt st)
        ++ [("missedStreak", JNum (missedStreak st))]
        ++ opt_field "revivedAt" (revivedAt st)
        ++ opt_field "lastGraftedAt" (lastGraftedAt st))%list.

Definition saveState (addr : string) (st : LocalState)
  (ls : gmap string stored) : gmap string stored :=
  <[lsKey addr := Parsed (json_of_state st)]> ls.

(** ** Growth model *)

Definition clampZ (n a b : Z) : Z := Z.max a (Z.min b n).

(** [!ts] for an optional timestamp: [undefined] and [0]. *)
Definition falsy_ts (ts : option Z) : bool :=
  match ts with
  | None => true
  | Some z => z =? 0
  end.

Definition computeHealth (st : LocalState) : Q :=
  let missed := missedStreak st in
  if missed <=? 0 then 1%Q
  else if missed =? 1 then (86 # 100)%Q
  else if missed =? 2 then (68 # 100)%Q
  else (42 # 100)%Q.

(** [!!local.plantedAt]. *)
Definition planted_of (st : LocalState) : bool := negb (falsy_ts (plantedAt st)).

(** [(local.missedStreak || 0) >= 3]. *)
Definition withered_of (st : LocalState) : bool := 3 <=? missedStreak st.

(** ** Decimal rendering *)

Fixpoint to_dec_fuel (fuel : nat) (n : Z) : string :=
  match fuel with
  | O => EmptyString
  | S f =>
      if n <? 10 then String (hex_digit n) EmptyString
      else to_dec_fuel f (n / 10) ++ String (hex_digit (n mod 10)) EmptyString
  end.

Definition to_dec (n : Z) : string := to_dec_fuel (S (Z.to_nat (Z.log2 n))) n.

(** [x.toFixed(1)]: the tenth nearest to [x], the larger one on a tie, the
    sign in front (magnitudes below 1e21). *)
Definition toFixed1_pos (x : Q) : string :=
  let n := Qfloor (Qplus (Qmult x (inject_Z 10)) (1 # 2)) in
  to_dec (n / 10) ++ "." ++ to_dec (n mod 10).

Definition toFixed1 (x : num) : string :=
  match x with
  | Fin q => if Qlt_le_dec q 0 then "-" ++ toFixed1_pos (Qopp q)
             else toFixed1_pos q
  | NaN => "NaN"
  | PosInf => "Infinity"
  | NegInf => "-Infinity"
  end.

(** ** The component, its collaborators and its actions

    The state of the [App] component that the game actions read and write,
    the browser store, and the observable effects in the order they happen.
    An action runs from its first line to its last against one snapshot of
    the component state (the closure of the render that created it). *)

Record Call : Type := mkCall {
  call_to : string;
  call_value : string;
  call_data : string
}.

(** The payload of [wallet_sendCalls], without its [capabilities] (the
    attribution suffix of an external library). *)
Record Payload : Type := mkPayload {
  pl_version : string;
  pl_from : string;
  pl_chainId : string;
  pl_atomicRequired : bool;
  pl_calls : list Call
}.

Inductive Event : Type :=
| EToast (msg : string)
| ESetLocal (st : LocalState)
| ESaveState (key : string) (st : LocalState)
| ESetFriendHue (hue : num)
| ESendCalls (p : Payload)
| ERefreshSignals (addr : string)
| ESetChainId (cid : string)
| ESwitchChain (chainId : string).

Record World : Type := mkWorld {
  account : string;
  local : LocalState;
  friendAddress : string;
  friendHue : option num;
  localStorage : gmap string stored;
  trace : list Event;
  clock_reads : nat;
  wallet_uses : nat
}.

(** What [ensureBase] meets: the chain id is Base Mainnet or Base Sepolia
    already; or it is another one, the switch is accepted and the chain id
    read again is [after]; or one of the provider requests throws, the
    first reading of the chain id (no switch was asked for) or a later one. *)
Inductive ChainAnswer : Type :=
| OnMainnet
| OnSepolia
| Switched (after : string)
| ChainThrew (switch_asked : bool) (message : string).

(** The provider's answers during one [sendGameTx]; a [Throw] carries the
    [message] of the error thrown (empty when it has none). *)
Record Wallet : Type := mkWallet {
  has_provider : bool;
  chain_answer : ChainAnswer;
  accounts_answer : result string;
  balance_answer : result Z;
  sendCalls_answer : result unit
}.

(** The environment: the successive readings of [Date.now()] and the
    provider's behaviour at each use. *)
Record Env : Type := mkEnv {
  clock : nat -> Z;
  wallet : nat -> Wallet
}.

Definition M (A : Type) : Type := Env -> World -> A * World.

Definition ret {A} (a : A) : M A := fun _ w => (a, w).

Definition bind {A B} (m : M A) (k : A -> M B) : M B :=
  fun e w => let '(a, w') := m e w in k a e w'.

Declare Scope game_scope.
Notation "'do' x <- m ; k" := (bind m (fun x => k))
  (at level 10, x name, m at level 100, k at level 200) : game_scope.
Notation "m ;; k" := (bind m (fun _ => k))
  (at level 100, k at level 200, right associativity) : game_scope.
Open Scope game_scope.

Definition exec {A} (m : M A) (e : Env) (w : World) : World := snd (m e w).

Definition get_world : M World := fun _ w => (w, w).

Definition emit (ev : Event) (w : World) : World :=
  {| account := account w; local := local w;
     friendAddress := friendAddress w; friendHue := friendHue w;
     localStorage := localStorage w; trace := (trace w ++ [ev])%list;
     clock_reads := clock_reads w; wallet_uses := wallet_uses w |}.

Definition nowMs : M Z :=
  fun e w =>
    (clock e (clock_reads w),
     {| account := account w; local := local w;
        friendAddress := friendAddress w; friendHue := friendHue w;
        localStorage := localStorage w; trace := trace w;
        clock_reads := S (clock_reads w); wallet_uses := wallet_uses w |}).

Definition next_wallet : M Wallet :=
  fun e w =>
    (wallet e (wallet_uses w),
     {| account := account w; local := local w;
        friendAddress := friendAddress w; friendHue := friendHue w;
        localStorage := localStorage w; trace := trace w;
        clock_reads := clock_reads w; wallet_uses := S (wallet_uses w) |}).

Definition toast_show (msg : string) : M unit :=
  fun _ w => (tt, emit (EToast msg) w).

Definition setLocal (st : LocalState) : M unit :=
  fun _ w =>
    (tt, emit (ESetLocal st)
           {| account := account w; local := st;
              friendAddress := friendAddress w; friendHue := friendHue w;
              localStorage := localStorage w; trace := trace w;
              clock_reads := clock_reads w; wallet_uses := wallet_uses w |}).

Definition setFriendHue (hue : num) : M unit :=
  fun _ w =>
    (tt, emit (ESetFriendHue hue)
           {| account := account w; local := local w;
              friendAddress := friendAddress w; friendHue := Some hue;
              localStorage := localStorage w; trace := trace w;
              clock_reads := clock_reads w; wallet_uses := wallet_uses w |}).

Definition save (addr : string) (st : LocalState) : M unit :=
  fun _ w =>
    (tt, emit (ESaveState (lsKey addr) st)
           {| account := account w; local := local w;
              friendAddress := friendAddress w; friendHue := friendHue w;
              localStorage := saveState addr st (localStorage w);
              trace := trace w;
              clock_reads := clock_reads w; wallet_uses := wallet_uses w |}).

Definition refreshSignals (addr : string) : M unit :=
  fun _ w => (tt, emit (ERefreshSignals addr) w).

(** [hoursSince(ts)] and [daysSince(ts)]: the clock is read only when [ts]
    is set. *)
Definition hoursSince (ts : option Z) : M num :=
  if falsy_ts ts then ret PosInf
  else do now <- nowMs; ret (Fin (quotient_double (now - default 0 ts) 3600000)).

Definition daysSince (ts : option Z) : M num :=
  if falsy_ts ts then ret PosInf
  else do now <- nowMs; ret (Fin (quotient_double (now - default 0 ts) 86400000)).

Definition canWater (st : LocalState) : M bool :=
  do h <- hoursSince (lastWateredAt st);
  ret (num_ge h (Fin 1%Q)).

(** [clamp(d, 0, 30)] for [d = Math.floor(...)], an integer or an infinity
    here. *)
Definition clamp_streak (d : num) : Z :=
  match d with
  | Fin q => clampZ (Qfloor q) 0 30
  | PosInf => 30
  | _ => 0
  end.

Definition computeMissedStreak (st : LocalState) : M Z :=
  if falsy_ts (lastWateredAt st) then ret 0
  else
    do d <- daysSince (lastWateredAt st);
    ret (clamp_streak (Math_floor d)).

Definition walletSendCalls (p : Payload) : M unit :=
  fun _ w => (tt, emit (ESendCalls p) w).

Definition GAME_CONTRACT : string := "0xB331328F506f2D35125e367A190e914B1b6830cF".
Definition BASE_MAINNET : string := "0x2105".
Definition BASE_SEPOLIA : string := "0x14a34".

Inductive Intent : Type := IPlant | IWater | IRevive | IGraft.

Definition intent_tag (i : Intent) : string :=
  match i with
  | IPlant => "plant"
  | IWater => "water"
  | IRevive => "revive"
  | IGraft => "graft"
  end.

(** [haystack.includes(needle)]. *)
Fixpoint includes (needle haystack : string) : bool :=
  String.prefix needle haystack
  || match haystack with
     | EmptyString => false
     | String _ rest => includes needle rest
     end.

(** [e?.message || fallback]. *)
Definition message_or (message fallback : string) : string :=
  if String.eqb message "" then fallback else message.

(** [setChainId(cid)] and the request [wallet_switchEthereumChain] of
    [switchToBase]. *)
Definition setChainId (cid : string) : M unit :=
  fun _ w => (tt, emit (ESetChainId cid) w).

Definition switchToBase : M unit :=
  fun _ w => (tt, emit (ESwitchChain BASE_MAINNET) w).

Definition ensureBase (a : ChainAnswer) : M bool :=
  match a with
  | OnMainnet => setChainId BASE_MAINNET ;; ret true
  | OnSepolia =>
      setChainId BASE_SEPOLIA ;;
      toast_show "You're on Base Sepolia. Switch to Base Mainnet for the real tree." ;;
      ret true
  | Switched after =>
      switchToBase ;;
      setChainId after ;;
      ret (String.eqb after BASE_MAINNET)
  | ChainThrew switch_asked message =>
      (if switch_asked then switchToBase else ret tt) ;;
      toast_show (message_or message "Couldn't switch to Base.") ;;
      ret false
  end.

(** The [catch] of [sendGameTx]. *)
Definition tx_catch (message : string) : M bool :=
  let msg := Str.toLowerCase message in
  if includes "user rejected" msg || includes "rejected" msg
  then toast_show "Canceled in wallet." ;; ret false
  else toast_show (message_or message "Transaction failed.") ;; ret false.

(** [sendGameTx(intent)].  The builder code is a non-empty constant, so its
    test never fires; the pause before the wallet opens is left out; the
    ellipsis character of the two toasts is written as three dots. *)
Definition sendGameTx (intent : Intent) : M bool :=
  do wl <- next_wallet;
  if negb (has_provider wl) then
    toast_show "No wallet provider found." ;; ret false
  else if negb (isLikelyAddress GAME_CONTRACT) then
    toast_show "Game contract address invalid." ;; ret false
  else
    do ok <- ensureBase (chain_answer wl);
    if negb ok then ret false
    else
      match accounts_answer wl with
      | Throw message => tx_catch message
      | Ok from =>
          match balance_answer wl with
          | Throw message => tx_catch message
          | Ok balWei =>
              if balWei <=? 0 then
                toast_show "You need a small amount of ETH on Base for gas to plant/water." ;;
                ret false
              else
                match encodeLogAction (intent_tag intent) None with
                | Throw message => tx_catch message
                | Ok data =>
                    let call := {| call_to := GAME_CONTRACT;
                                   call_value := "0x0";
                                   call_data := data |} in
                    let payload := {| pl_version := "2.0.0";
                                      pl_from := from;
                                      pl_chainId := BASE_MAINNET;
                                      pl_atomicRequired := true;
                                      pl_calls := [call] |} in
                    toast_show (match intent with
                                | IWater => "A breeze... then water."
                                | _ => "Ink settles... then onchain."
                                end) ;;
                    walletSendCalls payload ;;
                    match sendCalls_answer wl with
                    | Ok _ => ret true
                    | Throw message => tx_catch message
                    end
                end
          end
      end.

Definition set_growth_watered (st : LocalState) (g now : Z) : LocalState :=
  {| plantedAt := plantedAt st; growth := g; lastWateredAt := Some now;
     missedStreak := 0; revivedAt := revivedAt st;
     lastGraftedAt := lastGraftedAt st |}.

Definition plant : M unit :=
  do w <- get_world;
  if String.eqb (account w) "" then toast_show "Connect your wallet first."
  else if planted_of (local w) then toast_show "Already planted."
  else
    do ok <- sendGameTx IPlant;
    if negb ok then ret tt
    else
      do t1 <- nowMs;
      do t2 <- nowMs;
      let next := {| plantedAt := Some t1; growth := 1;
                     lastWateredAt := Some t2; missedStreak := 0;
                     revivedAt := None; lastGraftedAt := None |} in
      setLocal next ;;
      save (account w) next ;;
      refreshSignals (account w) ;;
      toast_show "Seed planted. Welcome to your bonsai.".

Definition water : M unit :=
  do w <- get_world;
  if String.eqb (account w) "" then toast_show "Connect your wallet first."
  else if negb (planted_of (local w)) then toast_show "Plant your seed first."
  else
    do cw <- canWater (local w);
    if negb cw then
      do h <- hoursSince (lastWateredAt (local w));
      let hrs := num_max (Fin 0%Q) (num_sub (Fin 24%Q) h) in
      toast_show ("Water is ready in ~" ++ toFixed1 hrs ++ "h.")
    else
      do ok <- sendGameTx IWater;
      if negb ok then ret tt
      else
        do now <- nowMs;
        let g := growth (local w) in
        let next := set_growth_watered (local w)
                      ((if g =? 0 then 1 else g) + 1) now in
        setLocal next ;;
        save (account w) next ;;
        refreshSignals (account w) ;;
        toast_show "Watered. A new branch appears.".

Definition revive : M unit :=
  do w <- get_world;
  if String.eqb (account w) "" then toast_show "Connect your wallet first."
  else if negb (planted_of (local w)) then toast_show "Plant your seed first."
  else if missedStreak (local w) <? 3 then
    toast_show "Your bonsai isn't withered yet."
  else
    do ok <- sendGameTx IRevive;
    if negb ok then ret tt
    else
      do t1 <- nowMs;
      do t2 <- nowMs;
      let st := local w in
      let next := {| plantedAt := plantedAt st; growth := growth st;
                     lastWateredAt := Some t2; missedStreak := 0;
                     revivedAt := Some t1;
                     lastGraftedAt := lastGraftedAt st |} in
      setLocal next ;;
      save (account w) next ;;
      refreshSignals (account w) ;;
      toast_show "Revived. Ink returns to life.".

Definition graft : M unit :=
  do w <- get_world;
  if String.eqb (account w) "" then toast_show "Connect your wallet first."
  else if negb (planted_of (local w)) then toast_show "Plant your seed first."
  else
    let addr := Str.trim (friendAddress w) in
    if negb (isLikelyAddress addr) then
      toast_show "Enter a valid friend's address (0x...)."
    else
      let hue := hue_of addr in
      setFriendHue hue ;;
      do ok <- sendGameTx IGraft;
      if negb ok then ret tt
      else
        do now <- nowMs;
        let st := local w in
        let next := {| plantedAt := plantedAt st; growth := growth st;
                       lastWateredAt := lastWateredAt st;
                       missedStreak := missedStreak st;
                       revivedAt := revivedAt st;
                       lastGraftedAt := Some now |} in
        setLocal next ;;
        save (account w) next ;;
        toast_show "Grafted. A flower blooms (your color).".

(** The effect that runs when [account] changes: load, recompute the missed
    streak, store back. *)
Definition on_account : M unit :=
  do w <- get_world;
  if String.eqb (account w) "" then ret tt
  else
    let st := loadState (account w) (localStorage w) in
    do missed <- computeMissedStreak st;
    let merged := {| plantedAt := plantedAt st; growth := growth st;
                     lastWateredAt := lastWateredAt st;
                     missedStreak := missed;
                     revivedAt := revivedAt st;
                     lastGraftedAt := lastGraftedAt st |} in
    setLocal merged ;;
    save (account w) merged ;;
    refreshSignals (account w).

(** [setAccount(addr)]: the effect above runs when the account changes. *)
Definition connect_as (addr : string) : M unit :=
  fun e w =>
    if String.eqb addr (account w) then (tt, w)
    else
      on_account e
        {| account := addr; local := local w;
           friendAddress := friendAddress w; friendHue := friendHue w;
           localStorage := localStorage w; trace := trace w;
           clock_reads := clock_reads w; wallet_uses := wallet_uses w |}.

(** A reload of the page: the component starts again from its initial
    state, the browser store stays. *)
Definition reload : M unit :=
  fun _ w =>
    (tt, {| account := ""; local := zero_state; friendAddress := "";
            friendHue := None; localStorage := localStorage w;
            trace := trace w;
            clock_reads := clock_reads w; wallet_uses := wallet_uses w |}).

(** The [disabled] attribute of the main button, as the render before the
    click evaluates it, and its [onClick]. *)
Definition water_button_disabled (w : World) : M bool :=
  if String.eqb (account w) "" then ret true
  else
    do cooling <- (if planted_of (local w)
                   then do cw <- canWater (local w); ret (negb cw)
                   else ret false);
    ret (cooling || withered_of (local w)).

Definition main_button_click : M unit :=
  do w <- get_world;
  do disabled <- water_button_disabled w;
  if disabled then ret tt
  else if planted_of (local w) then water else plant.

Close Scope game_scope.

Definition initial_world : World :=
  {| account := ""; local := zero_state; friendAddress := "";
     friendHue := None; localStorage := ∅; trace := [];
     clock_reads := O; wallet_uses := O |}.

(** ** The renderer

    [renderBonsai] paints on a canvas; the model keeps the marks in painting
    order.  [Math.cos], [Math.sin], [Math.PI] and the unseeded [Math.random]
    are collaborators of the section.  Entering a frame of [branch] is
    recorded as [MBranch depth], which is not a drawing. *)

Record BonsaiParams : Type := mkParams {
  seed : string;
  richness : Q;
  activity : Q;
  p_growth : Q;
  health : Q;
  breeze : Q;
  p_friendHue : option num
}.

Inductive Mark : Type :=
| MBranch (depth : Z)
| MStroke (x1 y1 cx cy x2 y2 w alpha gray : Q)
| MLeaf (x y s inkBase wither rot : Q)
| MBloom (x y s : Q) (hue : num).

(** A mark without its coordinates. *)
Inductive Shape : Type :=
| SBranch (depth : Z)
| SStroke
| SLeaf
| SBloom (hue : num).

Definition shape_of (m : Mark) : Shape :=
  match m with
  | MBranch d => SBranch d
  | MStroke _ _ _ _ _ _ _ _ _ => SStroke
  | MLeaf _ _ _ _ _ _ => SLeaf
  | MBloom _ _ _ h => SBloom h
  end.

Record RState : Type := mkRState {
  rng : num;
  random_ix : nat;
  marks : list Mark;
  seeded : list Q
}.

(** A painting step; [None] when the recursion budget is used up. *)
Definition R (A : Type) : Type := RState -> option (A * RState).

Definition rret {A} (a : A) : R A := fun s => Some (a, s).

Definition rbind {A B} (m : R A) (k : A -> R B) : R B :=
  fun s => match m s with
           | Some (a, s') => k a s'
           | None => None
           end.

Declare Scope render_scope.
Notation "'do' x <- m ; k" := (rbind m (fun x => k))
  (at level 10, x name, m at level 100, k at level 200) : render_scope.
Notation "m ;; k" := (rbind m (fun _ => k))
  (at level 100, k at level 200, right associativity) : render_scope.
Open Scope render_scope.

(** [rng()]: one call of the closure bound to [rng]. *)
Definition rng_call : R Q :=
  fun s =>
    let '(a', x) := mulberry32_next (rng s) in
    Some (x, {| rng := a'; random_ix := random_ix s; marks := marks s;
                seeded := (seeded s ++ [x])%list |}).

(** [rng = mulberry32(a)]. *)
Definition rng_reset (a : num) : R unit :=
  fun s =>
    Some (tt, {| rng := a; random_ix := random_ix s; marks := marks s;
                 seeded := seeded s |}).

Definition paint (m : Mark) : R unit :=
  fun s =>
    Some (tt, {| rng := rng s; random_ix := random_ix s;
                 marks := (marks s ++ [m])%list; seeded := seeded s |}).

(** [n] runs of [body], on [i = start], [start + 1], ... *)
Fixpoint for_loop (n : nat) (start : Z) (body : Z -> R unit) : R unit :=
  match n with
  | O => rret tt
  | S n' => body start ;; for_loop n' (start + 1) body
  end.

Definition Qltb (p q : Q) : bool := if Qlt_le_dec p q then true else false.

Definition clampQ (n a b : Q) : Q := Qmax a (Qmin b n).

Definition maxDepth_of (g : Q) : Z :=
  clampZ (3 + Qfloor (Qdiv g (15 # 10))) 3 10.

Section Renderer.

Variables Math_cos Math_sin : Q -> Q.
Variable Math_PI : Q.
Variable Math_random : nat -> Q.

Local Open Scope Q_scope.

Definition random_call : R Q :=
  fun s =>
    Some (Math_random (random_ix s),
          {| rng := rng s; random_ix := S (random_ix s); marks := marks s;
             seeded := seeded s |}).

Definition drawInkStroke (x1 y1 x2 y2 w alpha gray : Q) : R unit :=
  do r1 <- random_call;
  do r2 <- random_call;
  paint (MStroke x1 y1
           ((x1 + x2) / 2 + (r1 - 0.5) * 6)
           ((y1 + y2) / 2 + (r2 - 0.5) * 6)
           x2 y2 w alpha gray).

Definition drawLeaf (x y s inkBase wither : Q) : R unit :=
  do r <- random_call;
  paint (MLeaf x y s inkBase wither (r * Math_PI)).

Definition drawBloom (x y s : Q) (hue : num) : R unit :=
  paint (MBloom x y s hue).

Variable w h : Q.
Variable p : BonsaiParams.

Definition wither : Q := 1 - health p.
Definition inkBase : Q := 20 + wither * 90.
Definition potY : Q := h * 0.8.
Definition cx : Q := w * 0.5.
Definition baseY : Q := potY + 8.
Definition trunkBase : Q := 10 + richness p * 24.
Definition height : Q := h * 0.58.
Definition seedUnit : num := hashToUnitFloat (seed p).
Definition seed_int : num := Math_floor (num_scale31 seedUnit).
Definition sway : Q := (breeze p - 0.5) * 22.
Definition bend : Q := sway * (0.55 + activity p * 0.55).
Definition maxDepth : Z := maxDepth_of (p_growth p).
Definition leafiness : Q := clampQ (0.1 + activity p * 0.9) 0 1.
Definition bloomChance : Q := clampQ (0.04 + activity p * 0.18) 0.04 0.25.

(** The body of the leaf loop of [branch]. *)
Definition leaf_body (ex ey : Q) (i : Z) : R unit :=
  do r1 <- rng_call;
  let lx := ex + (r1 - 0.5) * 16 in
  do r2 <- rng_call;
  let ly := ey + (r2 - 0.5) * 16 in
  do r3 <- rng_call;
  drawLeaf lx ly (3 + r3 * 5) inkBase wither ;;
  do r4 <- rng_call;
  match Qltb r4 bloomChance, p_friendHue p with
  | true, Some hue =>
      do r5 <- rng_call;
      drawBloom (lx + 2) (ly - 2) (3 + r5 * 4) hue
  | _, _ => rret tt
  end.

(** The leaves and flowers of one frame. *)
Definition leaves (ex ey : Q) (depth : Z) : R unit :=
  if (maxDepth - 3 <? depth)%Z then
    do r <- rng_call;
    if Qltb r leafiness then
      do c <- rng_call;
      let count := (1 + Qfloor (c * 3))%Z in
      for_loop (Z.to_nat count) 0%Z (leaf_body ex ey)
    else rret tt
  else rret tt.

Fixpoint branch (fuel : nat) (x y ang len thick : Q) (depth : Z) : R unit :=
  match fuel with
  | O => fun _ => None
  | S fuel' =>
      paint (MBranch depth) ;;
      let t := inject_Z depth / inject_Z maxDepth in
      do r <- rng_call;
      let jitter := (r - 0.5) * 0.25 in
      let a := ang + jitter in
      let ex := x + Math_cos a * len + bend * t * 0.18 in
      let ey := y - Math_sin a * len in
      let alpha := 0.88 - t * 0.35 in
      drawInkStroke x y ex ey thick alpha inkBase ;;
      leaves ex ey depth ;;
      if (maxDepth <=? depth)%Z then rret tt
      else
        do splits <- (if (depth <? 2)%Z then rret 1%nat
                      else do r <- rng_call;
                           rret (if Qltb r 0.65 then 2%nat else 1%nat));
        for_loop splits 0%Z
          (fun i =>
             let dir := if (i =? 0)%Z then -1 else 1 in
             do r1 <- rng_call;
             let nextAng := a + dir * (0.45 + r1 * 0.35) * (0.85 + t * 0.3) in
             do r2 <- rng_call;
             let nextLen := len * (0.74 + r2 * 0.08) in
             do r3 <- rng_call;
             let nextThick := Qmax 1.2 (thick * (0.7 + r3 * 0.06)) in
             branch fuel' ex ey nextAng nextLen nextThick (depth + 1)%Z) ;;
        do r <- rng_call;
        if Qltb r 0.28 then
          do r1 <- rng_call;
          let nextAng := a + (r1 - 0.5) * 0.35 in
          do r2 <- rng_call;
          branch fuel' ex ey nextAng (len * (0.55 + r2 * 0.12))
            (Qmax 1.0 (thick * 0.55)) (depth + 1)%Z
        else rret tt
  end.

Definition trunkSteps : Z := 10.

Definition trunk_body (i : Z) : R unit :=
  let n := inject_Z trunkSteps in
  let y0 := baseY - (inject_Z i / n) * height in
  let y1 := baseY - ((inject_Z i + 1) / n) * height in
  let x0 := cx + (bend * (inject_Z i / n)) * 0.35 in
  let x1 := cx + (bend * ((inject_Z i + 1) / n)) * 0.35 in
  let tw := trunkBase * (1 - (inject_Z i / n) * 0.75) in
  drawInkStroke x0 y0 x1 y1 tw 0.92 inkBase.

Definition falling_leaf (i : Z) : R unit :=
  do r <- rng_call;
  if Qltb r 0.12 then
    do r1 <- rng_call;
    let fx := w * (0.2 + r1 * 0.6) in
    do r2 <- rng_call;
    let fy := h * (0.25 + r2 * 0.6) in
    do r3 <- rng_call;
    drawLeaf fx fy (2.5 + r3 * 3.5) (inkBase + 20) wither
  else rret tt.

Definition startX : Q := cx + bend * 0.16.
Definition startY : Q := baseY - height * 0.55.
Definition baseLen : Q := 70 + p_growth p * 10.

(** The two base calls, after the reset of the generator. *)
Definition base_branches (fuel : nat) : R unit :=
  rng_reset seed_int ;;
  branch fuel startX startY (Math_PI / 2 - 0.3) baseLen (trunkBase * 0.55) 1%Z ;;
  branch fuel startX startY (Math_PI / 2 + 0.3) (baseLen * 0.96)
    (trunkBase * 0.55) 1%Z.

(** [renderBonsai(ctx, w, h, p)] from the creation of the generator on: the
    trunk, the branches, the falling leaves.  The paper, the pot and the
    vignette, which are painted around them, draw no seeded number and are
    left out; the paper's calls of [Math.random] are the start of
    [random_ix]. *)
Definition renderBonsai (fuel : nat) : R unit :=
  rng_reset seed_int ;;
  for_loop (Z.to_nat trunkSteps) 0%Z trunk_body ;;
  base_branches fuel ;;
  for_loop 3 0%Z falling_leaf.

End Renderer.

Close Scope render_scope.

(** The parameters the animation frame passes to [renderBonsai]: the
    component state, the two normalized chain signals and the breeze of the
    frame. *)
Definition frame_params (w : World) (richness activity breeze : Q)
  : BonsaiParams :=
  {| seed := if String.eqb (account w) ""
             then "0x0000000000000000000000000000000000000000"
             else account w;
     richness := richness;
     activity := activity;
     p_growth := if planted_of (local w)
                 then inject_Z (Z.max 1 (growth (local w))) else 0%Q;
     health := computeHealth (local w);
     breeze := breeze;
     p_friendHue := friendHue w |}.

Definition blank_canvas (start_ix : nat) : RState :=
  {| rng := NaN; random_ix := start_ix; marks := []; seeded := [] |}.

(** The depth budget that [renderBonsai] is run with: the deepest frame is
    at depth 10. *)
Definition render_fuel : nat := 10.

Definition with_breeze (b : Q) (p : BonsaiParams) : BonsaiParams :=
  {| seed := seed p; richness := richness p; activity := activity p;
     p_growth := p_growth p; health := health p; breeze := b;
     p_friendHue := p_friendHue p |}.

(** The topology of a painting: its marks without coordinates, in order. *)
Definition topology (s : RState) : list Shape := List.map shape_of (marks s).

(** ** Notions the properties are stated with *)

(** [k] hex digits of [n], most significant first. *)
Fixpoint hex_fixed (k : nat) (n : Z) : string :=
  match k with
  | O => EmptyString
  | S k' => hex_fixed k' (n / 16) ++ String (hex_digit (n mod 16)) EmptyString
  end.

(** The [k] bytes of [n], most significant first. *)
Fixpoint be_bytes (k : nat) (n : Z) : list Z :=
  match k with
  | O => []
  | S k' => (be_bytes k' (n / 256) ++ [n mod 256])%list
  end.

(** A byte sequence written in hex, two digits a byte. *)
Definition hex_of_bytes (bs : list Z) : string :=
  join (List.map (fun b => hex_fixed 2 b) bs).

(** The value of a string of hex digits, most significant first. *)
Definition hex_number (s : string) : Z :=
  List.fold_left (fun acc c => 16 * acc + hex_value c)
    (list_ascii_of_string s) 0.

(** The last [k] characters of a string: its low-order digits. *)
Definition low_order (k : nat) (s : string) : string :=
  Str.drop (String.length s - k) s.

(** The seed derivation as the specification words it: the [k] low-order hex
    digits of the identifier (its ["0x"] apart) as an integer, modulo one
    million, over one million. *)
Definition seed_of_low_order (k : nat) (id : string) : num :=
  Fin (round_double
         (Qmake (hex_number (low_order k (replace_0x id)) mod 1000000)
            1000000)).

(** What [hoursSince(ts)] returns when the clock reads [now], and the
    number of readings it takes. *)
Definition hours_at (now : Z) (ts : option Z) : num :=
  if falsy_ts ts then PosInf
  else Fin (quotient_double (now - default 0 ts) 3600000).

Definition reads_of (ts : option Z) : nat :=
  if falsy_ts ts then O else 1%nat.

(** What [canWater(st)] answers when the clock reads [now]. *)
Definition canWater_at (now : Z) (st : LocalState) : bool :=
  num_ge (hours_at now (lastWateredAt st)) (Fin 1%Q).

(** The events an action adds to the trace. *)
Definition events_of {A} (m : M A) (e : Env) (w : World) : list Event :=
  List.skipn (List.length (trace w)) (trace (exec m e w)).

Definition is_commit (ev : Event) : bool :=
  match ev with
  | ESetLocal _ => true
  | _ => false
  end.

(** An action succeeds when it commits a new game state. *)
Definition committed {A} (m : M A) (e : Env) (w : World) : bool :=
  List.existsb is_commit (events_of m e w).

(** The provider answers every request of [sendGameTx] favourably. *)
Definition tx_confirms (wl : Wallet) : bool :=
  has_provider wl
  && match chain_answer wl with
     | OnMainnet | OnSepolia => true
     | Switched after => String.eqb after BASE_MAINNET
     | ChainThrew _ _ => false
     end
  && is_ok (accounts_answer wl)
  && match balance_answer wl with
     | Ok b => 0 <? b
     | Throw _ => false
     end
  && is_ok (sendCalls_answer wl).

(** The invariant of the data model: a planted tree has grown once. *)
Definition planted_grown (st : LocalState) : Prop :=
  plantedAt st <> None -> 1 <= growth st.

(** What the user and the host can do to the component. *)
Inductive Action : Type :=
| APlant
| AWater
| ARevive
| AGraft
| AMainButton
| AConnect (addr : string)
| AReload
| ATypeFriend (text : string).

Definition run_action (a : Action) : M unit :=
  match a with
  | APlant => plant
  | AWater => water
  | ARevive => revive
  | AGraft => graft
  | AMainButton => main_button_click
  | AConnect addr => connect_as addr
  | AReload => reload
  | ATypeFriend text =>
      fun _ w =>
        (tt, {| account := account w; local := local w;
                friendAddress := text; friendHue := friendHue w;
                localStorage := localStorage w; trace := trace w;
                clock_reads := clock_reads w; wallet_uses := wallet_uses w |})
  end.

Fixpoint run_actions (acts : list Action) (e : Env) (w : World) : World :=
  match acts with
  | [] => w
  | a :: rest => run_actions rest e (exec (run_action a) e w)
  end.

(** The worlds the program reaches from an empty store. *)
Definition reachable (w : World) : Prop :=
  exists e acts, w = run_actions acts e initial_world.

Definition in_unit (x : Q) : Prop := (0 <= x)%Q /\ (x < 1)%Q.

Definition count_calls (g : nat) (calls : list nat) : nat :=
  List.length (List.filter (Nat.eqb g) calls).

(** The depths of the frames of [branch] in a painting. *)
Fixpoint depths (l : list Shape) : list Z :=
  match l with
  | [] => []
  | SBranch d :: rest => d :: depths rest
  | _ :: rest => depths rest
  end.

(** The world after some events, clock readings and wallet uses. *)
Definition bump (evs : list Event) (reads uses : nat) (w : World) : World :=
  {| account := account w; local := local w;
     friendAddress := friendAddress w; friendHue := friendHue w;
     localStorage := localStorage w; trace := (trace w ++ evs)%list;
     clock_reads := (reads + clock_reads w)%nat;
     wallet_uses := (uses + wallet_uses w)%nat |}.

(** The world with a new game state, in the component and in the store. *)
Definition commit (st : LocalState) (w : World) : World :=
  {| account := account w; local := st;
     friendAddress := friendAddress w; friendHue := friendHue w;
     localStorage := saveState (account w) st (localStorage w);
     trace := trace w;
     clock_reads := clock_reads w; wallet_uses := wallet_uses w |}.

Definition with_hue (hue : num) (w : World) : World :=
  {| account := account w; local := local w;
     friendAddress := friendAddress w; friendHue := Some hue;
     localStorage := localStorage w; trace := trace w;
     clock_reads := clock_reads w; wallet_uses := wallet_uses w |}.

(** The events of a commit, after which comes the closing toast. *)
Definition commit_events (w : World) (st : LocalState) (refresh : bool)
  (msg : string) : list Event :=
  ([ESetLocal st; ESaveState (lsKey (account w)) st]
   ++ (if refresh then [ERefreshSignals (account w)] else [])
   ++ [EToast msg])%list.

(** The game state [water] commits. *)
Definition watered (st : LocalState) (now : Z) : LocalState :=
  set_growth_watered st ((if growth st =? 0 then 1 else growth st) + 1) now.

(** The invariant on a world: on the component's game state and on every
    record [loadState] can read from the store. *)
Definition world_ok (w : World) : Prop :=
  planted_grown (local w)
  /\ forall addr, planted_grown (loadState addr (localStorage w)).


(** Every frame of [branch] painted so far has a depth of [1..D]. *)
Definition depths_ok (D : Z) (s : RState) : Prop :=
  List.Forall (fun d => 1 <= d <= D) (depths (topology s)).

(** A painting step that returns, and keeps [P]. *)
Definition keeps (P : RState -> Prop) {A} (m : R A) : Prop :=
  forall s, P s -> exists a s', m s = Some (a, s') /\ P s'.


(** [m2] returns what [m1] returns, whenever [m1] returns. *)
Definition extends {A} (m1 m2 : R A) : Prop :=
  forall s r, m1 s = Some r -> m2 s = Some r.

(** The variable of a closure after [n] calls. *)
Fixpoint mulberry32_skip (n : nat) (a : num) : num :=
  match n with
  | O => a
  | S n' => mulberry32_skip n' (fst (mulberry32_next a))
  end.

(** From [s] to [s'] the seeded numbers drawn are the next ones of the
    stream of the generator of [s]. *)
Definition draws_from (s s' : RState) : Prop :=
  exists k, seeded s' = (seeded s ++ mulberry32_take k (rng s))%list
            /\ rng s' = mulberry32_skip k (rng s).

(** A painting step that draws from the generator in hand and never
    replaces it. *)
Definition streams {A} (m : R A) : Prop :=
  forall s a s', m s = Some (a, s') -> draws_from s s'.

(** ** Notions for the further properties *)

(** The bytes a hex text stands for, two digits a byte. *)
Fixpoint bytes_of_hex (s : string) : list Z :=
  match s with
  | String a (String b rest) =>
      (16 * hex_value a + hex_value b) :: bytes_of_hex rest
  | _ => []
  end.

(** The text [encodeLogAction] reads its payload from: the argument, or
    ["0x"] when it is omitted or empty, without its prefix. *)
Definition log_data (dataHex : option string) : string :=
  strip0x (match dataHex with
           | Some d => if String.eqb d "" then "0x" else d
           | None => "0x"
           end).

(** What [computeMissedStreak(st)] returns when the clock reads [now]: the
    whole days since the last watering, kept within 0 and 30. *)
Definition missed_at (now : Z) (st : LocalState) : Z :=
  if falsy_ts (lastWateredAt st) then 0
  else clampZ ((now - default 0 (lastWateredAt st)) / 86400000) 0 30.

(** A game state with its missed streak replaced. *)
Definition with_streak (missed : Z) (st : LocalState) : LocalState :=
  {| plantedAt := plantedAt st; growth := growth st;
     lastWateredAt := lastWateredAt st; missedStreak := missed;
     revivedAt := revivedAt st; lastGraftedAt := lastGraftedAt st |}.

(** The shape of the game states the program writes: a missed streak of
    0..30, a growth that is not negative, the initial state as the one
    unplanted state, a watering date on every planted tree, and revivals and
    grafts on planted trees only. *)
Definition state_ok (st : LocalState) : Prop :=
  0 <= missedStreak st <= 30
  /\ 0 <= growth st
  /\ (plantedAt st = None -> st = zero_state)
  /\ (plantedAt st <> None -> lastWateredAt st <> None)
  /\ (revivedAt st <> None \/ lastGraftedAt st <> None ->
      planted_of st = true).

(** The shape of a world: the component's game state and every record of
    the store are well shaped, and the component shows the record stored
    for the connected account. *)
Definition world_inv (w : World) : Prop :=
  state_ok (local w)
  /\ (forall addr, state_ok (loadState addr (localStorage w)))
  /\ (account w <> "" -> loadState (account w) (localStorage w) = local w).

(** The texts of the Growth and Health pills and the [disabled] attribute
    of the Revive button, as the component renders them. *)
Definition growth_pill (st : LocalState) : Z :=
  if planted_of st then growth st else 0.

Definition health_pill (st : LocalState) : string :=
  if withered_of st then "Withered"
  else if Qltb (8 # 10) (computeHealth st) then "Vibrant"
  else if Qltb (6 # 10) (computeHealth st) then "Tired"
  else "Fading".

Definition revive_button_disabled (w : World) : bool :=
  String.eqb (account w) ""
  || negb (planted_of (local w))
  || negb (withered_of (local w)).

(** The world after [k] more readings of the clock. *)
Definition tick (k : nat) (w : World) : World :=
  {| account := account w; local := local w;
     friendAddress := friendAddress w; friendHue := friendHue w;
     localStorage := localStorage w; trace := trace w;
     clock_reads := (k + clock_reads w)%nat;
     wallet_uses := wallet_uses w |}.







(** A painting step that only adds marks, each of them satisfying [Q]. *)
Definition paints (P : Mark -> Prop) {A} (m : R A) : Prop :=
  forall s a s', m s = Some (a, s') ->
    exists new, marks s' = (marks s ++ new)%list /\ List.Forall P new.

(** A mark that, if it is a bloom, has the accent hue of the parameters. *)
Definition bloom_of (p : BonsaiParams) (m : Mark) : Prop :=
  match m with
  | MBloom _ _ _ hue => p_friendHue p = Some hue
  | _ => True
  end.


(** A painting step that draws at most [n] seeded numbers. *)
Definition draws_at_most (n : nat) {A} (m : R A) : Prop :=
  forall s a s', m s = Some (a, s') ->
    (List.length (seeded s') <= List.length (seeded s) + n)%nat.

(** The frames of [branch] that one frame with [k] levels below it can
    open, itself included, when every frame opens three: 1 + 3 + ... + 3^k. *)
Fixpoint frames_bound (k : nat) : nat :=
  match k with
  | O => 1%nat
  | S k' => (1 + 3 * frames_bound k')%nat
  end.

(** * Properties *)

(** ** Rounding to binary64 *)

Lemma nearest_even_le (n d J : Z) :
  0 < d -> n <= J * d -> nearest_even n d <= J.
Proof.
  intros Hd H. unfold nearest_even.
  pose proof (Z.div_mod n d ltac:(lia)) as E.
  pose proof (Z.mod_pos_bound n d Hd) as Hr.
  assert (n / d <= J) by (apply Z.div_le_upper_bound; [lia | nia]).
  assert (2 * (n mod d) >= d -> n / d + 1 <= J) by nia.
  destruct (2 * (n mod d) <? d) eqn:E1; [lia|].
  apply Z.ltb_ge in E1.
  destruct (d <? 2 * (n mod d)); [lia|].
  destruct (Z.even (n / d)); lia.
Qed.

Lemma nearest_even_ge (n d J : Z) :
  0 < d -> J * d <= n -> J <= nearest_even n d.
Proof.
  intros Hd H. unfold nearest_even.
  assert (J <= n / d) by (apply Z.div_le_lower_bound; [lia | nia]).
  destruct (2 * (n mod d) <? d); [lia|].
  destruct (d <? 2 * (n mod d)); [lia|].
  destruct (Z.even (n / d)); lia.
Qed.

Lemma log2_floor_upper (n d E : Z) :
  0 < n -> 0 < d -> -1 <= E -> n < 2 ^ (E + 1) * d -> log2_floor n d <= E.
Proof.
  intros Hn Hd HE H. unfold log2_floor.
  destruct (Z.leb_spec d n) as [Hle|Hlt].
  - assert (0 < n / d) by (apply Z.div_str_pos; lia).
    assert (n / d < 2 ^ (E + 1)) by (apply Z.div_lt_upper_bound; [lia | nia]).
    assert (Z.log2 (n / d) < E + 1) by (apply Z.log2_lt_pow2; lia).
    lia.
  - assert (2 <= (d + n - 1) / n) by (apply Z.div_le_lower_bound; lia).
    pose proof (Z.log2_up_pos ((d + n - 1) / n) ltac:(lia)). lia.
Qed.

Lemma log2_floor_lower (n d : Z) :
  0 < d -> d <= n -> 2 ^ log2_floor n d * d <= n /\ 0 <= log2_floor n d.
Proof.
  intros Hd Hle. unfold log2_floor.
  destruct (Z.leb_spec d n) as [_|Hlt]; [|lia].
  assert (0 < n / d) by (apply Z.div_str_pos; lia).
  pose proof (Z.log2_spec (n / d) ltac:(lia)) as [Hs _].
  pose proof (Z.mul_div_le n d Hd).
  split; [nia | apply Z.log2_nonneg].
Qed.

Lemma log2_floor_neg (n d : Z) :
  0 < n -> n < d -> log2_floor n d < 0.
Proof.
  intros Hn Hlt. unfold log2_floor.
  destruct (Z.leb_spec d n) as [Hle|_]; [lia|].
  assert (2 <= (d + n - 1) / n) by (apply Z.div_le_lower_bound; lia).
  pose proof (Z.log2_up_pos ((d + n - 1) / n) ltac:(lia)). lia.
Qed.

Lemma nearest_even_nonneg (n d : Z) : 0 <= n -> 0 < d -> 0 <= nearest_even n d.
Proof. intros Hn Hd. apply nearest_even_ge; lia. Qed.

Lemma round_double_nonneg (q : Q) : (0 <= q)%Q -> (0 <= round_double q)%Q.
Proof.
  intros H. destruct q as [qn qd]. unfold Qle in H. cbn [Qnum Qden] in H.
  unfold round_double. cbn [Qnum Qden].
  destruct (Z.abs qn =? 0); [apply Qle_refl|].
  set (e := Z.max (log2_floor (Z.abs qn) (Z.pos qd)) (-1022) - 52).
  assert (HP : 0 < 2 ^ Z.max 0 e) by (apply Z.pow_pos_nonneg; lia).
  assert (HM : 0 < 2 ^ Z.max 0 (- e)) by (apply Z.pow_pos_nonneg; lia).
  pose proof (nearest_even_nonneg (Z.abs qn * 2 ^ Z.max 0 (- e))
                (Z.pos qd * 2 ^ Z.max 0 e) ltac:(nia) ltac:(nia)) as Hk.
  rewrite Qred_correct. unfold Qle. cbn [Qnum Qden].
  assert (0 <= Z.sgn qn) by (destruct qn; cbn; lia). nia.
Qed.

Lemma round_double_nonpos (q : Q) : (q <= 0)%Q -> (round_double q <= 0)%Q.
Proof.
  intros H. destruct q as [qn qd]. unfold Qle in H. cbn [Qnum Qden] in H.
  unfold round_double. cbn [Qnum Qden].
  destruct (Z.abs qn =? 0); [apply Qle_refl|].
  set (e := Z.max (log2_floor (Z.abs qn) (Z.pos qd)) (-1022) - 52).
  assert (HP : 0 < 2 ^ Z.max 0 e) by (apply Z.pow_pos_nonneg; lia).
  assert (HM : 0 < 2 ^ Z.max 0 (- e)) by (apply Z.pow_pos_nonneg; lia).
  pose proof (nearest_even_nonneg (Z.abs qn * 2 ^ Z.max 0 (- e))
                (Z.pos qd * 2 ^ Z.max 0 e) ltac:(nia) ltac:(nia)) as Hk.
  rewrite Qred_correct. unfold Qle. cbn [Qnum Qden].
  assert (Z.sgn qn <= 0) by (destruct qn; cbn in *; lia). nia.
Qed.

(** A dyadic bound above is kept by the rounding: [j / 2^t] is a binary64
    number on every binade below [2^(53 - t)]. *)
Lemma round_double_le (q : Q) (j : Z) (p : positive) (t : Z) :
  0 <= t <= 53 -> Zpos p = 2 ^ t ->
  (0 < q)%Q -> (q < inject_Z (2 ^ (53 - t)))%Q -> (q <= Qmake j p)%Q ->
  (round_double q <= Qmake j p)%Q.
Proof.
  intros Ht Hp H0 Hlt Hle. destruct q as [qn qd].
  unfold Qlt in H0, Hlt. unfold Qle in Hle.
  cbn [Qnum Qden inject_Z] in H0, Hlt, Hle.
  rewrite ?Z.mul_1_r in H0, Hlt. cbn [Z.mul] in H0.
  unfold round_double. cbn [Qnum Qden].
  rewrite (Z.abs_eq qn) by lia.
  destruct (Z.eqb_spec qn 0) as [|_]; [lia|].
  pose proof (log2_floor_upper qn (Zpos qd) (52 - t) ltac:(lia) ltac:(lia)
                ltac:(lia)) as Hlf.
  replace (52 - t + 1) with (53 - t) in Hlf by lia. specialize (Hlf Hlt).
  set (lf := log2_floor qn (Z.pos qd)) in *.
  set (s := Z.max lf (-1022) - 52).
  assert (Hs : s <= - t) by lia.
  rewrite (Z.max_l 0 s) by lia. rewrite (Z.max_r 0 (- s)) by lia.
  change (2 ^ 0) with 1. rewrite !Z.mul_1_r.
  assert (HA : 0 < 2 ^ (- s - t)) by (apply Z.pow_pos_nonneg; lia).
  assert (HB : 0 < 2 ^ t) by (apply Z.pow_pos_nonneg; lia).
  assert (HAB : 2 ^ (- s) = 2 ^ (- s - t) * 2 ^ t)
    by (rewrite <- Z.pow_add_r by lia; f_equal; lia).
  rewrite Qred_correct. unfold Qle. cbn [Qnum Qden].
  rewrite Z2Pos.id by (rewrite HAB; nia).
  rewrite Hp in *. rewrite HAB.
  replace (Z.sgn qn) with 1 by (destruct qn; cbn; lia). rewrite Z.mul_1_l.
  set (A := 2 ^ (- s - t)) in *. set (B := 2 ^ t) in *.
  assert (Hk : nearest_even (qn * (A * B)) (Z.pos qd) <= j * A)
    by (apply nearest_even_le; [lia | nia]).
  nia.
Qed.

(** An integer bound below, of 2^53 at most, is kept too. *)
Lemma round_double_ge (q : Q) (j : Z) :
  0 < j <= 2 ^ 53 -> (inject_Z j <= q)%Q -> (inject_Z j <= round_double q)%Q.
Proof.
  intros Hj Hle. destruct q as [qn qd].
  unfold Qle in Hle. cbn [Qnum Qden inject_Z] in Hle.
  unfold round_double. cbn [Qnum Qden].
  assert (Hq : 0 < qn) by nia.
  rewrite (Z.abs_eq qn) by lia.
  destruct (Z.eqb_spec qn 0) as [|_]; [lia|].
  replace (Z.sgn qn) with 1 by (destruct qn; cbn; lia). rewrite Z.mul_1_l.
  assert (Hdn : Z.pos qd <= qn) by nia.
  destruct (log2_floor_lower qn (Z.pos qd) ltac:(lia) Hdn) as [Hlow Hnn].
  set (lf := log2_floor qn (Z.pos qd)) in *.
  rewrite (Z.max_l lf (-1022)) by lia.
  rewrite Qred_correct. unfold Qle. cbn [Qnum Qden inject_Z].
  rewrite Z.mul_1_r in Hle.
  destruct (Z.le_gt_cases (lf - 52) 0) as [Hs|Hs].
  - rewrite (Z.max_l 0 (lf - 52)) by lia.
    rewrite (Z.max_r 0 (- (lf - 52))) by lia.
    change (2 ^ 0) with 1. rewrite !Z.mul_1_r.
    assert (HA : 0 < 2 ^ (- (lf - 52))) by (apply Z.pow_pos_nonneg; lia).
    rewrite Z2Pos.id by lia.
    set (A := 2 ^ (- (lf - 52))) in *.
    assert (Hk : j * A <= nearest_even (qn * A) (Z.pos qd))
      by (apply nearest_even_ge; [lia | nia]).
    lia.
  - rewrite (Z.max_r 0 (lf - 52)) by lia.
    rewrite (Z.max_l 0 (- (lf - 52))) by lia.
    change (2 ^ 0) with 1. change (Z.pos (Z.to_pos 1)) with 1.
    rewrite ?Z.mul_1_r.
    assert (HP : 2 <= 2 ^ (lf - 52)).
    { change 2 with (2 ^ 1) at 1. apply Z.pow_le_mono_r; lia. }
    assert (HE : 2 ^ lf = 2 ^ 52 * 2 ^ (lf - 52))
      by (rewrite <- Z.pow_add_r by lia; f_equal; lia).
    rewrite HE in Hlow.
    set (P := 2 ^ (lf - 52)) in *.
    assert (Hk : 2 ^ 52 <= nearest_even qn (Z.pos qd * P))
      by (apply nearest_even_ge; [nia | nia]).
    change (2 ^ 53) with (2 ^ 52 * 2) in Hj. nia.
Qed.

Lemma Qred_inject_Z (z : Z) : Qred (inject_Z z) = inject_Z z.
Proof.
  unfold Qred, inject_Z.
  pose proof (Z.ggcd_gcd z 1) as Hg.
  pose proof (Z.ggcd_correct_divisors z 1) as Hd.
  destruct (Z.ggcd z 1) as [g [a b]]. cbn [fst snd] in *.
  rewrite Z.gcd_1_r in Hg. subst g. destruct Hd as [Ha Hb].
  replace a with z by lia. replace b with 1 by lia. reflexivity.
Qed.

(** Integers below 2^53 are binary64 numbers. *)
Lemma round_double_int (m : Z) :
  Z.abs m < 2 ^ 53 -> round_double (inject_Z m) = inject_Z m.
Proof.
  intros Hm. unfold round_double. cbn [inject_Z Qnum Qden].
  destruct (Z.eqb_spec (Z.abs m) 0) as [H0|H0].
  - replace m with 0 by lia. reflexivity.
  - destruct (log2_floor_lower (Z.abs m) 1 ltac:(lia) ltac:(lia)) as [_ Hnn].
    pose proof (log2_floor_upper (Z.abs m) 1 52 ltac:(lia) ltac:(lia)
                  ltac:(lia) ltac:(change (2 ^ (52 + 1)) with (2 ^ 53); lia))
      as Hup.
    set (lf := log2_floor (Z.abs m) 1) in *.
    rewrite (Z.max_l lf (-1022)) by lia.
    rewrite (Z.max_l 0 (lf - 52)) by lia.
    rewrite (Z.max_r 0 (- (lf - 52))) by lia.
    change (2 ^ 0) with 1. rewrite !Z.mul_1_r.
    assert (HA : 0 < 2 ^ (- (lf - 52))) by (apply Z.pow_pos_nonneg; lia).
    set (A := 2 ^ (- (lf - 52))) in *.
    assert (Hk : nearest_even (Z.abs m * A) 1 = Z.abs m * A).
    { unfold nearest_even. rewrite Z.mod_1_r, Z.div_1_r. reflexivity. }
    rewrite Hk. rewrite <- (Qred_inject_Z m). apply Qred_complete.
    unfold Qeq. cbn [Qnum Qden inject_Z]. rewrite Z2Pos.id by lia.
    destruct m; cbn [Z.sgn Z.abs]; lia.
Qed.

Lemma quotient_double_ge (m c j : Z) :
  0 < c -> 0 < j -> j * c <= 2 ^ 53 -> j * c <= m ->
  (inject_Z j <= quotient_double m c)%Q.
Proof.
  intros Hc Hj Hb Hm. unfold quotient_double.
  assert (H1 : (inject_Z (j * c) <= round_double (inject_Z m))%Q).
  { apply round_double_ge; [nia|]. unfold Qle. cbn [inject_Z Qnum Qden]. lia. }
  apply round_double_ge; [nia|].
  apply Qle_shift_div_l; [unfold Qlt; cbn; lia|].
  rewrite <- inject_Z_mult. exact H1.
Qed.

Lemma quotient_double_lt (m c j : Z) (p : positive) (t : Z) :
  0 < c -> 0 <= t <= 53 -> Zpos p = 2 ^ t -> c <= 2 ^ t ->
  0 < j <= 2 ^ (53 - t) -> j * c <= 2 ^ 53 -> m < j * c ->
  (quotient_double m c <= Qmake (j * 2 ^ t - 1) p)%Q.
Proof.
  intros Hc Ht Hp Hct Hj Hb Hm. unfold quotient_double.
  assert (HB : 0 < 2 ^ t) by (apply Z.pow_pos_nonneg; lia).
  assert (Hpos : (0 <= Qmake (j * 2 ^ t - 1) p)%Q)
    by (unfold Qle; cbn [Qnum Qden]; nia).
  destruct (Z.le_gt_cases m 0) as [Hle|Hgt].
  - eapply Qle_trans; [|exact Hpos]. apply round_double_nonpos.
    apply Qle_shift_div_r; [unfold Qlt; cbn; lia|].
    rewrite Qmult_0_l. apply round_double_nonpos.
    unfold Qle. cbn [inject_Z Qnum Qden]. lia.
  - rewrite round_double_int by (rewrite Z.abs_eq; lia).
    assert (Hq : (Qdiv (inject_Z m) (inject_Z c) == Qmake m (Z.to_pos c))%Q).
    { destruct c as [|c|c]; try lia. unfold Qeq. simpl. lia. }
    assert (Hd : Zpos (Z.to_pos c) = c) by (apply Z2Pos.id; lia).
    apply (round_double_le _ _ p t Ht Hp).
    + rewrite Hq. unfold Qlt. cbn [Qnum Qden]. lia.
    + rewrite Hq. unfold Qlt. cbn [Qnum Qden inject_Z]. rewrite Hd.
      assert (0 < 2 ^ (53 - t)) by (apply Z.pow_pos_nonneg; lia). nia.
    + rewrite Hq. unfold Qle. cbn [Qnum Qden]. rewrite Hd, Hp. nia.
Qed.

Lemma hours_ge_one (m : Z) :
  (1 <= quotient_double m 3600000)%Q <-> 3600000 <= m.
Proof.
  split.
  - intros H. destruct (Z.lt_ge_cases m 3600000) as [Hlt|Hge]; [|exact Hge].
    pose proof (quotient_double_lt m 3600000 1 4194304 22 ltac:(lia)
                  ltac:(lia) eq_refl ltac:(discriminate)
                  ltac:(change (2 ^ (53 - 22)) with 2147483648; lia)
                  ltac:(discriminate) ltac:(lia)) as Hb.
    exfalso. apply (Qle_not_lt _ _ (Qle_trans _ _ _ H Hb)). reflexivity.
  - intros H. apply (quotient_double_ge m 3600000 1); lia.
Qed.

Lemma days_floor (m : Z) :
  Z.max 0 (Z.min 30 (Qfloor (quotient_double m 86400000)))
  = Z.max 0 (Z.min 30 (m / 86400000)).
Proof.
  set (i := Z.max 0 (Z.min 30 (m / 86400000))).
  assert (Hi : 0 <= i <= 30) by (unfold i; lia).
  assert (Hlow : 0 < i -> i <= Qfloor (quotient_double m 86400000)).
  { intros Hp.
    assert (i * 86400000 <= m)
      by (unfold i in *; Z.div_mod_to_equations; lia).
    rewrite <- (Qfloor_Z i). apply Qfloor_resp_le.
    apply quotient_double_ge; try lia. }
  assert (Hup : i < 30 -> Qfloor (quotient_double m 86400000) <= i).
  { intros Hp.
    assert (m < (i + 1) * 86400000)
      by (unfold i in *; Z.div_mod_to_equations; lia).
    pose proof (quotient_double_lt m 86400000 (i + 1) 134217728 27 ltac:(lia)
                  ltac:(lia) eq_refl ltac:(discriminate)) as Hb.
    specialize (Hb ltac:(change (2 ^ (53 - 27)) with 67108864; lia)
                   ltac:(change (2 ^ 53) with 9007199254740992; lia) H).
    apply Qfloor_resp_le in Hb.
    assert (Qfloor (Qmake ((i + 1) * 2 ^ 27 - 1) 134217728) <= i).
    { unfold Qfloor. cbn [Qnum Qden]. change (2 ^ 27) with 134217728.
      Z.div_mod_to_equations. lia. }
    lia. }
  lia.
Qed.

Lemma unit_round (r : Z) :
  0 <= r < 1000000 ->
  (0 <= round_double (Qmake r 1000000))%Q
  /\ (round_double (Qmake r 1000000) <= Qmake 1048575 1048576)%Q.
Proof.
  intros Hr. split.
  - apply round_double_nonneg. unfold Qle. cbn [Qnum Qden]. lia.
  - destruct (Z.eq_dec r 0) as [->|Hnz]; [vm_compute; discriminate|].
    apply (round_double_le _ _ _ 20); try lia; try reflexivity.
    + unfold Qlt. cbn [Qnum Qden]. lia.
    + unfold Qlt. cbn [Qnum Qden inject_Z].
      change (2 ^ (53 - 20)) with 8589934592. lia.
    + unfold Qle. cbn [Qnum Qden]. lia.
Qed.


Lemma seed_floor (x : Q) :
  (0 <= x)%Q -> (x <= Qmake 1048575 1048576)%Q ->
  0 <= Qfloor (Qmult x (inject_Z (2 ^ 31))) < 2 ^ 31.
Proof.
  intros H0 H1. destruct x as [n d].
  unfold Qle in *. cbn [Qnum Qden] in *.
  unfold Qfloor, Qmult, inject_Z. cbn [Qnum Qden].
  change (2 ^ 31) with 2147483648.
  split; [apply Z.div_pos; lia | apply Z.div_lt_upper_bound; lia].
Qed.


(** ** Strings *)

Lemma str_app_cons (c : ascii) (s t : string) :
  String c s ++ t = String c (s ++ t).
Proof. reflexivity. Qed.

Lemma str_app_nil_l (s : string) : "" ++ s = s.
Proof. reflexivity. Qed.

Lemma str_app_nil_r (s : string) : s ++ "" = s.
Proof.
  induction s as [|c s IH]; [reflexivity|]. now rewrite str_app_cons, IH.
Qed.

Lemma str_app_assoc (a b c : string) : (a ++ b) ++ c = a ++ (b ++ c).
Proof.
  induction a as [|x a IH]; [reflexivity|]. now rewrite !str_app_cons, IH.
Qed.

Lemma str_length_app (a b : string) :
  String.length (a ++ b) = (String.length a + String.length b)%nat.
Proof.
  induction a as [|x a IH]; [reflexivity|].
  rewrite str_app_cons. simpl. now rewrite IH.
Qed.

Lemma rep_length (n : nat) (c : ascii) : String.length (Str.rep n c) = n.
Proof. induction n as [|n IH]; simpl; [reflexivity | now rewrite IH]. Qed.

Lemma map_length (f : ascii -> ascii) (s : string) :
  String.length (Str.map f s) = String.length s.
Proof. induction s as [|c s IH]; simpl; [reflexivity | now rewrite IH]. Qed.

Lemma rep_snoc (n : nat) (c : ascii) :
  Str.rep n c ++ String c "" = Str.rep (S n) c.
Proof.
  induction n as [|n IH]; [reflexivity|].
  cbn [Str.rep]. now rewrite str_app_cons, IH.
Qed.

(** ** Hexadecimal rendering *)

Lemma hex_fixed_length (k : nat) (n : Z) : String.length (hex_fixed k n) = k.
Proof.
  revert n. induction k as [|k IH]; intros n; simpl; [reflexivity|].
  rewrite str_length_app, IH. simpl. lia.
Qed.

Lemma hex_fixed_zero (k : nat) : hex_fixed k 0 = Str.rep k "0".
Proof.
  induction k as [|k IH]; [reflexivity|].
  cbn [hex_fixed]. change (0 / 16) with 0. rewrite IH.
  change (hex_digit (0 mod 16)) with "0"%char. apply rep_snoc.
Qed.

Lemma to_hex_fuel_length (fuel : nat) (n : Z) :
  (String.length (to_hex_fuel fuel n) <= fuel)%nat.
Proof.
  revert n. induction fuel as [|f IH]; intros n; simpl; [lia|].
  destruct (n <? 16); simpl; [lia|].
  rewrite str_length_app. simpl. specialize (IH (n / 16)). lia.
Qed.

(** Padding [toString(16)] on the left to [k] digits gives the [k]-digit
    rendering, for a number that fits. *)
Lemma padStart_to_hex_fuel (k : nat) :
  forall (fuel : nat) (n : Z),
    (k <> 0)%nat -> 0 <= n < 16 ^ Z.of_nat k ->
    (fuel <> 0)%nat -> n < 16 ^ Z.of_nat fuel ->
    Str.padStart k "0" (to_hex_fuel fuel n) = hex_fixed k n
    /\ (String.length (to_hex_fuel fuel n) <= k)%nat.
Proof.
  induction k as [|k IH]; intros fuel n Hk Hn Hf Hfuel; [congruence|].
  destruct fuel as [|f]; [congruence|].
  cbn [to_hex_fuel hex_fixed].
  destruct (Z.ltb_spec n 16) as [Hlt|Hge].
  - rewrite (Z.div_small n 16), (Z.mod_small n 16) by lia.
    rewrite hex_fixed_zero. unfold Str.padStart. simpl.
    rewrite Nat.sub_0_r. split; [reflexivity | lia].
  - assert (Hk' : (k <> 0)%nat).
    { intros ->. simpl in Hn. lia. }
    assert (Hf' : (f <> 0)%nat).
    { intros ->. simpl in Hfuel. lia. }
    assert (Hdiv : 0 <= n / 16 < 16 ^ Z.of_nat k).
    { split; [apply Z.div_pos; lia|].
      apply Z.div_lt_upper_bound; [lia|].
      rewrite Nat2Z.inj_succ, Z.pow_succ_r in Hn by lia. lia. }
    assert (Hdivf : n / 16 < 16 ^ Z.of_nat f).
    { apply Z.div_lt_upper_bound; [lia|].
      rewrite Nat2Z.inj_succ, Z.pow_succ_r in Hfuel by lia. lia. }
    destruct (IH f (n / 16) Hk' Hdiv Hf' Hdivf) as [Heq Hlen].
    rewrite <- Heq. unfold Str.padStart.
    rewrite str_length_app. simpl String.length.
    replace (S k - (String.length (to_hex_fuel f (n / 16)) + 1))%nat
      with (k - String.length (to_hex_fuel f (n / 16)))%nat by lia.
    rewrite str_app_assoc. split; [reflexivity | lia].
Qed.

Lemma pow2_le_pow16 (m : Z) : 0 <= m -> 2 ^ m <= 16 ^ m.
Proof. intros Hm. apply Z.pow_le_mono_l. lia. Qed.

Lemma padStart_to_hex (k : nat) (n : Z) :
  (k <> 0)%nat -> 0 <= n < 16 ^ Z.of_nat k ->
  Str.padStart k "0" (to_hex n) = hex_fixed k n.
Proof.
  intros Hk Hn. unfold to_hex.
  destruct (Z.ltb_spec n 0) as [Hneg|_]; [lia|].
  apply padStart_to_hex_fuel; try assumption; [congruence|].
  destruct (Z.eq_dec n 0) as [->|Hnz]; [reflexivity|].
  rewrite Nat2Z.inj_succ, Z2Nat.id by apply Z.log2_nonneg.
  pose proof (Z.log2_spec n ltac:(lia)) as [_ Hup].
  pose proof (pow2_le_pow16 (Z.succ (Z.log2 n))
                ltac:(pose proof (Z.log2_nonneg n); lia)).
  lia.
Qed.

Lemma join_map_snoc {A} (f : A -> string) (l : list A) (x : A) :
  join (List.map f (l ++ [x])%list) = join (List.map f l) ++ f x.
Proof.
  induction l as [|y l IH]; simpl.
  - now rewrite str_app_nil_r.
  - now rewrite IH, str_app_assoc.
Qed.

(** The byte-wise big-endian rendering and the digit-wise one agree. *)
Lemma hex_of_be_bytes (k : nat) (n : Z) :
  hex_of_bytes (be_bytes k n) = hex_fixed (2 * k) n.
Proof.
  revert n. induction k as [|k IH]; intros n; [reflexivity|].
  replace (2 * S k)%nat with (S (S (2 * k))) by lia.
  cbn [be_bytes hex_fixed]. unfold hex_of_bytes in *.
  rewrite join_map_snoc, IH. cbn [hex_fixed]. simpl append at 2.
  rewrite <- str_app_assoc.
  replace (n / 16 / 16) with (n / 256)
    by (rewrite Z.div_div by lia; reflexivity).
  replace (n mod 256 / 16 mod 16) with (n / 16 mod 16)
    by (Z.div_mod_to_equations; lia).
  replace (n mod 256 mod 16) with (n mod 16)
    by (Z.div_mod_to_equations; lia).
  reflexivity.
Qed.

(** ** The transfer encoder *)

Lemma isLikelyAddress_inv (a : string) :
  isLikelyAddress a = true ->
  exists rest, a = String "0" (String "x" rest)
               /\ String.length rest = 40%nat
               /\ Str.forallb is_hex rest = true.
Proof.
  unfold isLikelyAddress. intros H.
  destruct a as [|c0 [|c1 rest]]; try discriminate.
  - destruct c0 as [[] [] [] [] [] [] [] []]; discriminate.
  - destruct c0 as [[] [] [] [] [] [] [] []]; try discriminate.
    destruct c1 as [[] [] [] [] [] [] [] []]; try discriminate.
    apply andb_prop in H as [Hl Hh]. apply Nat.eqb_eq in Hl.
    exists rest. repeat split; assumption.
Qed.

Example encodeLogAction_water :
  encodeLogAction "water" (Some "0xabcd")
  = Ok ("0x2d9bc1fb"
        ++ "7761746572000000000000000000000000000000000000000000000000000000"
        ++ "0000000000000000000000000000000000000000000000000000000000000040"
        ++ "0000000000000000000000000000000000000000000000000000000000000002"
        ++ "abcd000000000000000000000000000000000000000000000000000000000000").
Proof. vm_compute. reflexivity. Qed.

Example encodeLogAction_odd :
  encodeLogAction "water" (Some "0xabc") = Throw "Invalid data hex (odd length).".
Proof. vm_compute. reflexivity. Qed.

(** C6: [encodeLogAction("plant")] with the default payload is the selector
    2d9bc1fb, the five UTF-8 bytes of "plant" followed by 27 zero bytes, the
    offset word of value 0x40, and a zero length word; the text ends there
    (2 + 8 + 3 * 64 characters). *)
Theorem encodeLogAction_plant :
  utf8_encode "plant" = [112; 108; 97; 110; 116]
  /\ encodeLogAction "plant" None
     = Ok ("0x" ++ "2d9bc1fb"
           ++ (hex_of_bytes (utf8_encode "plant") ++ Str.rep (2 * 27) "0")
           ++ hex_of_bytes (be_bytes 32 64)
           ++ hex_of_bytes (be_bytes 32 0))
  /\ (forall out, encodeLogAction "plant" None = Ok out ->
                  String.length out = (2 + 8 + 3 * 64)%nat).
Proof.
  split; [reflexivity|]. split; [vm_compute; reflexivity|].
  intros out H. vm_compute in H. injection H as <-. reflexivity.
Qed.

(** C5 as stated fails: a valid address and the positive amount 2^256 are
    accepted, and the text returned is not the selector, the address word
    and a 64-digit amount word, whatever that word. *)
Lemma encodeUsdcTransfer_overflow :
  let to := "0x5eC6AF0798b25C563B102d3469971f1a8d598121" in
  isLikelyAddress to = true /\ 0 < 2 ^ 256
  /\ is_ok (encodeUsdcTransfer to (2 ^ 256)) = true
  /\ forall word, String.length word = 64%nat ->
       encodeUsdcTransfer to (2 ^ 256)
       <> Ok ("0x" ++ "a9059cbb"
              ++ (Str.rep 24 "0" ++ Str.toLowerCase (Str.drop 2 to)) ++ word).
Proof.
  cbv zeta. split; [reflexivity|]. split; [reflexivity|].
  split; [vm_compute; reflexivity|].
  intros word Hlen Heq.
  assert (Hl : forall a b, Ok a = Ok b -> String.length a = String.length b)
    by (intros a b [= ->]; reflexivity).
  match type of Heq with ?l = _ => let v := eval vm_compute in l in
    change l with v in Heq end.
  apply Hl in Heq. rewrite !str_length_app, Hlen in Heq.
  vm_compute in Heq. discriminate.
Qed.

(** C5, amended: the encoder throws exactly on a malformed address or a
    non-positive amount; for a valid address and an amount below 2^256 the
    text is "0x", the selector, 24 zero digits and the 40 address digits in
    lower case, and the 32 bytes of the amount, most significant first. *)
Theorem encodeUsdcTransfer_spec (to : string) (amount : Z) :
  (is_ok (encodeUsdcTransfer to amount) = false
   <-> isLikelyAddress to = false \/ amount <= 0)
  /\ (isLikelyAddress to = true -> 0 < amount < 2 ^ 256 ->
      encodeUsdcTransfer to amount
      = Ok ("0x" ++ "a9059cbb"
            ++ (Str.rep 24 "0" ++ Str.toLowerCase (Str.drop 2 to))
            ++ hex_of_bytes (be_bytes 32 amount))).
Proof.
  split.
  - unfold encodeUsdcTransfer.
    destruct (isLikelyAddress to); simpl.
    + destruct (Z.leb_spec amount 0) as [Hle|Hgt]; simpl.
      * split; [intros _; right; exact Hle | reflexivity].
      * split; [discriminate | intros [Hd|Hd]; [discriminate | lia]].
    + split; [intros _; left; reflexivity | reflexivity].
  - intros Ha Hamt. unfold encodeUsdcTransfer. rewrite Ha. simpl negb.
    destruct (Z.leb_spec amount 0) as [Hle|_]; [lia|]. cbv iota.
    destruct (isLikelyAddress_inv to Ha) as (rest & -> & Hlen & _).
    change (Str.toLowerCase (String "0" (String "x" rest)))
      with (String "0" (String "x" (Str.toLowerCase rest))).
    cbn [replace_0x Str.drop]. unfold bytes32Pad at 1.
    unfold Str.padStart at 1. unfold Str.toLowerCase at 1.
    rewrite map_length, Hlen. change (64 - 40)%nat with 24%nat.
    unfold bytes32Pad. rewrite padStart_to_hex by (simpl; lia).
    rewrite hex_of_be_bytes. reflexivity.
Qed.

Lemma encodeUsdcTransfer_spec_witness :
  encodeUsdcTransfer "0x5eC6AF0798b25C563B102d3469971f1a8d598121" 5000000
  = Ok ("0x" ++ "a9059cbb"
        ++ "0000000000000000000000005ec6af0798b25c563b102d3469971f1a8d598121"
        ++ "00000000000000000000000000000000000000000000000000000000004c4b40").
Proof.
  rewrite (proj2 (encodeUsdcTransfer_spec
                    "0x5eC6AF0798b25C563B102d3469971f1a8d598121" 5000000)
             eq_refl ltac:(split; reflexivity)).
  reflexivity.
Defined.

(** ** Seed derivation *)

Ltac ascii_cases c :=
  destruct c as [[] [] [] [] [] [] [] []]; try discriminate; try reflexivity.

Lemma is_hex_not_space (c : ascii) : is_hex c = true -> Str.is_space c = false.
Proof. ascii_cases c. Qed.

Lemma is_hex_not_sign (c : ascii) :
  is_hex c = true -> Ascii.eqb c "-" = false /\ Ascii.eqb c "+" = false.
Proof. intros H. split; revert H; ascii_cases c. Qed.

Lemma is_hex_not_x (c : ascii) :
  is_hex c = true -> Ascii.eqb c "x" || Ascii.eqb c "X" = false.
Proof. ascii_cases c. Qed.

Lemma hex_value_range (c : ascii) : is_hex c = true -> 0 <= hex_value c < 16.
Proof.
  destruct c as [[] [] [] [] [] [] [] []]; try discriminate;
    intros _; vm_compute; split; congruence.
Qed.

Lemma hex_prefix_value_fold (s : string) (acc : Z) :
  Str.forallb is_hex s = true ->
  hex_prefix_value acc s
  = List.fold_left (fun a c => 16 * a + hex_value c)
      (list_ascii_of_string s) acc.
Proof.
  revert acc. induction s as [|c s IH]; intros acc H; [reflexivity|].
  cbn [Str.forallb] in H. apply andb_prop in H as [Hc Hs].
  cbn [hex_prefix_value list_ascii_of_string List.fold_left].
  rewrite Hc. apply IH, Hs.
Qed.

Lemma fold_hex_nonneg (l : list ascii) (acc : Z) :
  List.forallb is_hex l = true -> 0 <= acc ->
  0 <= List.fold_left (fun a c => 16 * a + hex_value c) l acc.
Proof.
  revert acc. induction l as [|c l IH]; intros acc H Hacc; [exact Hacc|].
  cbn [List.forallb] in H. apply andb_prop in H as [Hc Hl].
  cbn [List.fold_left]. apply IH; [exact Hl|].
  pose proof (hex_value_range c Hc). lia.
Qed.

Lemma forallb_list_ascii (f : ascii -> bool) (s : string) :
  List.forallb f (list_ascii_of_string s) = Str.forallb f s.
Proof.
  induction s as [|c s IH]; [reflexivity|].
  cbn [list_ascii_of_string List.forallb Str.forallb]. now rewrite IH.
Qed.

Lemma hex_number_nonneg (s : string) :
  Str.forallb is_hex s = true -> 0 <= hex_number s.
Proof.
  intros H. unfold hex_number. apply fold_hex_nonneg; [|lia].
  now rewrite forallb_list_ascii.
Qed.

(** On a non-empty string of hex digits [parseInt(s, 16)] is its value. *)
Lemma parseInt16_hex (s : string) :
  s <> "" -> Str.forallb is_hex s = true -> parseInt16 s = Some (hex_number s).
Proof.
  intros Hne H. destruct s as [|c s]; [congruence|].
  pose proof H as Hall.
  cbn [Str.forallb] in H. apply andb_prop in H as [Hc Hs].
  unfold parseInt16. cbn [Str.trimStart]. rewrite (is_hex_not_space c Hc).
  unfold strip_sign. destruct (is_hex_not_sign c Hc) as [-> ->].
  assert (Hp : strip_radix_prefix (String c s) = String c s).
  { unfold strip_radix_prefix. destruct s as [|c1 s]; [reflexivity|].
    cbn [Str.forallb] in Hs. apply andb_prop in Hs as [Hc1 _].
    rewrite (is_hex_not_x c1 Hc1), andb_false_r. reflexivity. }
  rewrite Hp, Hc. rewrite hex_prefix_value_fold by exact Hall.
  unfold hex_number. now rewrite Z.mul_1_l.
Qed.

Lemma take_forallb (f : ascii -> bool) (n : nat) (s : string) :
  Str.forallb f s = true -> Str.forallb f (Str.take n s) = true.
Proof.
  revert s. induction n as [|n IH]; intros s H; [reflexivity|].
  destruct s as [|c s]; [reflexivity|].
  cbn [Str.forallb] in H. apply andb_prop in H as [Hc Hs].
  cbn [Str.take Str.forallb]. now rewrite Hc, IH.
Qed.

Lemma take_length (n : nat) (s : string) :
  (n <= String.length s)%nat -> String.length (Str.take n s) = n.
Proof.
  revert s. induction n as [|n IH]; intros s H; [reflexivity|].
  destruct s as [|c s]; [simpl in H; lia|].
  cbn [Str.take String.length]. rewrite IH; [reflexivity|]. simpl in H. lia.
Qed.

Lemma hashToUnitFloat_hex (id : string) :
  let chunk := Str.take 12 (replace_0x id) in
  chunk <> "" -> Str.forallb is_hex chunk = true ->
  hashToUnitFloat id
  = Fin (round_double (Qmake (hex_number chunk mod 1000000) 1000000))
  /\ 0 <= hex_number chunk mod 1000000 < 1000000.
Proof.
  intros chunk Hne Hhex. unfold hashToUnitFloat. fold chunk.
  destruct (String.eqb_spec chunk "") as [He|_]; [congruence|].
  rewrite (parseInt16_hex chunk Hne Hhex).
  pose proof (hex_number_nonneg chunk Hhex) as Hn.
  rewrite Z.rem_mod_nonneg by lia.
  split; [reflexivity | apply Z.mod_pos_bound; lia].
Qed.

(** The seed of an address: the first 12 of its 40 digits decide it. *)
Lemma hashToUnitFloat_address (a : string) :
  isLikelyAddress a = true ->
  exists r, hashToUnitFloat a = Fin (round_double (Qmake r 1000000))
            /\ 0 <= r < 1000000.
Proof.
  intros Ha. destruct (isLikelyAddress_inv a Ha) as (rest & -> & Hlen & Hhex).
  destruct (hashToUnitFloat_hex (String "0" (String "x" rest))) as [Heq Hr].
  - cbn [replace_0x]. intros He.
    pose proof (take_length 12 rest ltac:(lia)) as Hl.
    rewrite He in Hl. discriminate.
  - cbn [replace_0x]. now apply take_forallb.
  - eexists. split; [exact Heq | exact Hr].
Qed.


(** The hue is the floor of a binary64 product: for the address below the
    exact product is 207, the product the program computes lies just under
    it. *)
Example hue_of_rounded :
  hue_of "0x00000008c6180000000000000000000000000000" = Fin (inject_Z 206)
  /\ Qfloor (Qmult (575000 # 1000000) (inject_Z 360)) = 207.
Proof. vm_compute. split; reflexivity. Qed.

Example hashToUnitFloat_tip_recipient :
  hashToUnitFloat "0x5eC6AF0798b25C563B102d3469971f1a8d598121"
  = Fin (round_double (Qmake 46194 1000000)).
Proof. vm_compute. reflexivity. Qed.

(** C2 as stated fails.  For the address below no number [k] of low-order
    digits gives the seed the program computes; two addresses that share
    their 39 low-order digits get different seeds; and an identifier
    without a hex digit gets [NaN], not 0. *)
Lemma hashToUnitFloat_not_low_order :
  let a := "0x5eC6AF0798b25C563B102d3469971f1a8d598121" in
  let b := "0x6eC6AF0798b25C563B102d3469971f1a8d598121" in
  (forall k, ~ num_eqv (hashToUnitFloat a) (seed_of_low_order k a))
  /\ (low_order 39 (replace_0x a) = low_order 39 (replace_0x b)
      /\ ~ num_eqv (hashToUnitFloat a) (hashToUnitFloat b))
  /\ hashToUnitFloat "zz" = NaN.
Proof.
  cbv zeta. split; [|split; [split|]].
  - intros k.
    do 41 (destruct k as [|k];
           [intros H; vm_compute in H; discriminate H|]).
    intros H. vm_compute in H. discriminate H.
  - vm_compute. reflexivity.
  - intros H. vm_compute in H. discriminate H.
  - vm_compute. reflexivity.
Qed.

(** C2, amended: [hashToUnitFloat] reads the first 12 characters that
    follow an optional "0x" (the high-order digits) and nothing else; when
    they are hex digits it returns their value modulo one million divided
    by one million, as the binary64 number nearest to the quotient, a number
    of [0, 1); the empty identifier and "0x" give 0. *)
Theorem hashToUnitFloat_spec (id : string) :
  let chunk := Str.take 12 (replace_0x id) in
  (forall id', Str.take 12 (replace_0x id') = chunk ->
               hashToUnitFloat id' = hashToUnitFloat id)
  /\ (chunk = "" -> num_eqv (hashToUnitFloat id) (Fin 0%Q))
  /\ (chunk <> "" -> Str.forallb is_hex chunk = true ->
      exists r, hashToUnitFloat id = Fin (round_double (Qmake r 1000000))
                /\ r = hex_number chunk mod 1000000
                /\ in_unit (round_double (Qmake r 1000000))).
Proof.
  intros chunk. split; [|split].
  - intros id' H. unfold hashToUnitFloat. fold chunk. now rewrite H.
  - intros H. unfold hashToUnitFloat. fold chunk. rewrite H.
    vm_compute. reflexivity.
  - intros Hne Hhex.
    destruct (hashToUnitFloat_hex id Hne Hhex) as [Heq Hr].
    eexists. split; [exact Heq|]. split; [reflexivity|].
    destruct (unit_round _ Hr) as [H0 H1]. split; [exact H0|].
    eapply Qle_lt_trans; [exact H1 | reflexivity].
Qed.

Lemma hashToUnitFloat_spec_witness :
  num_eqv (hashToUnitFloat "0x") (Fin 0%Q)
  /\ exists r,
       hashToUnitFloat "0x5eC6AF0798b25C563B102d3469971f1a8d598121"
       = Fin (round_double (Qmake r 1000000))
       /\ r = hex_number "5eC6AF0798b2" mod 1000000
       /\ in_unit (round_double (Qmake r 1000000)).
Proof.
  split.
  - apply (proj1 (proj2 (hashToUnitFloat_spec "0x"))). reflexivity.
  - apply (proj2 (proj2 (hashToUnitFloat_spec
                           "0x5eC6AF0798b25C563B102d3469971f1a8d598121"))).
    + discriminate.
    + reflexivity.
Defined.

(** ** The seeded generator *)

Lemma uint32_range (z : Z) : 0 <= uint32 z < two32.
Proof. unfold uint32, two32. apply Z.mod_pos_bound. lia. Qed.

Lemma mulberry32_next_range (a : num) : in_unit (snd (mulberry32_next a)).
Proof.
  unfold mulberry32_next. cbn [snd].
  match goal with |- in_unit (Qmake (uint32 ?z) _) =>
    pose proof (uint32_range z) as Hr end.
  unfold two32 in Hr. unfold in_unit, Qle, Qlt. cbn [Qnum Qden]. lia.
Qed.

Lemma mulberry32_take_range (n : nat) (a : num) :
  List.Forall in_unit (mulberry32_take n a).
Proof.
  revert a. induction n as [|n IH]; intros a; [constructor|].
  cbn [mulberry32_take].
  pose proof (mulberry32_next_range a) as Hr.
  destruct (mulberry32_next a) as [a' x]. constructor; [exact Hr | apply IH].
Qed.

Lemma mulberry32_take_firstn (N n : nat) (a : num) :
  (N <= n)%nat -> List.firstn N (mulberry32_take n a) = mulberry32_take N a.
Proof.
  revert n a. induction N as [|N IH]; intros n a Hle; [reflexivity|].
  destruct n as [|n]; [lia|]. cbn [mulberry32_take].
  destruct (mulberry32_next a) as [a' x]. cbn [List.firstn].
  f_equal. apply IH. lia.
Qed.

(** A closure's numbers depend on its own cell only: whatever the other
    calls of a run, closure [g] returns the stream of the value its cell
    held at the start. *)
Lemma gen_run_outputs (calls : list nat) :
  forall (h : gen_store) (g : nat) (a : num),
    h !! g = Some a ->
    outputs_of g (gen_run calls h) = mulberry32_take (count_calls g calls) a.
Proof.
  induction calls as [|c calls IH]; intros h g a Hg; [reflexivity|].
  cbn [gen_run]. unfold gen_call, count_calls. cbn [List.filter].
  destruct (Nat.eqb_spec g c) as [<-|Hne].
  - rewrite Hg. cbn [List.length mulberry32_take].
    destruct (mulberry32_next a) as [a' x].
    unfold outputs_of. cbn [List.filter fst]. rewrite Nat.eqb_refl.
    cbn [List.map snd]. f_equal.
    apply IH. apply list_lookup_insert_eq. eapply lookup_lt_Some, Hg.
  - destruct (h !! c) as [b|] eqn:Hc.
    + destruct (mulberry32_next b) as [b' y].
      unfold outputs_of. cbn [List.filter fst].
      destruct (Nat.eqb_spec c g) as [->|_]; [congruence|].
      apply (IH _ g a). rewrite list_lookup_insert_ne by congruence. exact Hg.
    + apply (IH _ g a Hg).
Qed.

Lemma gen_run_range (calls : list nat) :
  forall h : gen_store, List.Forall in_unit (List.map snd (gen_run calls h)).
Proof.
  induction calls as [|c calls IH]; intros h; [constructor|].
  cbn [gen_run]. unfold gen_call.
  destruct (h !! c) as [b|]; [|apply IH].
  pose proof (mulberry32_next_range b) as Hr.
  destruct (mulberry32_next b) as [b' y].
  cbn [List.map snd]. constructor; [exact Hr | apply IH].
Qed.

Example mulberry32_seed_12345 :
  List.map Qnum (mulberry32_take 3 (Fin (inject_Z 12345)))
  = [4207900869; 1317490944; 2079646450].
Proof. vm_compute. reflexivity. Qed.

(** C7: two closures made by [mulberry32] from one 32-bit seed, called in
    any order among any other calls, return the same first [N] numbers,
    those of the seed's stream, and every number returned lies in [0, 1). *)
Theorem mulberry32_same_seed
  (seed : Z) (h : gen_store) (calls : list nat) (N : nat) :
  - 2 ^ 31 <= seed < 2 ^ 32 ->
  let c1 := mulberry32 (Fin (inject_Z seed)) h in
  let c2 := mulberry32 (Fin (inject_Z seed)) (snd c1) in
  let out := gen_run calls (snd c2) in
  (N <= count_calls (fst c1) calls)%nat ->
  (N <= count_calls (fst c2) calls)%nat ->
  List.firstn N (outputs_of (fst c1) out)
  = List.firstn N (outputs_of (fst c2) out)
  /\ List.firstn N (outputs_of (fst c1) out)
     = mulberry32_take N (Fin (inject_Z seed))
  /\ List.Forall in_unit (List.map snd out).
Proof.
  intros _ c1 c2 out H1 H2.
  assert (L1 : snd c2 !! fst c1 = Some (Fin (inject_Z seed))).
  { unfold c2, c1, mulberry32. cbn [fst snd].
    rewrite lookup_app_l by (rewrite length_app; simpl; lia).
    rewrite lookup_app_r by lia. now rewrite Nat.sub_diag. }
  assert (L2 : snd c2 !! fst c2 = Some (Fin (inject_Z seed))).
  { unfold c2, c1, mulberry32. cbn [fst snd].
    rewrite lookup_app_r by lia. now rewrite Nat.sub_diag. }
  unfold out.
  rewrite (gen_run_outputs calls _ _ _ L1), (gen_run_outputs calls _ _ _ L2).
  rewrite !mulberry32_take_firstn by assumption.
  split; [reflexivity|]. split; [reflexivity | apply gen_run_range].
Qed.

Lemma mulberry32_same_seed_witness :
  let c1 := mulberry32 (Fin (inject_Z 7)) [] in
  let c2 := mulberry32 (Fin (inject_Z 7)) (snd c1) in
  let out := gen_run [0; 1; 1; 0; 5; 0; 1]%nat (snd c2) in
  List.firstn 3 (outputs_of (fst c1) out)
  = List.firstn 3 (outputs_of (fst c2) out)
  /\ List.firstn 3 (outputs_of (fst c1) out)
     = mulberry32_take 3 (Fin (inject_Z 7))
  /\ List.Forall in_unit (List.map snd out).
Proof.
  apply (mulberry32_same_seed 7 [] [0; 1; 1; 0; 5; 0; 1]%nat 3).
  - split; [discriminate | reflexivity].
  - vm_compute. lia.
  - vm_compute. lia.
Defined.

(** ** The game actions *)

Lemma skipn_app_exact {A} (l r : list A) :
  List.skipn (List.length l) (l ++ r)%list = r.
Proof. induction l as [|x l IH]; [reflexivity | exact IH]. Qed.

Lemma skipn_length_self {A} (l : list A) : List.skipn (List.length l) l = [].
Proof. induction l as [|x l IH]; [reflexivity | exact IH]. Qed.

Lemma encodeLogAction_intent (i : Intent) :
  exists data, encodeLogAction (intent_tag i) None = Ok data.
Proof. destruct i; vm_compute; eexists; reflexivity. Qed.

Lemma game_contract_ok : isLikelyAddress GAME_CONTRACT = true.
Proof. reflexivity. Qed.

Lemma tx_catch_run (message : string) (e : Env) (w : World) :
  exists t, tx_catch message e w = (false, emit (EToast t) w).
Proof.
  unfold tx_catch.
  destruct (includes "user rejected" (Str.toLowerCase message)
            || includes "rejected" (Str.toLowerCase message));
    eexists; reflexivity.
Qed.

Ltac trace_shape :=
  unfold emit;
  cbn [account local friendAddress friendHue localStorage trace
       clock_reads wallet_uses];
  rewrite <- ?List.app_assoc; cbn [List.app];
  first [ reflexivity
        | rewrite <- (List.app_nil_r (A := Event)) at 1; reflexivity
        | rewrite List.app_nil_r; reflexivity ].

Ltac catch_step :=
  match goal with
  | |- context [tx_catch ?m ?e ?w0] =>
      let t := fresh "t" in destruct (tx_catch_run m e w0) as [t ->]
  end.

Ltac tx_finish i :=
  eexists; split;
  [trace_shape | first [reflexivity | destruct i; reflexivity]].

(* The requests of [sendGameTx] once the chain is accepted. *)
Ltac tx_tail i aa ba sa :=
  let bal := fresh "bal" in
  destruct aa as [?from|?m]; cbn [is_ok andb];
  [ destruct ba as [bal|?m]; cbn [andb];
    [ destruct (Z.leb_spec bal 0);
      [ replace (0 <? bal) with false by (symmetry; apply Z.ltb_ge; lia);
        tx_finish i
      | replace (0 <? bal) with true by (symmetry; apply Z.ltb_lt; lia);
        unfold walletSendCalls; destruct sa as [[]|?m]; cbn [is_ok andb];
        [ tx_finish i | catch_step; tx_finish i ] ]
    | catch_step; tx_finish i ]
  | catch_step; tx_finish i ].

(** [sendGameTx] answers whether the provider confirmed; it commits
    nothing (its effects are toasts, updates of the chain id shown, the
    switch request and at most one call request), and counts one use of the
    wallet. *)
Lemma sendGameTx_run (i : Intent) (e : Env)
  (acc : string) (loc : LocalState) (fa : string) (fh : option num)
  (ls : gmap string stored) (tr : list Event) (cr wu : nat) :
  exists evs,
    sendGameTx i e (mkWorld acc loc fa fh ls tr cr wu)
    = (tx_confirms (wallet e wu),
       mkWorld acc loc fa fh ls (tr ++ evs)%list cr (S wu))
    /\ List.existsb is_commit evs = false.
Proof.
  unfold sendGameTx, bind, next_wallet, tx_confirms.
  cbn [account local friendAddress friendHue localStorage trace
       clock_reads wallet_uses].
  rewrite game_contract_ok. cbn [negb].
  destruct (wallet e wu) as [hp ca aa ba sa].
  cbn [has_provider chain_answer accounts_answer balance_answer
       sendCalls_answer].
  destruct hp; cbn [negb andb];
    [|exists [EToast "No wallet provider found."]; split;
      [unfold toast_show, ret; trace_shape | reflexivity]].
  destruct (encodeLogAction_intent i) as [data ->].
  destruct ca as [| |after|asked m];
    unfold ensureBase, setChainId, switchToBase, toast_show, ret, bind;
    cbn [negb andb].
  - tx_tail i aa ba sa.
  - tx_tail i aa ba sa.
  - destruct (String.eqb after BASE_MAINNET); cbn [negb andb].
    + tx_tail i aa ba sa.
    + eexists. split; [trace_shape | reflexivity].
  - destruct asked; eexists; (split; [trace_shape | reflexivity]).
Qed.

Ltac world_eq :=
  unfold bump, commit, with_hue, commit_events, emit;
  cbn [account local friendAddress friendHue localStorage trace
       clock_reads wallet_uses List.app];
  rewrite <- ?List.app_assoc, ?Nat.add_assoc; cbn [List.app]; reflexivity.

Ltac run_send i :=
  match goal with
  | |- context [sendGameTx i ?e (mkWorld ?a ?l ?fa ?fh ?ls ?tr ?cr ?wu)] =>
      let evs := fresh "evs" in
      let Heq := fresh "Heq" in
      let Hnc := fresh "Hnc" in
      destruct (sendGameTx_run i e a l fa fh ls tr cr wu)
        as (evs & Heq & Hnc);
      rewrite Heq; exists evs; split; [exact Hnc|];
      destruct (tx_confirms (wallet e wu)); cbn [negb]
  end.

Ltac open_action :=
  cbv beta iota zeta delta
    [exec bind get_world nowMs toast_show setLocal save refreshSignals
     setFriendHue ret emit account local friendAddress friendHue
     localStorage trace clock_reads wallet_uses fst snd].

(** The clock-reading functions return the value at the next reading and
    count the readings they take. *)
Lemma hoursSince_run (ts : option Z) (e : Env)
  (acc : string) (loc : LocalState) (fa : string) (fh : option num)
  (ls : gmap string stored) (tr : list Event) (cr wu : nat) :
  hoursSince ts e (mkWorld acc loc fa fh ls tr cr wu)
  = (hours_at (clock e cr) ts,
     mkWorld acc loc fa fh ls tr (reads_of ts + cr) wu).
Proof.
  unfold hoursSince, hours_at, reads_of.
  destruct (falsy_ts ts); reflexivity.
Qed.

Lemma canWater_run (st : LocalState) (e : Env)
  (acc : string) (loc : LocalState) (fa : string) (fh : option num)
  (ls : gmap string stored) (tr : list Event) (cr wu : nat) :
  canWater st e (mkWorld acc loc fa fh ls tr cr wu)
  = (canWater_at (clock e cr) st,
     mkWorld acc loc fa fh ls tr (reads_of (lastWateredAt st) + cr) wu).
Proof.
  unfold canWater, bind. rewrite hoursSince_run. reflexivity.
Qed.

Lemma computeMissedStreak_run (st : LocalState) (e : Env)
  (acc : string) (loc : LocalState) (fa : string) (fh : option num)
  (ls : gmap string stored) (tr : list Event) (cr wu : nat) :
  exists missed k,
    computeMissedStreak st e (mkWorld acc loc fa fh ls tr cr wu)
    = (missed, mkWorld acc loc fa fh ls tr (k + cr) wu)
    /\ 0 <= missed <= 30.
Proof.
  unfold computeMissedStreak, daysSince.
  destruct (falsy_ts (lastWateredAt st)).
  - exists 0, O. split; [reflexivity | lia].
  - eexists _, 1%nat. split; [reflexivity|].
    unfold clamp_streak, Math_floor, clampZ. lia.
Qed.

Lemma water_button_disabled_run (e : Env)
  (acc : string) (loc : LocalState) (fa : string) (fh : option num)
  (ls : gmap string stored) (tr : list Event) (cr wu : nat) :
  let w := mkWorld acc loc fa fh ls tr cr wu in
  exists d k,
    water_button_disabled w e w = (d, mkWorld acc loc fa fh ls tr (k + cr) wu)
    /\ (withered_of loc = true -> d = true).
Proof.
  cbv zeta. unfold water_button_disabled. cbn [account local].
  destruct (String.eqb acc "").
  - exists true, O. split; [reflexivity | reflexivity].
  - destruct (planted_of loc); unfold bind, ret.
    + rewrite canWater_run. eexists _, _. split; [reflexivity|].
      intros ->. apply orb_true_r.
    + exists (false || withered_of loc), O. split; [reflexivity|].
      intros ->. reflexivity.
Qed.

(** The runs of [water], one case per exit. *)
Lemma water_run (e : Env) (w : World) :
  let g := reads_of (lastWateredAt (local w)) in
  let t0 := clock e (clock_reads w) in
  let t1 := clock e (g + clock_reads w) in
  exists evs,
    List.existsb is_commit evs = false
    /\ exec water e w
       = if String.eqb (account w) "" then
           bump [EToast "Connect your wallet first."] 0 0 w
         else if negb (planted_of (local w)) then
           bump [EToast "Plant your seed first."] 0 0 w
         else if negb (canWater_at t0 (local w)) then
           bump [EToast ("Water is ready in ~"
                         ++ toFixed1
                              (num_max (Fin 0%Q)
                                 (num_sub (Fin 24%Q)
                                    (hours_at t1 (lastWateredAt (local w)))))
                         ++ "h.")] (g + g) 0 w
         else if tx_confirms (wallet e (wallet_uses w)) then
           bump (evs ++ commit_events w (watered (local w) t1) true
                          "Watered. A new branch appears.") (S g) 1
             (commit (watered (local w) t1) w)
         else bump evs g 1 w.
Proof.
  destruct w as [acc loc fa fh ls tr cr wu]. cbv zeta.
  unfold water. open_action.
  destruct (String.eqb acc ""); [exists []; split; [reflexivity | world_eq]|].
  destruct (planted_of loc); cbn [negb];
    [|exists []; split; [reflexivity | world_eq]].
  rewrite canWater_run.
  destruct (canWater_at (clock e cr) loc); cbn [negb].
  - run_send IWater; open_action; world_eq.
  - rewrite hoursSince_run. exists []. split; [reflexivity | world_eq].
Qed.

Lemma plant_run (e : Env) (w : World) :
  let t1 := clock e (clock_reads w) in
  let t2 := clock e (S (clock_reads w)) in
  let next := {| plantedAt := Some t1; growth := 1;
                 lastWateredAt := Some t2; missedStreak := 0;
                 revivedAt := None; lastGraftedAt := None |} in
  exists evs,
    List.existsb is_commit evs = false
    /\ exec plant e w
       = if String.eqb (account w) "" then
           bump [EToast "Connect your wallet first."] 0 0 w
         else if planted_of (local w) then
           bump [EToast "Already planted."] 0 0 w
         else if tx_confirms (wallet e (wallet_uses w)) then
           bump (evs ++ commit_events w next true
                          "Seed planted. Welcome to your bonsai.") 2 1
             (commit next w)
         else bump evs 0 1 w.
Proof.
  destruct w as [acc loc fa fh ls tr cr wu]. cbv zeta.
  unfold plant. open_action.
  destruct (String.eqb acc ""); [exists []; split; [reflexivity | world_eq]|].
  destruct (planted_of loc); cbn [negb];
    [exists []; split; [reflexivity | world_eq]|].
  run_send IPlant; open_action; world_eq.
Qed.

Lemma revive_run (e : Env) (w : World) :
  let t1 := clock e (clock_reads w) in
  let t2 := clock e (S (clock_reads w)) in
  let st := local w in
  let next := {| plantedAt := plantedAt st; growth := growth st;
                 lastWateredAt := Some t2; missedStreak := 0;
                 revivedAt := Some t1;
                 lastGraftedAt := lastGraftedAt st |} in
  exists evs,
    List.existsb is_commit evs = false
    /\ exec revive e w
       = if String.eqb (account w) "" then
           bump [EToast "Connect your wallet first."] 0 0 w
         else if negb (planted_of (local w)) then
           bump [EToast "Plant your seed first."] 0 0 w
         else if missedStreak (local w) <? 3 then
           bump [EToast "Your bonsai isn't withered yet."] 0 0 w
         else if tx_confirms (wallet e (wallet_uses w)) then
           bump (evs ++ commit_events w next true
                          "Revived. Ink returns to life.") 2 1
             (commit next w)
         else bump evs 0 1 w.
Proof.
  destruct w as [acc loc fa fh ls tr cr wu]. cbv zeta.
  unfold revive. open_action.
  destruct (String.eqb acc ""); [exists []; split; [reflexivity | world_eq]|].
  destruct (planted_of loc); cbn [negb];
    [|exists []; split; [reflexivity | world_eq]].
  destruct (missedStreak loc <? 3);
    [exists []; split; [reflexivity | world_eq]|].
  run_send IRevive; open_action; world_eq.
Qed.

Lemma graft_run (e : Env) (w : World) :
  let addr := Str.trim (friendAddress w) in
  let now := clock e (clock_reads w) in
  let st := local w in
  let next := {| plantedAt := plantedAt st; growth := growth st;
                 lastWateredAt := lastWateredAt st;
                 missedStreak := missedStreak st;
                 revivedAt := revivedAt st;
                 lastGraftedAt := Some now |} in
  exists evs,
    List.existsb is_commit evs = false
    /\ exec graft e w
       = if String.eqb (account w) "" then
           bump [EToast "Connect your wallet first."] 0 0 w
         else if negb (planted_of (local w)) then
           bump [EToast "Plant your seed first."] 0 0 w
         else if negb (isLikelyAddress addr) then
           bump [EToast "Enter a valid friend's address (0x...)."] 0 0 w
         else if tx_confirms (wallet e (wallet_uses w)) then
           bump (ESetFriendHue (hue_of addr)
                 :: evs ++ commit_events w next false
                             "Grafted. A flower blooms (your color).") 1 1
             (commit next (with_hue (hue_of addr) w))
         else bump (ESetFriendHue (hue_of addr) :: evs) 0 1
                (with_hue (hue_of addr) w).
Proof.
  destruct w as [acc loc fa fh ls tr cr wu]. cbv zeta.
  unfold graft. open_action.
  destruct (String.eqb acc ""); [exists []; split; [reflexivity | world_eq]|].
  destruct (planted_of loc); cbn [negb];
    [|exists []; split; [reflexivity | world_eq]].
  destruct (isLikelyAddress (Str.trim fa)); cbn [negb];
    [|exists []; split; [reflexivity | world_eq]].
  run_send IGraft; open_action; world_eq.
Qed.

Lemma canWater_false (now : Z) (st : LocalState) :
  canWater_at now st = false
  <-> exists ts, lastWateredAt st = Some ts /\ ts <> 0
                 /\ now - ts < 3600000.
Proof.
  unfold canWater_at, hours_at, falsy_ts.
  destruct (lastWateredAt st) as [ts|]; cbn [default from_option id].
  - destruct (Z.eqb_spec ts 0) as [->|Hnz].
    + split; [discriminate | intros (ts & [= <-] & Hts & _); congruence].
    + unfold num_ge. destruct (Qlt_le_dec _ _) as [Hlt|Hle].
      * split; [|reflexivity]. intros _. exists ts.
        split; [reflexivity|]. split; [exact Hnz|].
        destruct (Z.lt_ge_cases (now - ts) 3600000) as [H|H]; [exact H|].
        apply hours_ge_one in H. exfalso. exact (Qlt_not_le _ _ Hlt H).
      * split; [discriminate|]. intros (ts' & [= <-] & _ & Hlt).
        apply hours_ge_one in Hle. lia.
  - split; [discriminate | intros (ts & [=] & _)].
Qed.

Lemma events_of_bump {A} (m : M A) (e : Env) (w w0 : World)
  (evs : list Event) (k u : nat) :
  exec m e w = bump evs k u w0 -> trace w0 = trace w ->
  events_of m e w = evs.
Proof.
  intros H Ht. unfold events_of. rewrite H. unfold bump. cbn [trace].
  rewrite Ht. apply skipn_app_exact.
Qed.

Lemma existsb_commit_events (evs : list Event) (w : World)
  (st : LocalState) (r : bool) (msg : string) :
  List.existsb is_commit (evs ++ commit_events w st r msg) = true.
Proof.
  rewrite List.existsb_app. unfold commit_events. cbn [List.app List.existsb is_commit].
  apply orb_true_r.
Qed.

Example water_cooldown_message :
  let e := {| clock := fun _ => 1800000 + 1700000000000;
              wallet := fun _ => mkWallet false OnMainnet (Throw "")
                                   (Throw "") (Throw "") |} in
  let st := {| plantedAt := Some 1700000000000; growth := 1;
               lastWateredAt := Some 1700000000000; missedStreak := 0;
               revivedAt := None; lastGraftedAt := None |} in
  let w := mkWorld "0x5eC6AF0798b25C563B102d3469971f1a8d598121" st ""
             None ∅ [] 0 0 in
  trace (exec water e w) = [EToast "Water is ready in ~23.5h."].
Proof. vm_compute. reflexivity. Qed.

(** The wait shown is the binary64 value of [24 - h], not the exact one:
    three minutes after a watering the exact difference would print as
    24.0. *)
Example water_cooldown_rounded :
  let e := {| clock := fun _ => 180000 + 1700000000000;
              wallet := fun _ => mkWallet false OnMainnet (Throw "")
                                   (Throw "") (Throw "") |} in
  let st := {| plantedAt := Some 1700000000000; growth := 1;
               lastWateredAt := Some 1700000000000; missedStreak := 0;
               revivedAt := None; lastGraftedAt := None |} in
  let w := mkWorld "0x5eC6AF0798b25C563B102d3469971f1a8d598121" st ""
             None ∅ [] 0 0 in
  trace (exec water e w) = [EToast "Water is ready in ~23.9h."]
  /\ toFixed1 (Fin (24 - (180000 # 3600000))%Q) = "24.0".
Proof. vm_compute. split; reflexivity. Qed.



(** ** The invariant of the game state *)

Lemma state_of_json_of_state (st : LocalState) :
  state_of_json (json_of_state st) = Ok st.
Proof.
  destruct st as [[p|] g [l|] m [r|] [f|]]; vm_compute; reflexivity.
Qed.

Lemma loadState_saveState (addr acc : string) (st : LocalState)
  (ls : gmap string stored) :
  loadState addr (saveState acc st ls)
  = if decide (lsKey acc = lsKey addr) then st else loadState addr ls.
Proof.
  unfold loadState, saveState. rewrite lookup_insert.
  destruct (decide (lsKey acc = lsKey addr)); [|reflexivity].
  now rewrite state_of_json_of_state.
Qed.

Lemma world_ok_bump (evs : list Event) (k u : nat) (w : World) :
  world_ok w -> world_ok (bump evs k u w).
Proof. intros H. exact H. Qed.

Lemma world_ok_with_hue (hue : num) (w : World) :
  world_ok w -> world_ok (with_hue hue w).
Proof. intros H. exact H. Qed.

Lemma world_ok_commit (st : LocalState) (w : World) :
  planted_grown st -> world_ok w -> world_ok (commit st w).
Proof.
  intros Hst [_ Hls]. split; [exact Hst|]. intros addr.
  unfold commit. cbn [localStorage]. rewrite loadState_saveState.
  destruct (decide _); [exact Hst | apply Hls].
Qed.

Lemma planted_grown_watered (st : LocalState) (now : Z) :
  planted_grown st -> planted_grown (watered st now).
Proof.
  unfold planted_grown, watered, set_growth_watered. cbn [plantedAt growth].
  intros H Hp. specialize (H Hp). destruct (Z.eqb_spec (growth st) 0); lia.
Qed.

Lemma water_ok (e : Env) (w : World) : world_ok w -> world_ok (exec water e w).
Proof.
  intros Hw. destruct (water_run e w) as (evs & _ & ->). cbv zeta.
  repeat match goal with |- world_ok (if ?c then _ else _) => destruct c end;
    try (apply world_ok_bump; exact Hw).
  apply world_ok_bump, world_ok_commit; [|exact Hw].
  apply planted_grown_watered, Hw.
Qed.

Lemma plant_ok (e : Env) (w : World) : world_ok w -> world_ok (exec plant e w).
Proof.
  intros Hw. destruct (plant_run e w) as (evs & _ & ->). cbv zeta.
  repeat match goal with |- world_ok (if ?c then _ else _) => destruct c end;
    try (apply world_ok_bump; exact Hw).
  apply world_ok_bump, world_ok_commit; [|exact Hw].
  intros _. cbn [growth]. lia.
Qed.

Lemma revive_ok (e : Env) (w : World) :
  world_ok w -> world_ok (exec revive e w).
Proof.
  intros Hw. destruct (revive_run e w) as (evs & _ & ->). cbv zeta.
  repeat match goal with |- world_ok (if ?c then _ else _) => destruct c end;
    try (apply world_ok_bump; exact Hw).
  apply world_ok_bump, world_ok_commit; [|exact Hw]. exact (proj1 Hw).
Qed.

Lemma graft_ok (e : Env) (w : World) : world_ok w -> world_ok (exec graft e w).
Proof.
  intros Hw. destruct (graft_run e w) as (evs & _ & ->). cbv zeta.
  repeat match goal with |- world_ok (if ?c then _ else _) => destruct c end;
    try (apply world_ok_bump; exact Hw).
  apply world_ok_bump, world_ok_commit; [exact (proj1 Hw)|].
  apply world_ok_with_hue, Hw.
Qed.

Lemma on_account_ok (e : Env) (w : World) :
  world_ok w -> world_ok (exec on_account e w).
Proof.
  intros Hw. destruct w as [acc loc fa fh ls tr cr wu].
  unfold on_account. open_action.
  destruct (String.eqb acc ""); [exact Hw|].
  destruct (computeMissedStreak_run (loadState acc ls) e acc loc fa fh ls tr
              cr wu) as (missed & k & -> & _).
  open_action.
  destruct Hw as [_ Hls]. cbn [localStorage] in Hls.
  assert (Hm : planted_grown
                 {| plantedAt := plantedAt (loadState acc ls);
                    growth := growth (loadState acc ls);
                    lastWateredAt := lastWateredAt (loadState acc ls);
                    missedStreak := missed;
                    revivedAt := revivedAt (loadState acc ls);
                    lastGraftedAt := lastGraftedAt (loadState acc ls) |})
    by exact (Hls acc).
  split; [exact Hm|]. intros addr. cbn [localStorage].
  rewrite loadState_saveState. destruct (decide _); [exact Hm | apply Hls].
Qed.

Lemma run_action_ok (a : Action) (e : Env) (w : World) :
  world_ok w -> world_ok (exec (run_action a) e w).
Proof.
  intros Hw. destruct a; cbn [run_action].
  - now apply plant_ok.
  - now apply water_ok.
  - now apply revive_ok.
  - now apply graft_ok.
  - destruct w as [acc loc fa fh ls tr cr wu].
    unfold main_button_click, exec, bind, get_world.
    destruct (water_button_disabled_run e acc loc fa fh ls tr cr wu)
      as (d & k & Hd & _).
    cbv zeta in Hd. rewrite Hd. cbn [local].
    destruct d; [exact Hw|].
    destruct (planted_of loc); [apply water_ok | apply plant_ok]; exact Hw.
  - unfold connect_as, exec.
    destruct (String.eqb addr (account w)); [exact Hw|].
    apply (on_account_ok e). exact Hw.
  - split; [intros H; now contradiction H | exact (proj2 Hw)].
  - exact Hw.
Qed.

Lemma run_actions_ok (acts : list Action) (e : Env) :
  forall w, world_ok w -> world_ok (run_actions acts e w).
Proof.
  induction acts as [|a acts IH]; intros w Hw; [exact Hw|].
  cbn [run_actions]. apply IH, run_action_ok, Hw.
Qed.

Lemma initial_world_ok : world_ok initial_world.
Proof.
  split; [intros H; now contradiction H|].
  intros addr H. contradiction H. unfold loadState.
  cbn [initial_world localStorage]. now rewrite lookup_empty.
Qed.

Example loadState_partial_record :
  loadState "0xabc"
    {[ lsKey "0xabc" := Parsed (JObj [("plantedAt", JNum 5)]) ]}
  = {| plantedAt := Some 5; growth := 0; lastWateredAt := None;
       missedStreak := 0; revivedAt := None; lastGraftedAt := None |}.
Proof. vm_compute. reflexivity. Qed.

(** C3 as stated fails for [loadState]: from a stored record that has a
    [plantedAt] and no [growth] it returns a planted state of growth 0. *)
Lemma loadState_unchecked :
  ~ planted_grown
      (loadState "0xabc"
         {[ lsKey "0xabc" := Parsed (JObj [("plantedAt", JNum 5)]) ]}).
Proof.
  rewrite loadState_partial_record. unfold planted_grown.
  cbn [plantedAt growth]. intros H.
  assert (1 <= 0) by (apply H; discriminate). lia.
Qed.

(** C3, amended: [plant] commits a planted state of growth 1; every action
    (the four game actions, the main button, a connection, a reload,
    typing) keeps
    the invariant on the component's state and on every record of the
    store; so it holds in every world reached from the empty store, and
    [loadState] gives back, unchecked, the record [saveState] wrote. *)
Theorem planted_grown_invariant :
  (forall e w, committed plant e w = true ->
               plantedAt (local (exec plant e w)) <> None
               /\ growth (local (exec plant e w)) = 1)
  /\ (forall a e w, world_ok w -> world_ok (exec (run_action a) e w))
  /\ (forall w, reachable w -> world_ok w)
  /\ (forall addr st ls, loadState addr (saveState addr st ls) = st).
Proof.
  split; [|split; [|split]].
  - intros e w Hc. destruct (plant_run e w) as (evs & Hnc & Hrun).
    cbv zeta in Hrun. unfold committed in Hc.
    destruct (String.eqb (account w) "");
      [rewrite (events_of_bump _ _ _ _ _ _ _ Hrun eq_refl) in Hc;
       discriminate|].
    destruct (planted_of (local w));
      [rewrite (events_of_bump _ _ _ _ _ _ _ Hrun eq_refl) in Hc;
       discriminate|].
    destruct (tx_confirms _).
    + rewrite Hrun. cbn [bump commit local plantedAt growth].
      split; [discriminate | reflexivity].
    + rewrite (events_of_bump _ _ _ _ _ _ _ Hrun eq_refl), Hnc in Hc.
      discriminate.
  - intros a e w. apply run_action_ok.
  - intros w (e & acts & ->). apply run_actions_ok, initial_world_ok.
  - intros addr st ls. rewrite loadState_saveState.
    destruct (decide _); [reflexivity | congruence].
Qed.

Lemma planted_grown_invariant_witness :
  let a := "0x5eC6AF0798b25C563B102d3469971f1a8d598121" in
  let e := {| clock := fun n => 1700000000000 + Z.of_nat n;
              wallet := fun _ => mkWallet true OnMainnet (Ok a) (Ok 1000)
                                   (Ok tt) |} in
  let w := run_actions [AConnect a] e initial_world in
  growth (local (exec plant e w)) = 1
  /\ world_ok (run_actions [APlant; AWater; AGraft] e w).
Proof.
  cbv zeta. destruct planted_grown_invariant as (Hplant & _ & Hreach & _).
  split.
  - refine (proj2 (Hplant _ _ _)). vm_compute. reflexivity.
  - apply Hreach. eexists _, [AConnect _; APlant; AWater; AGraft].
    cbn [run_actions]. reflexivity.
Defined.

(** ** The watering gate *)


(** The button that calls [water] is disabled on a withered tree: a click
    changes nothing but the count of clock readings. *)
Lemma main_button_withered (e : Env) (w : World) :
  withered_of (local w) = true ->
  exists k, exec main_button_click e w = bump [] k 0 w.
Proof.
  intros Hw. destruct w as [acc loc fa fh ls tr cr wu].
  unfold main_button_click, exec, bind, get_world.
  destruct (water_button_disabled_run e acc loc fa fh ls tr cr wu)
    as (d & k & Hd & Hdis).
  cbv zeta in Hd. rewrite Hd. cbn [local] in Hw. rewrite (Hdis Hw).
  exists k. unfold bump, ret.
  cbn [snd account local friendAddress friendHue localStorage trace
       clock_reads wallet_uses].
  now rewrite List.app_nil_r.
Qed.

Lemma main_button_run (e : Env) (w : World) :
  exec main_button_click e w
  = if String.eqb (account w) "" then w
    else if planted_of (local w) then
      if negb (canWater_at (clock e (clock_reads w)) (local w))
         || withered_of (local w)
      then tick (reads_of (lastWateredAt (local w))) w
      else exec water e (tick (reads_of (lastWateredAt (local w))) w)
    else if withered_of (local w) then w else exec plant e w.
Proof.
  destruct w as [acc loc fa fh ls tr cr wu].
  unfold main_button_click, water_button_disabled, exec, bind, get_world, tick.
  cbn [account local friendAddress friendHue localStorage trace clock_reads
       wallet_uses].
  destruct (String.eqb acc ""); [reflexivity|].
  destruct (planted_of loc).
  - rewrite canWater_run. unfold ret.
    destruct (negb (canWater_at (clock e cr) loc) || withered_of loc);
      reflexivity.
  - unfold ret. cbn [orb]. destruct (withered_of loc); reflexivity.
Qed.










(** ** Grafting *)



(** ** The renderer: depth and termination *)

Lemma maxDepth_of_formula (g : Z) :
  maxDepth_of (inject_Z g) = Z.max 3 (Z.min 10 (3 + (2 * g) / 3)).
Proof.
  unfold maxDepth_of, clampZ. do 3 f_equal.
  unfold Qfloor, Qdiv, Qmult, Qinv, inject_Z. cbn [Qnum Qden].
  change (Z.pos (1 * 15)) with 15.
  Z.div_mod_to_equations. lia.
Qed.

Lemma maxDepth_of_range (g : Q) : 3 <= maxDepth_of g <= 10.
Proof. unfold maxDepth_of, clampZ. lia. Qed.

Lemma depths_app (l1 l2 : list Shape) :
  depths (l1 ++ l2) = (depths l1 ++ depths l2)%list.
Proof.
  induction l1 as [|x l1 IH]; [reflexivity|].
  destruct x; cbn [List.app depths]; now rewrite IH.
Qed.

Lemma topology_paint (s : RState) (m : Mark) :
  topology {| rng := rng s; random_ix := random_ix s;
              marks := (marks s ++ [m])%list; seeded := seeded s |}
  = (topology s ++ [shape_of m])%list.
Proof. unfold topology. cbn [marks]. now rewrite List.map_app. Qed.

Section Keeps.

Variable D : Z.

Lemma keeps_ret {A} (a : A) : keeps (depths_ok D) (rret a).
Proof. intros s Hs. exists a, s. split; [reflexivity | exact Hs]. Qed.

Lemma keeps_bind {A B} (m : R A) (k : A -> R B) :
  keeps (depths_ok D) m -> (forall a, keeps (depths_ok D) (k a)) ->
  keeps (depths_ok D) (rbind m k).
Proof.
  intros Hm Hk s Hs. destruct (Hm s Hs) as (a & s' & Heq & Hs').
  destruct (Hk a s' Hs') as (b & s'' & Heq' & Hs'').
  exists b, s''. unfold rbind. rewrite Heq. split; assumption.
Qed.

Lemma keeps_rng_call : keeps (depths_ok D) rng_call.
Proof.
  intros s Hs. unfold rng_call. destruct (mulberry32_next (rng s)) as [a' x].
  eexists _, _. split; [reflexivity | exact Hs].
Qed.

Lemma keeps_rng_reset (a : num) : keeps (depths_ok D) (rng_reset a).
Proof. intros s Hs. eexists _, _. split; [reflexivity | exact Hs]. Qed.

Lemma keeps_random_call (rnd : nat -> Q) : keeps (depths_ok D) (random_call rnd).
Proof. intros s Hs. eexists _, _. split; [reflexivity | exact Hs]. Qed.

Lemma keeps_paint (m : Mark) :
  List.Forall (fun d => 1 <= d <= D) (depths [shape_of m]) ->
  keeps (depths_ok D) (paint m).
Proof.
  intros Hm s Hs. eexists _, _. split; [reflexivity|].
  unfold depths_ok. rewrite topology_paint, depths_app.
  apply List.Forall_app. split; assumption.
Qed.

Lemma keeps_for_loop (n : nat) (body : Z -> R unit) :
  (forall i, keeps (depths_ok D) (body i)) ->
  forall start, keeps (depths_ok D) (for_loop n start body).
Proof.
  intros Hb. induction n as [|n IH]; intros start; cbn [for_loop].
  - apply keeps_ret.
  - apply keeps_bind; [apply Hb | intros _; apply IH].
Qed.

End Keeps.

Lemma keeps_drawInkStroke (D : Z) (rnd : nat -> Q)
  (x1 y1 x2 y2 w alpha gray : Q) :
  keeps (depths_ok D) (drawInkStroke rnd x1 y1 x2 y2 w alpha gray).
Proof.
  unfold drawInkStroke.
  apply keeps_bind; [apply keeps_random_call | intros r1].
  apply keeps_bind; [apply keeps_random_call | intros r2].
  apply keeps_paint. constructor.
Qed.

Lemma keeps_drawLeaf (D : Z) (pi : Q) (rnd : nat -> Q)
  (x y s ink wi : Q) :
  keeps (depths_ok D) (drawLeaf pi rnd x y s ink wi).
Proof.
  unfold drawLeaf.
  apply keeps_bind; [apply keeps_random_call | intros r].
  apply keeps_paint. constructor.
Qed.

(* One step of a proof of [keeps], chosen by the head of the painting
   step; [rec] closes the frames of [branch]. *)
Ltac keeps_step rec :=
  cbv beta zeta;
  lazymatch goal with
  | |- keeps _ (rret _) => apply keeps_ret
  | |- keeps _ rng_call => apply keeps_rng_call
  | |- keeps _ (rng_reset _) => apply keeps_rng_reset
  | |- keeps _ (random_call _) => apply keeps_random_call
  | |- keeps _ (drawInkStroke _ _ _ _ _ _ _ _) => apply keeps_drawInkStroke
  | |- keeps _ (drawLeaf _ _ _ _ _ _ _) => apply keeps_drawLeaf
  | |- keeps _ (drawBloom _ _ _ _) =>
      apply keeps_paint; cbn [shape_of depths]; constructor
  | |- keeps _ (branch _ _ _ _ _ _ _ _ _ _ _ _) => rec
  | |- keeps _ (for_loop _ _ _) => apply keeps_for_loop; intros ?
  | |- keeps _ (rbind _ _) => apply keeps_bind; [|intros ?]
  | |- keeps _ (if ?c then _ else _) => destruct c
  | |- keeps _ (match ?c with _ => _ end) => destruct c
  end.

Lemma keeps_leaves (D : Z) (pi : Q) (rnd : nat -> Q) (p : BonsaiParams)
  (ex ey : Q) (depth : Z) :
  keeps (depths_ok D) (leaves pi rnd p ex ey depth).
Proof. unfold leaves, leaf_body. repeat keeps_step fail. Qed.

(** A frame at a depth of [1..maxDepth], with a budget that covers the
    levels left, returns, and paints frames of [1..maxDepth] only. *)
Lemma keeps_branch (cos sin : Q -> Q) (pi : Q) (rnd : nat -> Q)
  (p : BonsaiParams) (fuel : nat) :
  forall (x y ang len thick : Q) (depth : Z),
    1 <= depth <= maxDepth p ->
    maxDepth p - depth < Z.of_nat fuel ->
    keeps (depths_ok (maxDepth p))
      (branch cos sin pi rnd p fuel x y ang len thick depth).
Proof.
  induction fuel as [|fuel IH]; intros x y ang len thick depth Hd Hf; [lia|].
  cbn [branch].
  apply keeps_bind; [apply keeps_paint; cbn [shape_of depths];
                     constructor; [exact Hd | constructor]|intros _].
  apply keeps_bind; [apply keeps_rng_call | intros r].
  apply keeps_bind; [apply keeps_drawInkStroke | intros _].
  apply keeps_bind; [apply keeps_leaves | intros _].
  destruct (Z.leb_spec (maxDepth p) depth) as [Hle|Hlt]; [apply keeps_ret|].
  assert (Hrec : forall x y ang len thick,
             keeps (depths_ok (maxDepth p))
               (branch cos sin pi rnd p fuel x y ang len thick (depth + 1)))
    by (intros; apply IH; lia).
  repeat keeps_step ltac:(apply Hrec).
Qed.

Lemma keeps_renderBonsai (cos sin : Q -> Q) (pi : Q) (rnd : nat -> Q)
  (w h : Q) (p : BonsaiParams) (fuel : nat) :
  (10 <= fuel)%nat ->
  keeps (depths_ok (maxDepth p)) (renderBonsai cos sin pi rnd w h p fuel).
Proof.
  intros Hfuel. pose proof (maxDepth_of_range (p_growth p)) as Hr.
  fold (maxDepth p) in Hr.
  assert (Hb : forall x y ang len thick,
             keeps (depths_ok (maxDepth p))
               (branch cos sin pi rnd p fuel x y ang len thick 1))
    by (intros; apply keeps_branch; lia).
  unfold renderBonsai, base_branches, trunk_body, falling_leaf.
  repeat keeps_step ltac:(apply Hb).
Qed.

(** The budget only cuts runs short: a larger one returns the same. *)
Lemma extends_refl {A} (m : R A) : extends m m.
Proof. intros s r H. exact H. Qed.

Lemma extends_bind {A B} (m1 m2 : R A) (k1 k2 : A -> R B) :
  extends m1 m2 -> (forall a, extends (k1 a) (k2 a)) ->
  extends (rbind m1 k1) (rbind m2 k2).
Proof.
  intros Hm Hk s r. unfold rbind.
  destruct (m1 s) as [[a s']|] eqn:E; [|discriminate].
  rewrite (Hm s _ E). apply Hk.
Qed.

Lemma extends_for_loop (n : nat) (b1 b2 : Z -> R unit) :
  (forall i, extends (b1 i) (b2 i)) ->
  forall start, extends (for_loop n start b1) (for_loop n start b2).
Proof.
  intros Hb. induction n as [|n IH]; intros start; cbn [for_loop].
  - apply extends_refl.
  - apply extends_bind; [apply Hb | intros _; apply IH].
Qed.

(* One step of a proof of [extends]: equal steps are closed, frames of
   [branch] are left to [rec]. *)
Ltac extends_step rec :=
  cbv beta zeta;
  lazymatch goal with
  | |- extends ?m1 ?m2 =>
      first
        [ constr_eq m1 m2; apply extends_refl
        | lazymatch m1 with
          | branch _ _ _ _ _ _ _ _ _ _ _ _ => rec
          | for_loop _ _ _ => apply extends_for_loop; intros ?
          | rbind _ _ => apply extends_bind; [|intros ?]
          | if ?c then _ else _ => destruct c
          end ]
  end.

Lemma branch_fuel_succ (cos sin : Q -> Q) (pi : Q) (rnd : nat -> Q)
  (p : BonsaiParams) (fuel : nat) :
  forall (x y ang len thick : Q) (depth : Z),
    extends (branch cos sin pi rnd p fuel x y ang len thick depth)
            (branch cos sin pi rnd p (S fuel) x y ang len thick depth).
Proof.
  induction fuel as [|fuel IH]; intros x y ang len thick depth.
  - intros s r H. discriminate H.
  - change (extends
              (branch cos sin pi rnd p (S fuel) x y ang len thick depth)
              (branch cos sin pi rnd p (S (S fuel)) x y ang len thick depth)).
    cbn [branch]. repeat extends_step ltac:(apply IH).
Qed.

Lemma branch_fuel_le (cos sin : Q -> Q) (pi : Q) (rnd : nat -> Q)
  (p : BonsaiParams) (fuel fuel' : nat) :
  (fuel <= fuel')%nat ->
  forall (x y ang len thick : Q) (depth : Z),
    extends (branch cos sin pi rnd p fuel x y ang len thick depth)
            (branch cos sin pi rnd p fuel' x y ang len thick depth).
Proof.
  induction 1 as [|fuel' _ IH]; intros x y ang len thick depth.
  - apply extends_refl.
  - intros s r H. apply branch_fuel_succ, IH, H.
Qed.

Lemma renderBonsai_fuel_le (cos sin : Q -> Q) (pi : Q) (rnd : nat -> Q)
  (w h : Q) (p : BonsaiParams) (fuel fuel' : nat) :
  (fuel <= fuel')%nat ->
  extends (renderBonsai cos sin pi rnd w h p fuel)
          (renderBonsai cos sin pi rnd w h p fuel').
Proof.
  intros Hle. unfold renderBonsai, base_branches.
  pose proof (branch_fuel_le cos sin pi rnd p fuel fuel' Hle) as IH.
  repeat extends_step ltac:(apply IH).
Qed.

Example maxDepth_of_values :
  List.map maxDepth_of [-4; 0; 1; 2; 2.5; 3; 9; 10; 11; 1000]%Q
  = [3; 3; 3; 4; 4; 5; 9; 9; 10; 10].
Proof. vm_compute. reflexivity. Qed.

(** C8: the maximum depth is [clamp(3 + floor(growth / 1.5), 3, 10)], a
    number between 3 and 10 whatever the growth; a render pass run with a
    budget of 10 levels or more returns, the budget is never what stops it
    (the pass of budget 10 returns the same painting), and every frame of
    [branch] it paints has a depth between 1 and the maximum depth. *)
Theorem branch_depth_bounded (cos sin : Q -> Q) (pi : Q) (rnd : nat -> Q)
  (w h : Q) (p : BonsaiParams) (ix fuel : nat) :
  (10 <= fuel)%nat ->
  maxDepth p = clampZ (3 + Qfloor (Qdiv (p_growth p) (15 # 10))) 3 10
  /\ 3 <= maxDepth p <= 10
  /\ exists s,
       renderBonsai cos sin pi rnd w h p fuel (blank_canvas ix) = Some (tt, s)
       /\ renderBonsai cos sin pi rnd w h p render_fuel (blank_canvas ix)
          = Some (tt, s)
       /\ List.Forall (fun d => 1 <= d <= maxDepth p) (depths (topology s)).
Proof.
  intros Hfuel. split; [reflexivity|].
  split; [apply maxDepth_of_range|].
  destruct (keeps_renderBonsai cos sin pi rnd w h p render_fuel
              ltac:(unfold render_fuel; lia) (blank_canvas ix))
    as ([] & s & Hrun & Hs); [constructor|].
  exists s. split; [|split; [exact Hrun | exact Hs]].
  apply (renderBonsai_fuel_le cos sin pi rnd w h p render_fuel fuel);
    [exact Hfuel | exact Hrun].
Qed.

Lemma branch_depth_bounded_witness :
  let p := {| seed := "0x5eC6AF0798b25C563B102d3469971f1a8d598121";
              richness := 0.5; activity := 0.5; p_growth := 2;
              health := 1; breeze := 0.25; p_friendHue := None |} in
  maxDepth p = 4
  /\ exists s,
       renderBonsai (fun _ => 0%Q) (fun _ => 1%Q) 3 (fun _ => 0.5%Q)
         300 300 p 12 (blank_canvas 0) = Some (tt, s)
       /\ List.Forall (fun d => 1 <= d <= 4) (depths (topology s)).
Proof.
  cbv zeta.
  match goal with |- maxDepth ?p = _ /\ _ =>
    destruct (branch_depth_bounded (fun _ => 0%Q) (fun _ => 1%Q) 3%Q
                (fun _ => 0.5%Q) 300%Q 300%Q p 0 12 ltac:(lia))
      as (_ & _ & s & Hrun & _ & Hd)
  end.
  split; [reflexivity|]. exists s. split; [exact Hrun | exact Hd].
Defined.

(** ** The renderer: what the breeze cannot change *)











Section Sim.

Variables p1 p2 : BonsaiParams.
Hypothesis same_depth : maxDepth p2 = maxDepth p1.
Hypothesis same_leafiness : leafiness p2 = leafiness p1.
Hypothesis same_bloom : bloomChance p2 = bloomChance p1.
Hypothesis same_hue : p_friendHue p2 = p_friendHue p1.
Variables cos1 sin1 cos2 sin2 : Q -> Q.
Variables pi1 pi2 : Q.
Variables rnd1 rnd2 : nat -> Q.




Hypothesis same_seed : seed_int p2 = seed_int p1.
Variables w1 h1 w2 h2 : Q.



End Sim.

(** ** The renderer: the draws are the stream of the seed *)

Lemma mulberry32_take_add (k1 k2 : nat) (a : num) :
  mulberry32_take (k1 + k2) a
  = (mulberry32_take k1 a ++ mulberry32_take k2 (mulberry32_skip k1 a))%list.
Proof.
  revert a. induction k1 as [|k1 IH]; intros a; [reflexivity|].
  cbn [Nat.add mulberry32_take mulberry32_skip].
  destruct (mulberry32_next a) as [a' x]. cbn [fst List.app].
  now rewrite IH.
Qed.

Lemma mulberry32_skip_add (k1 k2 : nat) (a : num) :
  mulberry32_skip (k1 + k2) a = mulberry32_skip k2 (mulberry32_skip k1 a).
Proof.
  revert a. induction k1 as [|k1 IH]; intros a; [reflexivity|].
  cbn [Nat.add mulberry32_skip]. apply IH.
Qed.

Lemma draws_from_refl (s s' : RState) :
  rng s' = rng s -> seeded s' = seeded s -> draws_from s s'.
Proof.
  intros Hr Hd. exists O. cbn [mulberry32_take mulberry32_skip].
  now rewrite List.app_nil_r.
Qed.

Lemma draws_from_trans (s1 s2 s3 : RState) :
  draws_from s1 s2 -> draws_from s2 s3 -> draws_from s1 s3.
Proof.
  intros (k1 & Hd1 & Hr1) (k2 & Hd2 & Hr2). exists (k1 + k2)%nat.
  rewrite Hd2, Hd1, Hr2, Hr1, mulberry32_take_add, mulberry32_skip_add.
  now rewrite List.app_assoc.
Qed.

Lemma streams_ret {A} (a : A) : streams (rret a).
Proof. intros s b s' [= _ <-]. now apply draws_from_refl. Qed.

Lemma streams_stop {A} : streams (fun _ : RState => @None (A * RState)).
Proof. intros s a s' H. discriminate H. Qed.

Lemma streams_bind {A B} (m : R A) (k : A -> R B) :
  streams m -> (forall a, streams (k a)) -> streams (rbind m k).
Proof.
  intros Hm Hk s b s'' H. unfold rbind in H.
  destruct (m s) as [[a s']|] eqn:E; [|discriminate].
  eapply draws_from_trans; [eapply Hm, E | eapply Hk, H].
Qed.

Lemma streams_rng_call : streams rng_call.
Proof.
  intros s x s' H. unfold rng_call in H. exists 1%nat.
  cbn [mulberry32_take mulberry32_skip].
  destruct (mulberry32_next (rng s)) as [a' y]. injection H as <- <-.
  split; reflexivity.
Qed.

Lemma streams_random_call (rnd : nat -> Q) : streams (random_call rnd).
Proof. intros s x s' [= _ <-]. now apply draws_from_refl. Qed.

Lemma streams_paint (m : Mark) : streams (paint m).
Proof. intros s x s' [= _ <-]. now apply draws_from_refl. Qed.

Lemma streams_for_loop (n : nat) (body : Z -> R unit) :
  (forall i, streams (body i)) ->
  forall start, streams (for_loop n start body).
Proof.
  intros Hb. induction n as [|n IH]; intros start; cbn [for_loop].
  - apply streams_ret.
  - apply streams_bind; [apply Hb | intros _; apply IH].
Qed.

Ltac streams_step rec :=
  cbv beta zeta;
  lazymatch goal with
  | |- streams (rret _) => apply streams_ret
  | |- streams rng_call => apply streams_rng_call
  | |- streams (random_call _) => apply streams_random_call
  | |- streams (paint _) => apply streams_paint
  | |- streams (branch _ _ _ _ _ _ _ _ _ _ _ _) => rec
  | |- streams (for_loop _ _ _) => apply streams_for_loop; intros ?
  | |- streams (rbind _ _) => apply streams_bind; [|intros ?]
  | |- streams (if ?c then _ else _) => destruct c
  | |- streams (match ?c with _ => _ end) => destruct c
  end.

Lemma streams_branch (cos sin : Q -> Q) (pi : Q) (rnd : nat -> Q)
  (p : BonsaiParams) (fuel : nat) :
  forall (x y ang len thick : Q) (depth : Z),
    streams (branch cos sin pi rnd p fuel x y ang len thick depth).
Proof.
  induction fuel as [|fuel IH]; intros x y ang len thick depth.
  - apply streams_stop.
  - cbn [branch].
    unfold drawInkStroke, leaves, leaf_body, drawLeaf, drawBloom.
    repeat streams_step ltac:(apply IH).
Qed.



Example render_two_breezes :
  let p := {| seed := "0x5eC6AF0798b25C563B102d3469971f1a8d598121";
              richness := 0.5; activity := 0.5; p_growth := 1;
              health := 1; breeze := 0.25;
              p_friendHue := Some (Fin (inject_Z 16)) |} in
  let run rnd q := renderBonsai (fun _ => 0%Q) (fun _ => 1%Q) 3 rnd 300 300 q
                     render_fuel (blank_canvas 0) in
  match run (fun _ => 0.5%Q) p, run (fun _ => 0.1%Q) (with_breeze 0.9 p) with
  | Some (_, s1), Some (_, s2) =>
      topology s1 = topology s2
      /\ List.length (seeded s1) = 80%nat
      /\ List.firstn 14 (topology s1)
         = [SStroke; SStroke; SStroke; SStroke; SStroke; SStroke; SStroke;
            SStroke; SStroke; SStroke; SBranch 1; SStroke; SBranch 2; SStroke]
      /\ marks s1 <> marks s2
  | _, _ => False
  end.
Proof.
  vm_compute. repeat split; try reflexivity. intros H. discriminate H.
Qed.

(** * Further properties of the code *)

(** ** The log encoder in general *)

Lemma join_length_const {A} (f : A -> string) (l : list A) (k : nat) :
  (forall x, List.In x l -> String.length (f x) = k) ->
  String.length (join (List.map f l)) = (k * List.length l)%nat.
Proof.
  induction l as [|x l IH]; intros H; [simpl; lia|].
  cbn [List.map join List.length]. rewrite str_length_app, IH.
  - rewrite (H x) by (left; reflexivity). lia.
  - intros y Hy. apply H. right. exact Hy.
Qed.

Lemma utf8_of_char_range (c : ascii) :
  List.Forall (fun b => 0 <= b < 256) (utf8_of_char c).
Proof.
  destruct c as [[] [] [] [] [] [] [] []]; vm_compute;
    repeat constructor; congruence.
Qed.

Lemma utf8_encode_range (s : string) :
  List.Forall (fun b => 0 <= b < 256) (utf8_encode s).
Proof.
  induction s as [|c s IH]; [constructor|].
  cbn [utf8_encode]. apply List.Forall_app. split;
    [apply utf8_of_char_range | exact IH].
Qed.

Lemma byte_hex_fixed (b : Z) : 0 <= b < 256 -> byte_hex b = hex_fixed 2 b.
Proof.
  intros Hb. unfold byte_hex. apply padStart_to_hex; [discriminate|].
  change (16 ^ Z.of_nat 2) with 256. exact Hb.
Qed.

Lemma join_byte_hex (bs : list Z) :
  List.Forall (fun b => 0 <= b < 256) bs ->
  join (List.map byte_hex bs) = hex_of_bytes bs.
Proof.
  unfold hex_of_bytes. induction 1 as [|b bs Hb _ IH]; [reflexivity|].
  cbn [List.map join]. now rewrite IH, byte_hex_fixed.
Qed.

Lemma hex_of_bytes_length (bs : list Z) :
  String.length (hex_of_bytes bs) = (2 * List.length bs)%nat.
Proof.
  unfold hex_of_bytes. apply join_length_const.
  intros x _. apply hex_fixed_length.
Qed.

Lemma prefix_nil (s : string) : String.prefix "" s = true.
Proof. destruct s; reflexivity. Qed.

Lemma strip0x_prefixed (r : string) : strip0x (String "0" (String "x" r)) = r.
Proof.
  unfold strip0x, Str.startsWith.
  change (String.prefix "0x" (String "0" (String "x" r)))
    with (String.prefix "" r).
  now rewrite prefix_nil.
Qed.

Lemma be_bytes_length (k : nat) (n : Z) : List.length (be_bytes k n) = k.
Proof.
  revert n. induction k as [|k IH]; intros n; [reflexivity|].
  cbn [be_bytes]. rewrite List.length_app, IH. simpl. lia.
Qed.

Lemma strip0x_utf8ToHex (s : string) :
  strip0x (utf8ToHex s) = hex_of_bytes (utf8_encode s).
Proof.
  rewrite <- join_byte_hex by apply utf8_encode_range.
  unfold utf8ToHex. apply strip0x_prefixed.
Qed.

Lemma padEnd_length (n : nat) (c : ascii) (s : string) :
  String.length (Str.padEnd n c s) = Nat.max n (String.length s).
Proof. unfold Str.padEnd. rewrite str_length_app, rep_length. lia. Qed.

Lemma padStart_length (n : nat) (c : ascii) (s : string) :
  String.length (Str.padStart n c s) = Nat.max n (String.length s).
Proof. unfold Str.padStart. rewrite str_length_app, rep_length. lia. Qed.

Lemma ceil_div_32 (n : nat) :
  (2 * n <= ceil_div n 32 * 64)%nat /\ (ceil_div n 32 * 64 < 2 * n + 64)%nat.
Proof.
  unfold ceil_div. change (32 - 1)%nat with 31%nat.
  pose proof (Nat.div_mod_eq (n + 31) 32) as E.
  pose proof (Nat.mod_upper_bound (n + 31) 32 ltac:(discriminate)) as U.
  lia.
Qed.

(** X1: [encodeLogAction] throws exactly when the payload text (prefix
    removed) has an odd number of digits.  Otherwise the result is "0x",
    the selector, the tag's UTF-8 bytes in hex padded on the right to 64
    digits, the offset word 0x40, the byte count of the payload as a
    32-byte word, and the payload padded on the right to a whole number of
    32-byte words.  A tag of more than 32 bytes is neither refused nor cut:
    its part then has two digits a byte. *)
Theorem encodeLogAction_layout (action : string) (dataHex : option string) :
  let data := log_data dataHex in
  let tag := hex_of_bytes (utf8_encode action) in
  let n := Nat.div (String.length data) 2 in
  (is_ok (encodeLogAction action dataHex) = false
   <-> Nat.modulo (String.length data) 2 <> O)
  /\ (Nat.modulo (String.length data) 2 = O ->
      Z.of_nat n < 2 ^ 256 ->
      exists out,
        encodeLogAction action dataHex = Ok out
        /\ out = "0x" ++ "2d9bc1fb"
                 ++ (tag ++ Str.rep (64 - String.length tag) "0")
                 ++ hex_of_bytes (be_bytes 32 64)
                 ++ hex_of_bytes (be_bytes 32 (Z.of_nat n))
                 ++ (data ++ Str.rep (ceil_div n 32 * 64 - String.length data) "0")
        /\ String.length out
           = (10 + Nat.max 64 (2 * List.length (utf8_encode action))
              + 128 + ceil_div n 32 * 64)%nat).
Proof.
  intros data tag n.
  assert (Hd : forall X : string -> result string,
             encodeLogAction action dataHex
             = if negb (Nat.eqb (Nat.modulo (String.length data) 2) 0)
               then Throw "Invalid data hex (odd length)."
               else
                 Ok ("0x" ++ "2d9bc1fb"
                     ++ padRightTo32Bytes (strip0x (utf8ToHex action))
                     ++ padLeftTo32Bytes "40"
                     ++ padLeftTo32Bytes (to_hex (Z.of_nat n))
                     ++ Str.padEnd (ceil_div n 32 * 64) "0" data)).
  { intros _. unfold encodeLogAction, data, log_data, n.
    destruct dataHex as [d|]; reflexivity. }
  specialize (Hd (fun _ => Throw "")). rewrite Hd.
  destruct (Nat.eqb_spec (Nat.modulo (String.length data) 2) 0) as [He|Hne];
    cbn [negb is_ok].
  - split; [split; [discriminate | congruence]|]. intros _ Hn.
    match goal with
    | |- exists out, Ok ?o = Ok out /\ _ => set (orig := o)
    end.
    assert (E : orig
                = "0x" ++ "2d9bc1fb"
                  ++ (tag ++ Str.rep (64 - String.length tag) "0")
                  ++ hex_of_bytes (be_bytes 32 64)
                  ++ hex_of_bytes (be_bytes 32 (Z.of_nat n))
                  ++ (data ++ Str.rep (ceil_div n 32 * 64 - String.length data)
                                "0")).
    { unfold orig. rewrite strip0x_utf8ToHex. fold tag.
      unfold padLeftTo32Bytes at 2.
      rewrite padStart_to_hex;
        [| discriminate
         | split; [lia | change (16 ^ Z.of_nat 64) with (2 ^ 256); exact Hn]].
      change (padLeftTo32Bytes "40") with (hex_of_bytes (be_bytes 32 64)).
      replace (hex_fixed 64 (Z.of_nat n))
        with (hex_of_bytes (be_bytes 32 (Z.of_nat n)))
        by exact (hex_of_be_bytes 32 (Z.of_nat n)).
      reflexivity. }
    exists orig. split; [reflexivity|]. split; [exact E|]. rewrite E.
    rewrite !str_length_app, !hex_of_bytes_length, !rep_length.
    unfold tag. rewrite hex_of_bytes_length.
    pose proof (ceil_div_32 n) as [Hc _].
    assert (String.length data = (2 * n)%nat) as Hl.
    { unfold n. pose proof (Nat.div_mod_eq (String.length data) 2). lia. }
    rewrite Hl, !be_bytes_length.
    change (String.length "0x") with 2%nat.
    change (String.length "2d9bc1fb") with 8%nat. lia.
  - split; [split; [intros _; exact Hne | reflexivity]|].
    intros He. contradiction.
Qed.

Lemma encodeLogAction_layout_witness :
  exists out,
    encodeLogAction "revive" (Some "0x0102") = Ok out
    /\ String.length out = (10 + 64 + 128 + 64)%nat.
Proof.
  destruct (proj2 (encodeLogAction_layout "revive" (Some "0x0102"))
              eq_refl ltac:(vm_compute; reflexivity))
    as (out & Hout & _ & Hlen).
  exists out. split; [exact Hout | exact Hlen].
Defined.

(** ** Hex text and the bytes it stands for *)

Lemma small_Z_cases (n : nat) (P : Z -> Prop) :
  (forall k, (k < n)%nat -> P (Z.of_nat k)) ->
  forall d, 0 <= d < Z.of_nat n -> P d.
Proof.
  intros H d Hd. rewrite <- (Z2Nat.id d) by lia. apply H. lia.
Qed.

Lemma hex_value_digit (d : Z) : 0 <= d < 16 -> hex_value (hex_digit d) = d.
Proof.
  revert d. apply (small_Z_cases 16). intros k Hk.
  do 16 (destruct k as [|k]; [vm_compute; reflexivity|]). lia.
Qed.

Lemma is_hex_digit (d : Z) : 0 <= d < 16 -> is_hex (hex_digit d) = true.
Proof.
  revert d. apply (small_Z_cases 16). intros k Hk.
  do 16 (destruct k as [|k]; [vm_compute; reflexivity|]). lia.
Qed.

Lemma hex_fixed_2 (b : Z) :
  hex_fixed 2 b
  = String (hex_digit (b / 16 mod 16)) (String (hex_digit (b mod 16)) "").
Proof. reflexivity. Qed.

Lemma bytes_of_hex_of_bytes (bs : list Z) :
  List.Forall (fun b => 0 <= b < 256) bs ->
  bytes_of_hex (hex_of_bytes bs) = bs.
Proof.
  unfold hex_of_bytes. induction 1 as [|b bs Hb _ IH]; [reflexivity|].
  cbn [List.map join]. rewrite hex_fixed_2, !str_app_cons, str_app_nil_l.
  cbn [bytes_of_hex]. rewrite IH, !hex_value_digit.
  - f_equal. Z.div_mod_to_equations. lia.
  - apply Z.mod_pos_bound. lia.
  - apply Z.mod_pos_bound. lia.
Qed.

Lemma utf8_encode_ascii (s : string) :
  Str.forallb (fun c => Str.code c <? 128) s = true ->
  utf8_encode s = List.map Str.code (list_ascii_of_string s).
Proof.
  induction s as [|c s IH]; intros H; [reflexivity|].
  cbn [Str.forallb] in H. apply andb_prop in H as [Hc Hs].
  cbn [utf8_encode list_ascii_of_string List.map]. unfold utf8_of_char.
  rewrite Hc, IH by exact Hs. reflexivity.
Qed.

(** X2: the hex text [utf8ToHex] returns is "0x" and two digits for each
    UTF-8 byte of the string: reading the digits back two by two gives the
    bytes again; for a string of characters below 128 the bytes are the
    character codes. *)
Theorem utf8ToHex_round_trip (s : string) :
  bytes_of_hex (strip0x (utf8ToHex s)) = utf8_encode s
  /\ String.length (utf8ToHex s) = (2 + 2 * List.length (utf8_encode s))%nat
  /\ List.Forall (fun b => 0 <= b < 256) (utf8_encode s)
  /\ (Str.forallb (fun c => Str.code c <? 128) s = true ->
      bytes_of_hex (strip0x (utf8ToHex s))
      = List.map Str.code (list_ascii_of_string s)).
Proof.
  rewrite strip0x_utf8ToHex,
    bytes_of_hex_of_bytes by apply utf8_encode_range.
  split; [reflexivity|]. split; [|split; [apply utf8_encode_range|]].
  - unfold utf8ToHex. rewrite join_byte_hex by apply utf8_encode_range.
    rewrite str_length_app, hex_of_bytes_length. reflexivity.
  - apply utf8_encode_ascii.
Qed.

Lemma utf8ToHex_round_trip_witness :
  bytes_of_hex (strip0x (utf8ToHex "graft")) = [103; 114; 97; 102; 116].
Proof.
  rewrite (proj2 (proj2 (proj2 (utf8ToHex_round_trip "graft"))) eq_refl).
  reflexivity.
Defined.

(** ** Addresses *)

Lemma lower_char_idem (c : ascii) :
  Str.lower_char (Str.lower_char c) = Str.lower_char c.
Proof. destruct c as [[] [] [] [] [] [] [] []]; reflexivity. Qed.

Lemma lower_char_hex (c : ascii) :
  is_hex c = true -> is_hex (Str.lower_char c) = true.
Proof. ascii_cases c. Qed.

Lemma toLowerCase_idem (s : string) :
  Str.toLowerCase (Str.toLowerCase s) = Str.toLowerCase s.
Proof.
  unfold Str.toLowerCase. induction s as [|c s IH]; [reflexivity|].
  cbn [Str.map]. now rewrite lower_char_idem, IH.
Qed.

Lemma toLowerCase_hex (s : string) :
  Str.forallb is_hex s = true ->
  Str.forallb is_hex (Str.toLowerCase s) = true.
Proof.
  unfold Str.toLowerCase. induction s as [|c s IH]; intros H; [reflexivity|].
  cbn [Str.forallb] in H. apply andb_prop in H as [Hc Hs].
  cbn [Str.map Str.forallb]. now rewrite lower_char_hex, IH.
Qed.

Lemma isLikelyAddress_intro (r : string) :
  String.length r = 40%nat -> Str.forallb is_hex r = true ->
  isLikelyAddress (String "0" (String "x" r)) = true.
Proof.
  intros Hl Hh. cbn [isLikelyAddress]. now rewrite Hl, Hh.
Qed.

(** X3: [isLikelyAddress] accepts exactly the texts made of "0x" and 40 hex
    digits of either case, nothing before or after (so 42 characters), and
    what it accepts it also accepts in lower case. *)
Theorem isLikelyAddress_iff (a : string) :
  (isLikelyAddress a = true
   <-> exists r, a = "0x" ++ r /\ String.length r = 40%nat
                 /\ Str.forallb is_hex r = true)
  /\ (isLikelyAddress a = true ->
      String.length a = 42%nat
      /\ isLikelyAddress (Str.toLowerCase a) = true).
Proof.
  assert (Hinv : isLikelyAddress a = true ->
                 exists r, a = "0x" ++ r /\ String.length r = 40%nat
                           /\ Str.forallb is_hex r = true).
  { intros H. destruct (isLikelyAddress_inv a H) as (r & -> & Hl & Hh).
    exists r. repeat split; assumption. }
  split; [split; [exact Hinv|]|].
  - intros (r & -> & Hl & Hh). now apply isLikelyAddress_intro.
  - intros H. destruct (Hinv H) as (r & -> & Hl & Hh).
    split.
    + rewrite str_length_app, Hl. reflexivity.
    + change (Str.toLowerCase ("0x" ++ r))
        with (String "0" (String "x" (Str.toLowerCase r))).
      apply isLikelyAddress_intro.
      * unfold Str.toLowerCase. now rewrite map_length.
      * now apply toLowerCase_hex.
Qed.

Lemma isLikelyAddress_iff_witness :
  String.length "0x833589fCD6eDb6E08f4c7C32D4f71b54bdA02913" = 42%nat
  /\ isLikelyAddress
       (Str.toLowerCase "0x833589fCD6eDb6E08f4c7C32D4f71b54bdA02913") = true.
Proof.
  apply (proj2 (isLikelyAddress_iff
                  "0x833589fCD6eDb6E08f4c7C32D4f71b54bdA02913")).
  reflexivity.
Defined.

(** ** The transfer encoder: reading the words back *)

Lemma encodeUsdcTransfer_form (to : string) (amount : Z) :
  isLikelyAddress to = true -> 0 < amount < 2 ^ 256 ->
  encodeUsdcTransfer to amount
  = Ok ("0x" ++ "a9059cbb" ++ Str.rep 24 "0"
        ++ Str.toLowerCase (Str.drop 2 to) ++ hex_fixed 64 amount).
Proof.
  intros Ha Hamt. unfold encodeUsdcTransfer. rewrite Ha. simpl negb.
  destruct (Z.leb_spec amount 0) as [Hle|_]; [lia|]. cbv iota.
  destruct (isLikelyAddress_inv to Ha) as (rest & -> & Hlen & _).
  change (Str.toLowerCase (String "0" (String "x" rest)))
    with (String "0" (String "x" (Str.toLowerCase rest))).
  cbn [replace_0x Str.drop]. unfold bytes32Pad at 1.
  unfold Str.padStart at 1. unfold Str.toLowerCase at 1.
  rewrite map_length, Hlen. change (64 - 40)%nat with 24%nat.
  unfold bytes32Pad. rewrite padStart_to_hex by (simpl; lia).
  now rewrite str_app_assoc.
Qed.

Lemma Ok_inj {A} (a b : A) : Ok a = Ok b -> a = b.
Proof. intros H. now injection H. Qed.

Lemma list_ascii_app (s t : string) :
  list_ascii_of_string (s ++ t)
  = (list_ascii_of_string s ++ list_ascii_of_string t)%list.
Proof.
  induction s as [|c s IH]; [reflexivity|].
  rewrite str_app_cons. cbn [list_ascii_of_string List.app]. now rewrite IH.
Qed.

Lemma hex_number_snoc (s : string) (c : ascii) :
  hex_number (s ++ String c "") = 16 * hex_number s + hex_value c.
Proof.
  unfold hex_number. rewrite list_ascii_app, List.fold_left_app. reflexivity.
Qed.

Lemma hex_number_fixed (k : nat) (n : Z) :
  hex_number (hex_fixed k n) = n mod 16 ^ Z.of_nat k.
Proof.
  revert n. induction k as [|k IH]; intros n.
  - cbn [hex_fixed]. change (16 ^ Z.of_nat 0) with 1.
    now rewrite Z.mod_1_r.
  - cbn [hex_fixed]. rewrite hex_number_snoc, IH, hex_value_digit
      by (apply Z.mod_pos_bound; lia).
    rewrite Nat2Z.inj_succ, Z.pow_succ_r by lia.
    rewrite (Z.rem_mul_r n 16 (16 ^ Z.of_nat k));
      [lia | lia | apply Z.pow_pos_nonneg; lia].
Qed.

Lemma drop_app_length (p w : string) : Str.drop (String.length p) (p ++ w) = w.
Proof. induction p as [|c p IH]; [reflexivity | exact IH]. Qed.

Lemma take_app_length (p w : string) : Str.take (String.length p) (p ++ w) = p.
Proof.
  induction p as [|c p IH]; [reflexivity|].
  rewrite str_app_cons. cbn [String.length Str.take]. now rewrite IH.
Qed.

Lemma drop_app_exact (p w : string) (k : nat) :
  String.length p = k -> Str.drop k (p ++ w) = w.
Proof. intros <-. apply drop_app_length. Qed.

Lemma take_app_exact (p w : string) (k : nat) :
  String.length p = k -> Str.take k (p ++ w) = p.
Proof. intros <-. apply take_app_length. Qed.

Lemma low_order_app (p w : string) (k : nat) :
  String.length w = k -> low_order k (p ++ w) = w.
Proof.
  intros <-. unfold low_order. rewrite str_length_app.
  replace (String.length p + String.length w - String.length w)%nat
    with (String.length p) by lia.
  apply drop_app_length.
Qed.

Lemma str_app_inv_length (a b c d : string) :
  a ++ b = c ++ d -> String.length a = String.length c -> a = c /\ b = d.
Proof.
  revert c. induction a as [|x a IH]; intros [|y c] H Hl; try discriminate.
  - split; [reflexivity | exact H].
  - rewrite !str_app_cons in H. injection H as -> H.
    injection Hl as Hl. destruct (IH c H Hl) as [-> ->]. split; reflexivity.
Qed.

(** X4: for valid addresses and amounts of (0, 2^256) the encoding
    identifies the transfer up to the letter case of the address: two
    calls return the same text exactly when the addresses agree in lower
    case and the amounts are equal. *)
Theorem encodeUsdcTransfer_injective (a b : string) (x y : Z) :
  isLikelyAddress a = true -> isLikelyAddress b = true ->
  0 < x < 2 ^ 256 -> 0 < y < 2 ^ 256 ->
  (encodeUsdcTransfer a x = encodeUsdcTransfer b y
   <-> Str.toLowerCase a = Str.toLowerCase b /\ x = y).
Proof.
  intros Ha Hb Hx Hy.
  rewrite (encodeUsdcTransfer_form a x Ha Hx),
    (encodeUsdcTransfer_form b y Hb Hy).
  destruct (isLikelyAddress_inv a Ha) as (ra & -> & Hla & _).
  destruct (isLikelyAddress_inv b Hb) as (rb & -> & Hlb & _).
  cbn [Str.drop].
  change (Str.toLowerCase (String "0" (String "x" ra)))
    with (String "0" (String "x" (Str.toLowerCase ra))).
  change (Str.toLowerCase (String "0" (String "x" rb)))
    with (String "0" (String "x" (Str.toLowerCase rb))).
  assert (Hlow : String.length (Str.toLowerCase ra)
                 = String.length (Str.toLowerCase rb))
    by (unfold Str.toLowerCase; now rewrite !map_length, Hla, Hlb).
  split.
  - intros H. apply Ok_inj in H. rewrite <- !str_app_assoc in H.
    apply str_app_inv_length in H.
    + destruct H as [H1 H2].
      apply str_app_inv_length in H1; [|reflexivity].
      destruct H1 as [_ H1]. split; [now rewrite H1|].
      apply (f_equal hex_number) in H2. rewrite !hex_number_fixed in H2.
      change (16 ^ Z.of_nat 64) with (2 ^ 256) in H2.
      rewrite !Z.mod_small in H2 by lia. exact H2.
    + rewrite !str_length_app. now rewrite Hlow.
  - intros [H ->]. injection H as H. now rewrite H.
Qed.

Lemma encodeUsdcTransfer_injective_witness :
  encodeUsdcTransfer "0x5eC6AF0798b25C563B102d3469971f1a8d598121" 7
  = encodeUsdcTransfer "0x5ec6af0798B25c563b102D3469971f1a8d598121" 7.
Proof.
  apply (encodeUsdcTransfer_injective
           "0x5eC6AF0798b25C563B102d3469971f1a8d598121"
           "0x5ec6af0798B25c563b102D3469971f1a8d598121" 7 7);
    try reflexivity; try (split; reflexivity).
Defined.

(** X5: the transfer encoding can be read back: for a valid address and an
    amount of (0, 2^256) the result has 138 characters, its last 64 digits
    are a hex number equal to the amount, and the 40 digits before them are
    the address digits in lower case. *)
Theorem encodeUsdcTransfer_read_back (to : string) (amount : Z) :
  isLikelyAddress to = true -> 0 < amount < 2 ^ 256 ->
  exists out,
    encodeUsdcTransfer to amount = Ok out
    /\ String.length out = 138%nat
    /\ hex_number (low_order 64 out) = amount
    /\ Str.take 40 (Str.drop 34 out) = Str.toLowerCase (Str.drop 2 to)
    /\ Str.take 34 out = "0x" ++ "a9059cbb" ++ Str.rep 24 "0".
Proof.
  intros Ha Hamt. rewrite (encodeUsdcTransfer_form to amount Ha Hamt).
  eexists. split; [reflexivity|].
  destruct (isLikelyAddress_inv to Ha) as (r & -> & Hl & _).
  change (Str.drop 2 (String "0" (String "x" r))) with r.
  assert (Hlow : String.length (Str.toLowerCase r) = 40%nat)
    by (unfold Str.toLowerCase; now rewrite map_length).
  set (pre := "0x" ++ "a9059cbb" ++ Str.rep 24 "0").
  assert (Hpre : String.length pre = 34%nat) by reflexivity.
  change ("0x" ++ "a9059cbb" ++ Str.rep 24 "0"
          ++ Str.toLowerCase r ++ hex_fixed 64 amount)
    with (pre ++ Str.toLowerCase r ++ hex_fixed 64 amount).
  split; [|split; [|split]].
  - rewrite !str_length_app, Hpre, Hlow, hex_fixed_length. reflexivity.
  - replace (pre ++ Str.toLowerCase r ++ hex_fixed 64 amount)
      with ((pre ++ Str.toLowerCase r) ++ hex_fixed 64 amount)
      by apply str_app_assoc.
    rewrite (low_order_app (pre ++ Str.toLowerCase r) (hex_fixed 64 amount) 64)
      by apply hex_fixed_length.
    rewrite hex_number_fixed.
    change (16 ^ Z.of_nat 64) with (2 ^ 256). apply Z.mod_small. lia.
  - rewrite (drop_app_exact pre _ 34 Hpre).
    apply take_app_exact. exact Hlow.
  - apply take_app_exact. exact Hpre.
Qed.

Lemma encodeUsdcTransfer_read_back_witness :
  exists out,
    encodeUsdcTransfer "0x5eC6AF0798b25C563B102d3469971f1a8d598121" 1000000
    = Ok out
    /\ hex_number (low_order 64 out) = 1000000.
Proof.
  destruct (encodeUsdcTransfer_read_back
              "0x5eC6AF0798b25C563B102d3469971f1a8d598121" 1000000
              eq_refl ltac:(split; reflexivity))
    as (out & Ho & _ & Hn & _).
  exists out. split; [exact Ho | exact Hn].
Defined.

(** ** The seed of the generator *)

(** X6: the animation frame seeds the generator with an integer of
    [0, 2^31), a 32-bit seed, whenever the account is a valid address, and
    with that of the zero address (which is 0) when no account is
    connected. *)
Theorem frame_seed_32bit (w : World) (richness activity breeze : Q) :
  account w = "" \/ isLikelyAddress (account w) = true ->
  exists z,
    seed_int (frame_params w richness activity breeze) = Fin (inject_Z z)
    /\ 0 <= z < 2 ^ 31
    /\ (account w = "" -> z = 0).
Proof.
  intros Hacc. unfold seed_int, seedUnit, frame_params. cbn [seed].
  destruct (String.eqb_spec (account w) "") as [He|Hne].
  - exists 0. split; [vm_compute; reflexivity|]. split; [lia | reflexivity].
  - destruct Hacc as [He|Ha]; [congruence|].
    destruct (hashToUnitFloat_address (account w) Ha) as (r & -> & Hr).
    cbn [num_scale31 Math_floor].
    eexists. split; [reflexivity|]. split; [|congruence].
    destruct (unit_round r Hr) as [H0 H1]. apply seed_floor; assumption.
Qed.

Lemma frame_seed_32bit_witness :
  exists z,
    seed_int (frame_params
                (mkWorld "0x5eC6AF0798b25C563B102d3469971f1a8d598121"
                   zero_state "" None ∅ [] 0 0) 0.5 0.5 0.5)
    = Fin (inject_Z z)
    /\ 0 <= z < 2 ^ 31.
Proof.
  destruct (frame_seed_32bit
              (mkWorld "0x5eC6AF0798b25C563B102d3469971f1a8d598121"
                 zero_state "" None ∅ [] 0 0) 0.5 0.5 0.5
              (or_intror eq_refl)) as (z & Hz & Hr & _).
  exists z. split; [exact Hz | exact Hr].
Defined.

Lemma mulberry32_next_NaN : mulberry32_next NaN = (NaN, Qmake 0 4294967296).
Proof. vm_compute. reflexivity. Qed.

(** X7: a seed text without a hex digit where the number is read makes
    [hashToUnitFloat] return [NaN]; the generator is then created with
    [NaN], stays there, and every number it returns is 0. *)
Theorem mulberry32_NaN_seed (p : BonsaiParams) (n : nat) :
  hashToUnitFloat (seed p) = NaN ->
  seed_int p = NaN
  /\ mulberry32_take n (seed_int p) = List.repeat (Qmake 0 4294967296) n
  /\ mulberry32_skip n (seed_int p) = NaN.
Proof.
  intros H. unfold seed_int, seedUnit. rewrite H. cbn [num_scale31 Math_floor].
  split; [reflexivity|].
  induction n as [|n [IH1 IH2]]; [split; reflexivity|].
  cbn [mulberry32_take mulberry32_skip List.repeat].
  rewrite mulberry32_next_NaN. cbn [fst]. rewrite IH1, IH2.
  split; reflexivity.
Qed.

Lemma mulberry32_NaN_seed_witness :
  mulberry32_take 3
    (seed_int {| seed := "xyz"; richness := 0; activity := 0; p_growth := 0;
                 health := 1; breeze := 0; p_friendHue := None |})
  = List.repeat (Qmake 0 4294967296) 3.
Proof.
  apply (mulberry32_NaN_seed
           {| seed := "xyz"; richness := 0; activity := 0; p_growth := 0;
              health := 1; breeze := 0; p_friendHue := None |} 3).
  vm_compute. reflexivity.
Defined.

(** ** Health and decay *)

(** X8: [computeHealth] has four levels, 1, 0.86, 0.68 and 0.42; it never
    rises with the missed streak, and it is at its lowest level exactly
    when the tree is withered (three missed days or more). *)
Theorem computeHealth_levels (st st' : LocalState) :
  List.In (computeHealth st) [1%Q; (86 # 100)%Q; (68 # 100)%Q; (42 # 100)%Q]
  /\ (computeHealth st = (42 # 100)%Q <-> withered_of st = true)
  /\ (computeHealth st = 1%Q <-> missedStreak st <= 0)
  /\ (missedStreak st <= missedStreak st' ->
      Qle (computeHealth st') (computeHealth st)).
Proof.
  unfold computeHealth, withered_of.
  destruct (Z.leb_spec (missedStreak st) 0) as [H0|H0];
    [|destruct (Z.eqb_spec (missedStreak st) 1) as [H1|H1];
      [|destruct (Z.eqb_spec (missedStreak st) 2) as [H2|H2]]];
    (split; [cbn [List.In]; tauto|]);
    (split; [split; [try discriminate; intros _; apply Z.leb_le; lia
                    | intros H; apply Z.leb_le in H; try reflexivity; lia]|]);
    (split; [split; [try discriminate; intros _; lia
                    | intros H; try reflexivity; lia]|]);
    intros Hle;
    destruct (Z.leb_spec (missedStreak st') 0);
    try destruct (Z.eqb_spec (missedStreak st') 1);
    try destruct (Z.eqb_spec (missedStreak st') 2);
    try lia; unfold Qle; cbn [Qnum Qden]; lia.
Qed.

Lemma computeHealth_levels_witness :
  Qle (computeHealth (with_streak 5 zero_state))
      (computeHealth (with_streak 1 zero_state)).
Proof.
  apply (proj2 (proj2 (proj2 (computeHealth_levels
                                (with_streak 1 zero_state)
                                (with_streak 5 zero_state))))).
  cbn. lia.
Defined.

Lemma computeMissedStreak_at (st : LocalState) (e : Env)
  (acc : string) (loc : LocalState) (fa : string) (fh : option num)
  (ls : gmap string stored) (tr : list Event) (cr wu : nat) :
  computeMissedStreak st e (mkWorld acc loc fa fh ls tr cr wu)
  = (missed_at (clock e cr) st,
     mkWorld acc loc fa fh ls tr (reads_of (lastWateredAt st) + cr) wu).
Proof.
  unfold computeMissedStreak, missed_at, daysSince, reads_of.
  destruct (falsy_ts (lastWateredAt st)); [reflexivity|].
  unfold bind, nowMs, ret.
  cbn [account local friendAddress friendHue localStorage trace
       clock_reads wallet_uses Math_floor clamp_streak Nat.add].
  rewrite Qfloor_Z. unfold clampZ. rewrite days_floor. reflexivity.
Qed.

(** X9: [computeMissedStreak] answers 0 without reading the clock when
    [lastWateredAt] is unset (or 0); otherwise it reads the clock once and
    answers the whole days elapsed (86 400 000 ms each) kept within 0 and
    30, so 0 when the clock is behind the last watering, and 3 or more
    (withered) exactly from 259 200 000 ms on. *)
Theorem computeMissedStreak_value (st : LocalState) (e : Env) (w : World) :
  let now := clock e (clock_reads w) in
  let r := computeMissedStreak st e w in
  0 <= fst r <= 30
  /\ (falsy_ts (lastWateredAt st) = true -> r = (0, w))
  /\ (forall ts, lastWateredAt st = Some ts -> ts <> 0 ->
        fst r = Z.max 0 (Z.min 30 ((now - ts) / 86400000))
        /\ clock_reads (snd r) = S (clock_reads w)
        /\ (3 <= fst r <-> 259200000 <= now - ts)
        /\ (now <= ts -> fst r = 0)).
Proof.
  destruct w as [acc loc fa fh ls tr cr wu]. cbv zeta.
  rewrite computeMissedStreak_at. cbn [fst snd clock_reads].
  unfold missed_at, reads_of, clampZ.
  split; [destruct (falsy_ts (lastWateredAt st)); lia|].
  split; [intros ->; reflexivity|].
  intros ts Hts Hnz. rewrite Hts. cbn [falsy_ts default from_option id].
  destruct (Z.eqb_spec ts 0) as [|_]; [congruence|].
  split; [reflexivity|]. split; [reflexivity|].
  split; [split; intros H|intros H];
    Z.div_mod_to_equations; lia.
Qed.

Lemma computeMissedStreak_value_witness :
  let e := {| clock := fun _ => 1700000000000 + 4 * 86400000 + 17;
              wallet := fun _ => mkWallet false OnMainnet (Throw "")
                                   (Throw "") (Throw "") |} in
  let st := {| plantedAt := Some 1700000000000; growth := 1;
               lastWateredAt := Some 1700000000000; missedStreak := 0;
               revivedAt := None; lastGraftedAt := None |} in
  fst (computeMissedStreak st e initial_world) = 4.
Proof.
  cbv zeta.
  match goal with |- fst (computeMissedStreak ?st ?e ?w) = _ =>
    destruct (computeMissedStreak_value st e w) as (_ & _ & H)
  end.
  destruct (H 1700000000000 eq_refl ltac:(discriminate)) as (Hv & _).
  rewrite Hv. reflexivity.
Defined.

(** ** The component and the store *)

Lemma on_account_run (e : Env) (w : World) :
  let st := loadState (account w) (localStorage w) in
  let m := with_streak (missed_at (clock e (clock_reads w)) st) st in
  exec on_account e w
  = if String.eqb (account w) "" then w
    else bump [ESetLocal m; ESaveState (lsKey (account w)) m;
               ERefreshSignals (account w)]
           (reads_of (lastWateredAt st)) 0 (commit m w).
Proof.
  destruct w as [acc loc fa fh ls tr cr wu]. cbv zeta.
  unfold on_account. open_action.
  destruct (String.eqb acc ""); [reflexivity|].
  rewrite computeMissedStreak_at. open_action. world_eq.
Qed.

Lemma missed_at_range (now : Z) (st : LocalState) :
  0 <= missed_at now st <= 30.
Proof.
  unfold missed_at, clampZ. destruct (falsy_ts (lastWateredAt st)); lia.
Qed.

Lemma state_ok_zero : state_ok zero_state.
Proof.
  unfold state_ok, zero_state, planted_of.
  cbn [missedStreak growth plantedAt lastWateredAt revivedAt lastGraftedAt].
  split; [lia|]. split; [lia|]. split; [reflexivity|].
  split; [congruence|]. intros [H|H]; congruence.
Qed.

Lemma state_ok_with_streak (now : Z) (st : LocalState) :
  state_ok st -> state_ok (with_streak (missed_at now st) st).
Proof.
  intros (Hm & Hg & Hz & Hw & Hr). unfold state_ok, with_streak, planted_of.
  cbn [missedStreak growth plantedAt lastWateredAt revivedAt lastGraftedAt].
  split; [apply missed_at_range|]. split; [exact Hg|].
  split; [|split; [exact Hw | exact Hr]].
  intros Hp. rewrite (Hz Hp). reflexivity.
Qed.

Lemma state_ok_watered (st : LocalState) (now : Z) :
  planted_of st = true -> state_ok st -> state_ok (watered st now).
Proof.
  intros Hp (Hm & Hg & Hz & Hw & Hr).
  unfold state_ok, watered, set_growth_watered, planted_of in *.
  cbn [missedStreak growth plantedAt lastWateredAt revivedAt lastGraftedAt].
  split; [lia|]. split; [destruct (Z.eqb_spec (growth st) 0); lia|].
  split; [|split; [discriminate | exact Hr]].
  intros Hn. rewrite Hn in Hp. discriminate Hp.
Qed.

Lemma state_ok_planted (t1 t2 : Z) :
  state_ok {| plantedAt := Some t1; growth := 1; lastWateredAt := Some t2;
              missedStreak := 0; revivedAt := None; lastGraftedAt := None |}.
Proof.
  unfold state_ok.
  cbn [missedStreak growth plantedAt lastWateredAt revivedAt lastGraftedAt].
  split; [lia|]. split; [lia|]. split; [discriminate|].
  split; [discriminate|]. intros [H|H]; congruence.
Qed.

Lemma state_ok_revived (st : LocalState) (t1 t2 : Z) :
  planted_of st = true -> state_ok st ->
  state_ok {| plantedAt := plantedAt st; growth := growth st;
              lastWateredAt := Some t2; missedStreak := 0;
              revivedAt := Some t1; lastGraftedAt := lastGraftedAt st |}.
Proof.
  intros Hp (Hm & Hg & Hz & Hw & Hr). unfold state_ok, planted_of in *.
  cbn [missedStreak growth plantedAt lastWateredAt revivedAt lastGraftedAt].
  split; [lia|]. split; [exact Hg|].
  split; [|split; [discriminate | intros _; exact Hp]].
  intros Hn. rewrite Hn in Hp. discriminate Hp.
Qed.

Lemma state_ok_grafted (st : LocalState) (now : Z) :
  planted_of st = true -> state_ok st ->
  state_ok {| plantedAt := plantedAt st; growth := growth st;
              lastWateredAt := lastWateredAt st;
              missedStreak := missedStreak st;
              revivedAt := revivedAt st; lastGraftedAt := Some now |}.
Proof.
  intros Hp (Hm & Hg & Hz & Hw & Hr). unfold state_ok, planted_of in *.
  cbn [missedStreak growth plantedAt lastWateredAt revivedAt lastGraftedAt].
  split; [exact Hm|]. split; [exact Hg|].
  split; [|split; [exact Hw | intros _; exact Hp]].
  intros Hn. rewrite Hn in Hp. discriminate Hp.
Qed.

Lemma world_inv_bump (evs : list Event) (k u : nat) (w : World) :
  world_inv w -> world_inv (bump evs k u w).
Proof. intros H. exact H. Qed.

Lemma world_inv_commit (st : LocalState) (hue : option num) (w : World) :
  state_ok st ->
  (forall addr, state_ok (loadState addr (localStorage w))) ->
  world_inv (commit st (match hue with
                        | Some h => with_hue h w
                        | None => w
                        end)).
Proof.
  intros Hst Hls.
  assert (E : forall w0 : World,
             account w0 = account w -> localStorage w0 = localStorage w ->
             world_inv (commit st w0)).
  { intros w0 Ea El. unfold world_inv, commit. cbn [local localStorage account].
    rewrite Ea, El. split; [exact Hst|]. split.
    - intros addr. rewrite loadState_saveState.
      destruct (decide _); [exact Hst | apply Hls].
    - intros _. rewrite loadState_saveState.
      destruct (decide _); [reflexivity | congruence]. }
  destruct hue; apply E; reflexivity.
Qed.

Ltac inv_cases Hw :=
  repeat match goal with
         | |- world_inv (if ?c then _ else _) => destruct c eqn:?
         end;
  try (apply world_inv_bump; exact Hw).

Lemma water_inv (e : Env) (w : World) :
  world_inv w -> world_inv (exec water e w).
Proof.
  intros Hw. destruct (water_run e w) as (evs & _ & ->). cbv zeta.
  inv_cases Hw.
  apply world_inv_bump, (world_inv_commit _ None); [|apply Hw].
  apply state_ok_watered; [|apply Hw].
  now destruct (planted_of (local w)).
Qed.

Lemma plant_inv (e : Env) (w : World) :
  world_inv w -> world_inv (exec plant e w).
Proof.
  intros Hw. destruct (plant_run e w) as (evs & _ & ->). cbv zeta.
  inv_cases Hw.
  apply world_inv_bump, (world_inv_commit _ None); [|apply Hw].
  apply state_ok_planted.
Qed.

Lemma revive_inv (e : Env) (w : World) :
  world_inv w -> world_inv (exec revive e w).
Proof.
  intros Hw. destruct (revive_run e w) as (evs & _ & ->). cbv zeta.
  inv_cases Hw.
  apply world_inv_bump, (world_inv_commit _ None); [|apply Hw].
  apply state_ok_revived; [|apply Hw].
  now destruct (planted_of (local w)).
Qed.

Lemma graft_inv (e : Env) (w : World) :
  world_inv w -> world_inv (exec graft e w).
Proof.
  intros Hw. destruct (graft_run e w) as (evs & _ & ->). cbv zeta.
  inv_cases Hw.
  apply world_inv_bump, (world_inv_commit _ (Some _)); [|apply Hw].
  apply state_ok_grafted; [|apply Hw].
  now destruct (planted_of (local w)).
Qed.

Lemma on_account_inv (e : Env) (w : World) :
  state_ok (local w) ->
  (forall addr, state_ok (loadState addr (localStorage w))) ->
  world_inv (exec on_account e w).
Proof.
  intros Hl Hls. rewrite on_account_run. cbv zeta.
  destruct (String.eqb_spec (account w) "") as [He|Hne].
  - split; [exact Hl|]. split; [exact Hls | congruence].
  - apply world_inv_bump, (world_inv_commit _ None); [|exact Hls].
    apply state_ok_with_streak, Hls.
Qed.

Lemma run_action_inv (a : Action) (e : Env) (w : World) :
  world_inv w -> world_inv (exec (run_action a) e w).
Proof.
  intros Hw. destruct a; cbn [run_action].
  - now apply plant_inv.
  - now apply water_inv.
  - now apply revive_inv.
  - now apply graft_inv.
  - destruct w as [acc loc fa fh ls tr cr wu].
    unfold main_button_click, exec, bind, get_world.
    destruct (water_button_disabled_run e acc loc fa fh ls tr cr wu)
      as (d & k & Hd & _).
    cbv zeta in Hd. rewrite Hd. cbn [local].
    destruct d; [exact Hw|].
    destruct (planted_of loc); [apply water_inv | apply plant_inv]; exact Hw.
  - unfold connect_as, exec.
    destruct (String.eqb addr (account w)); [exact Hw|].
    apply (on_account_inv e); apply Hw.
  - split; [exact state_ok_zero|]. split; [apply Hw|].
    intros H. now contradiction H.
  - exact Hw.
Qed.

Lemma initial_world_inv : world_inv initial_world.
Proof.
  split; [exact state_ok_zero|]. split.
  - intros addr. unfold loadState. cbn [initial_world localStorage].
    rewrite lookup_empty. exact state_ok_zero.
  - intros H. now contradiction H.
Qed.

Lemma run_actions_inv (acts : list Action) (e : Env) :
  forall w, world_inv w -> world_inv (run_actions acts e w).
Proof.
  induction acts as [|a acts IH]; intros w Hw; [exact Hw|].
  cbn [run_actions]. apply IH, run_action_inv, Hw.
Qed.

(** X10: in every world the program reaches from an empty store, whatever
    the clock and the wallet do, the game state shown and every record of
    the store have a missed streak of 0..30 and a growth that is not
    negative; an unplanted one is the initial state; a planted one has a
    watering date; revival and graft dates occur on planted trees only; and
    while an account is connected the state shown is the record stored for
    it. *)
Theorem reachable_world_inv (w : World) :
  reachable w -> world_inv w.
Proof.
  intros (e & acts & ->). apply run_actions_inv, initial_world_inv.
Qed.

Lemma reachable_world_inv_witness :
  let a := "0x5eC6AF0798b25C563B102d3469971f1a8d598121" in
  let e := {| clock := fun n => 1700000000000 + 7200000 * Z.of_nat n;
              wallet := fun _ => mkWallet true OnMainnet (Ok a) (Ok 1000)
                                   (Ok tt) |} in
  world_inv (run_actions [AConnect a; APlant; AWater; AGraft; AReload] e
               initial_world).
Proof.
  cbv zeta. apply reachable_world_inv. eexists _, _. reflexivity.
Defined.

Lemma reload_connect_run (e : Env) (w : World) (a : string) :
  a <> "" ->
  run_actions [AReload; AConnect a] e w
  = exec on_account e
      {| account := a; local := zero_state; friendAddress := "";
         friendHue := None; localStorage := localStorage w;
         trace := trace w; clock_reads := clock_reads w;
         wallet_uses := wallet_uses w |}.
Proof.
  intros Ha. apply String.eqb_neq in Ha.
  cbn [run_actions run_action]. unfold exec, reload, connect_as.
  cbn [snd account]. rewrite Ha. reflexivity.
Qed.

(** X11: a reload followed by a connection of the same account brings the
    game state back from the store, with its missed streak recomputed at
    the clock reading of the connection, and stores it again; the hue of a
    graft and the friend's address typed are not stored, and are gone. *)
Theorem reload_restores (e : Env) (w : World) :
  reachable w -> account w <> "" ->
  let w' := run_actions [AReload; AConnect (account w)] e w in
  local w'
  = with_streak (missed_at (clock e (clock_reads w)) (local w)) (local w)
  /\ loadState (account w) (localStorage w') = local w'
  /\ account w' = account w
  /\ friendHue w' = None
  /\ friendAddress w' = "".
Proof.
  intros Hr Ha.
  assert (Hinv : world_inv w)
    by (destruct Hr as (e0 & acts & ->); apply run_actions_inv, initial_world_inv).
  destruct Hinv as (_ & _ & Hs). specialize (Hs Ha).
  cbv zeta. rewrite (reload_connect_run e w (account w) Ha).
  rewrite on_account_run. cbv zeta.
  cbn [account local localStorage clock_reads].
  apply String.eqb_neq in Ha. rewrite Ha, Hs.
  cbn [bump commit account local friendAddress friendHue localStorage].
  rewrite loadState_saveState.
  destruct (decide _); [|congruence].
  split; [reflexivity|]. split; [reflexivity|]. split; [reflexivity|].
  split; reflexivity.
Qed.

Lemma reload_restores_witness :
  let a := "0x5eC6AF0798b25C563B102d3469971f1a8d598121" in
  let e := {| clock := fun n => 1700000000000 + 90000000 * Z.of_nat n;
              wallet := fun _ => mkWallet true OnMainnet (Ok a) (Ok 1000)
                                   (Ok tt) |} in
  let w := run_actions [AConnect a; APlant] e initial_world in
  missedStreak (local (run_actions [AReload; AConnect a] e w)) = 1.
Proof.
  cbv zeta.
  match goal with
  | |- missedStreak (local (run_actions _ ?e ?w)) = _ =>
      assert (Hr : reachable w) by (eexists _, _; reflexivity);
      assert (Ha : account w <> "") by (vm_compute; discriminate);
      pose proof (reload_restores e w Hr Ha) as H
  end.
  cbv zeta in H. destruct H as (Hl & _).
  match type of Hl with
  | local (run_actions [AReload; AConnect ?x] _ _) = _ =>
      change x with "0x5eC6AF0798b25C563B102d3469971f1a8d598121" in Hl
  end.
  rewrite Hl. vm_compute. reflexivity.
Defined.

(** ** The gates of planting and reviving *)

(** X12: [plant] succeeds exactly when an account is connected, no tree is
    planted (a [plantedAt] that is unset or 0) and the provider confirms the
    call.  It then commits and stores a fresh state: [plantedAt] and
    [lastWateredAt] from two successive readings of the clock, growth 1, no
    missed day, no revival and no graft date, whatever the state held
    before.  On a planted tree it only shows a toast and the wallet is not
    used. *)
Theorem plant_gate (e : Env) (w : World) :
  let t1 := clock e (clock_reads w) in
  let t2 := clock e (S (clock_reads w)) in
  let w' := exec plant e w in
  (committed plant e w = true
   <-> account w <> "" /\ planted_of (local w) = false
       /\ tx_confirms (wallet e (wallet_uses w)) = true)
  /\ (committed plant e w = true ->
      local w' = {| plantedAt := Some t1; growth := 1;
                    lastWateredAt := Some t2; missedStreak := 0;
                    revivedAt := None; lastGraftedAt := None |}
      /\ loadState (account w) (localStorage w') = local w'
      /\ clock_reads w' = S (S (clock_reads w)))
  /\ (account w <> "" -> planted_of (local w) = true ->
      events_of plant e w = [EToast "Already planted."]
      /\ wallet_uses w' = wallet_uses w
      /\ local w' = local w /\ localStorage w' = localStorage w).
Proof.
  intros t1 t2 w'.
  destruct (plant_run e w) as (evs & Hnc & Hrun). cbv zeta in Hrun.
  fold t1 t2 in Hrun. unfold committed, w'.
  destruct (String.eqb_spec (account w) "") as [Ha|Ha].
  { rewrite (events_of_bump _ _ _ _ _ _ _ Hrun eq_refl).
    split; [split; [discriminate | tauto]|].
    split; [discriminate | tauto]. }
  destruct (planted_of (local w)).
  { rewrite (events_of_bump _ _ _ _ _ _ _ Hrun eq_refl).
    split; [split; [discriminate | intros (_ & ? & _); discriminate]|].
    split; [discriminate|]. intros _ _. rewrite Hrun.
    split; [reflexivity|]. split; [reflexivity|]. split; reflexivity. }
  destruct (tx_confirms (wallet e (wallet_uses w))).
  - rewrite (events_of_bump _ _ _ _ _ _ _ Hrun eq_refl).
    rewrite existsb_commit_events. split; [tauto|].
    split; [|discriminate]. intros _. rewrite Hrun.
    cbn [bump commit local localStorage account clock_reads].
    rewrite loadState_saveState.
    destruct (decide _); [|congruence].
    split; [reflexivity|]. split; reflexivity.
  - rewrite (events_of_bump _ _ _ _ _ _ _ Hrun eq_refl), Hnc.
    split; [split; [discriminate | intros (_ & _ & ?); discriminate]|].
    split; discriminate.
Qed.

Lemma plant_gate_witness :
  let a := "0x5eC6AF0798b25C563B102d3469971f1a8d598121" in
  let e := {| clock := fun n => 1700000000000 + Z.of_nat n;
              wallet := fun _ => mkWallet true OnMainnet (Ok a) (Ok 1000)
                                   (Ok tt) |} in
  let w := mkWorld a zero_state "" None ∅ [] 0 0 in
  local (exec plant e w)
  = {| plantedAt := Some 1700000000000; growth := 1;
       lastWateredAt := Some 1700000000001; missedStreak := 0;
       revivedAt := None; lastGraftedAt := None |}.
Proof.
  cbv zeta.
  match goal with
  | |- local (exec plant ?e ?w) = _ =>
      destruct (plant_gate e w) as (Hiff & Hpost & _)
  end.
  cbv zeta in Hiff, Hpost.
  refine (proj1 (Hpost (proj2 Hiff _))).
  split; [discriminate|]. split; reflexivity.
Defined.

(** X13: [revive] succeeds exactly when an account is connected, the tree
    is planted and withered (three missed days or more) and the provider
    confirms the call.  It then commits and stores the state with no missed
    day, [revivedAt] and [lastWateredAt] from two successive readings of the
    clock, and the rest as it was: the tree is no longer withered and its
    health is back to 1, its growth unchanged.  On a planted tree that is not
    withered it only shows a toast and the wallet is not used. *)
Theorem revive_gate (e : Env) (w : World) :
  let t1 := clock e (clock_reads w) in
  let t2 := clock e (S (clock_reads w)) in
  let w' := exec revive e w in
  (committed revive e w = true
   <-> account w <> "" /\ planted_of (local w) = true
       /\ withered_of (local w) = true
       /\ tx_confirms (wallet e (wallet_uses w)) = true)
  /\ (committed revive e w = true ->
      local w' = {| plantedAt := plantedAt (local w);
                    growth := growth (local w);
                    lastWateredAt := Some t2; missedStreak := 0;
                    revivedAt := Some t1;
                    lastGraftedAt := lastGraftedAt (local w) |}
      /\ withered_of (local w') = false
      /\ computeHealth (local w') = 1%Q
      /\ loadState (account w) (localStorage w') = local w')
  /\ (account w <> "" -> planted_of (local w) = true ->
      withered_of (local w) = false ->
      events_of revive e w = [EToast "Your bonsai isn't withered yet."]
      /\ wallet_uses w' = wallet_uses w
      /\ local w' = local w /\ localStorage w' = localStorage w).
Proof.
  intros t1 t2 w'.
  destruct (revive_run e w) as (evs & Hnc & Hrun). cbv zeta in Hrun.
  fold t1 t2 in Hrun. unfold committed, w'.
  assert (Hwi : withered_of (local w) = negb (missedStreak (local w) <? 3)).
  { unfold withered_of.
    destruct (Z.leb_spec 3 (missedStreak (local w)));
      destruct (Z.ltb_spec (missedStreak (local w)) 3); try reflexivity; lia. }
  rewrite Hwi.
  destruct (String.eqb_spec (account w) "") as [Ha|Ha].
  { rewrite (events_of_bump _ _ _ _ _ _ _ Hrun eq_refl).
    split; [split; [discriminate | tauto]|].
    split; [discriminate | tauto]. }
  destruct (planted_of (local w)); cbn [negb] in Hrun.
  2:{ rewrite (events_of_bump _ _ _ _ _ _ _ Hrun eq_refl).
      split; [split; [discriminate | intros (_ & ? & _); discriminate]|].
      split; discriminate. }
  destruct (missedStreak (local w) <? 3); cbn [negb].
  { rewrite (events_of_bump _ _ _ _ _ _ _ Hrun eq_refl).
    split; [split; [discriminate | intros (_ & _ & ? & _); discriminate]|].
    split; [discriminate|]. intros _ _ _. rewrite Hrun.
    split; [reflexivity|]. split; [reflexivity|]. split; reflexivity. }
  destruct (tx_confirms (wallet e (wallet_uses w))).
  - rewrite (events_of_bump _ _ _ _ _ _ _ Hrun eq_refl).
    rewrite existsb_commit_events. split; [tauto|].
    split; [|discriminate]. intros _. rewrite Hrun.
    cbn [bump commit local localStorage account].
    rewrite loadState_saveState.
    destruct (decide _); [|congruence].
    split; [reflexivity|]. split; [reflexivity|]. split; reflexivity.
  - rewrite (events_of_bump _ _ _ _ _ _ _ Hrun eq_refl), Hnc.
    split; [split; [discriminate | intros (_ & _ & _ & ?); discriminate]|].
    split; discriminate.
Qed.

Lemma revive_gate_witness :
  let a := "0x5eC6AF0798b25C563B102d3469971f1a8d598121" in
  let e := {| clock := fun n => 1700000000000 + Z.of_nat n;
              wallet := fun _ => mkWallet true OnMainnet (Ok a) (Ok 1000)
                                   (Ok tt) |} in
  let st := {| plantedAt := Some 1600000000000; growth := 4;
               lastWateredAt := Some 1600000000000; missedStreak := 30;
               revivedAt := None; lastGraftedAt := None |} in
  let w := mkWorld a st "" None ∅ [] 0 0 in
  computeHealth (local (exec revive e w)) = 1%Q.
Proof.
  cbv zeta.
  match goal with
  | |- computeHealth (local (exec revive ?e ?w)) = _ =>
      destruct (revive_gate e w) as (Hiff & Hpost & _)
  end.
  cbv zeta in Hiff, Hpost.
  refine (proj1 (proj2 (proj2 (Hpost (proj2 Hiff _))))).
  split; [discriminate|]. split; [reflexivity|]. split; reflexivity.
Defined.

(** ** What the four game actions have in common *)

Lemma withered_of_ltb (st : LocalState) :
  withered_of st = negb (missedStreak st <? 3).
Proof.
  unfold withered_of.
  destruct (Z.leb_spec 3 (missedStreak st));
    destruct (Z.ltb_spec (missedStreak st) 3); try reflexivity; lia.
Qed.

(** The three exits of a game action: refused before the wallet is used,
    not confirmed, committed. *)
Lemma action_outcome (a : Action) (e : Env) (w : World) :
  List.In a [APlant; AWater; ARevive; AGraft] ->
  exists (w0 : World) (evs : list Event) (k : nat),
    (w0 = w \/ a = AGraft /\ exists hue, w0 = with_hue hue w)
    /\ ((List.existsb is_commit evs = false
         /\ exec (run_action a) e w = bump evs k 0 w)
        \/ (tx_confirms (wallet e (wallet_uses w)) = false
            /\ List.existsb is_commit evs = false
            /\ exec (run_action a) e w = bump evs k 1 w0)
        \/ (tx_confirms (wallet e (wallet_uses w)) = true
            /\ account w <> ""
            /\ List.existsb is_commit evs = true
            /\ exists next,
                 exec (run_action a) e w = bump evs k 1 (commit next w0))).
Proof.
  intros [<-|[<-|[<-|[<-|[]]]]]; cbn [run_action].
  - destruct (plant_run e w) as (evs & Hnc & Hrun). cbv zeta in Hrun.
    destruct (String.eqb_spec (account w) "") as [Ha|Ha];
      [eexists w, _, _; split; [left; reflexivity|];
       left; split; [|exact Hrun]; reflexivity|].
    destruct (planted_of (local w));
      [eexists w, _, _; split; [left; reflexivity|];
       left; split; [|exact Hrun]; reflexivity|].
    destruct (tx_confirms (wallet e (wallet_uses w))).
    + eexists w, _, _. split; [left; reflexivity|]. right; right.
      split; [reflexivity|]. split; [exact Ha|].
      split; [|eexists; exact Hrun]. apply existsb_commit_events.
    + eexists w, _, _. split; [left; reflexivity|]. right; left.
      split; [reflexivity|]. split; [exact Hnc | exact Hrun].
  - destruct (water_run e w) as (evs & Hnc & Hrun). cbv zeta in Hrun.
    destruct (String.eqb_spec (account w) "") as [Ha|Ha];
      [eexists w, _, _; split; [left; reflexivity|];
       left; split; [|exact Hrun]; reflexivity|].
    destruct (planted_of (local w)); cbn [negb] in Hrun;
      [|eexists w, _, _; split; [left; reflexivity|];
        left; split; [|exact Hrun]; reflexivity].
    destruct (canWater_at _ (local w)); cbn [negb] in Hrun;
      [|eexists w, _, _; split; [left; reflexivity|];
        left; split; [|exact Hrun]; reflexivity].
    destruct (tx_confirms (wallet e (wallet_uses w))).
    + eexists w, _, _. split; [left; reflexivity|]. right; right.
      split; [reflexivity|]. split; [exact Ha|].
      split; [|eexists; exact Hrun]. apply existsb_commit_events.
    + eexists w, _, _. split; [left; reflexivity|]. right; left.
      split; [reflexivity|]. split; [exact Hnc | exact Hrun].
  - destruct (revive_run e w) as (evs & Hnc & Hrun). cbv zeta in Hrun.
    destruct (String.eqb_spec (account w) "") as [Ha|Ha];
      [eexists w, _, _; split; [left; reflexivity|];
       left; split; [|exact Hrun]; reflexivity|].
    destruct (planted_of (local w)); cbn [negb] in Hrun;
      [|eexists w, _, _; split; [left; reflexivity|];
        left; split; [|exact Hrun]; reflexivity].
    destruct (missedStreak (local w) <? 3);
      [eexists w, _, _; split; [left; reflexivity|];
       left; split; [|exact Hrun]; reflexivity|].
    destruct (tx_confirms (wallet e (wallet_uses w))).
    + eexists w, _, _. split; [left; reflexivity|]. right; right.
      split; [reflexivity|]. split; [exact Ha|].
      split; [|eexists; exact Hrun]. apply existsb_commit_events.
    + eexists w, _, _. split; [left; reflexivity|]. right; left.
      split; [reflexivity|]. split; [exact Hnc | exact Hrun].
  - destruct (graft_run e w) as (evs & Hnc & Hrun). cbv zeta in Hrun.
    destruct (String.eqb_spec (account w) "") as [Ha|Ha];
      [eexists w, _, _; split; [left; reflexivity|];
       left; split; [|exact Hrun]; reflexivity|].
    destruct (planted_of (local w)); cbn [negb] in Hrun;
      [|eexists w, _, _; split; [left; reflexivity|];
        left; split; [|exact Hrun]; reflexivity].
    destruct (isLikelyAddress _); cbn [negb] in Hrun;
      [|eexists w, _, _; split; [left; reflexivity|];
        left; split; [|exact Hrun]; reflexivity].
    destruct (tx_confirms (wallet e (wallet_uses w))).
    + eexists (with_hue _ w), _, _.
      split; [right; split; [reflexivity | eexists; reflexivity]|].
      right; right.
      split; [reflexivity|]. split; [exact Ha|].
      split; [|eexists; exact Hrun].
      cbn [List.existsb is_commit orb]. apply existsb_commit_events.
    + eexists (with_hue _ w), _, _.
      split; [right; split; [reflexivity | eexists; reflexivity]|].
      right; left.
      split; [reflexivity|]. split; [|exact Hrun].
      cbn [List.existsb is_commit orb]. exact Hnc.
Qed.

(** X14: each of [plant], [water], [revive] and [graft] leaves the account
    and the friend's address as they are, only adds to the sequence of
    effects, and uses the wallet at most once.  When it does not commit, the
    game state and the store are unchanged.  When it commits, an account is
    connected, the wallet was used exactly once and confirmed, and the store
    differs from the one before by the record of the connected account,
    which is the committed state.  Only [graft] changes the accent hue. *)
Theorem commit_protocol (a : Action) (e : Env) (w : World) :
  List.In a [APlant; AWater; ARevive; AGraft] ->
  let w' := exec (run_action a) e w in
  account w' = account w
  /\ friendAddress w' = friendAddress w
  /\ (exists evs, trace w' = (trace w ++ evs)%list)
  /\ (wallet_uses w' = wallet_uses w \/ wallet_uses w' = S (wallet_uses w))
  /\ (committed (run_action a) e w = false ->
      local w' = local w /\ localStorage w' = localStorage w)
  /\ (committed (run_action a) e w = true ->
      account w <> ""
      /\ tx_confirms (wallet e (wallet_uses w)) = true
      /\ wallet_uses w' = S (wallet_uses w)
      /\ localStorage w' = saveState (account w) (local w') (localStorage w))
  /\ (a <> AGraft -> friendHue w' = friendHue w).
Proof.
  intros Hin w'.
  destruct (action_outcome a e w Hin) as (w0 & evs & k & Hw0 & Hout).
  assert (Hsame : account w0 = account w /\ friendAddress w0 = friendAddress w
                  /\ trace w0 = trace w /\ wallet_uses w0 = wallet_uses w
                  /\ local w0 = local w /\ localStorage w0 = localStorage w
                  /\ (a <> AGraft -> friendHue w0 = friendHue w)).
  { destruct Hw0 as [->|(-> & hue & ->)].
    - repeat split; reflexivity.
    - split; [reflexivity|]. split; [reflexivity|]. split; [reflexivity|].
      split; [reflexivity|]. split; [reflexivity|]. split; [reflexivity|].
      intros H. now contradiction H. }
  destruct Hsame as (Sa & Sf & St & Su & Sl & Ss & Sh).
  unfold committed, w'.
  destruct Hout as [(Hnc & Hrun)|[(Htx & Hnc & Hrun)|(Htx & Ha & Hc & next & Hrun)]].
  - rewrite (events_of_bump _ _ _ _ _ _ _ Hrun eq_refl), Hnc, Hrun.
    split; [reflexivity|]. split; [reflexivity|].
    split; [eexists; reflexivity|]. split; [left; reflexivity|].
    split; [intros _; split; reflexivity|].
    split; [discriminate | intros _; reflexivity].
  - rewrite (events_of_bump _ _ _ _ _ _ _ Hrun St), Hnc, Hrun.
    cbn [bump account friendAddress trace wallet_uses local localStorage
         friendHue Nat.add].
    rewrite Sa, Sf, St, Su, Sl, Ss.
    split; [reflexivity|]. split; [reflexivity|].
    split; [eexists; reflexivity|]. split; [right; reflexivity|].
    split; [intros _; split; reflexivity|].
    split; [discriminate | exact Sh].
  - rewrite (events_of_bump _ _ _ _ _ _ _ Hrun St), Hc, Hrun.
    cbn [bump commit account friendAddress trace wallet_uses local
         localStorage friendHue Nat.add].
    rewrite Sa, Sf, St, Su, Ss.
    split; [reflexivity|]. split; [reflexivity|].
    split; [eexists; reflexivity|]. split; [right; reflexivity|].
    split; [discriminate|].
    split; [|exact Sh]. intros _.
    split; [exact Ha|]. split; [exact Htx|]. split; reflexivity.
Qed.

Lemma commit_protocol_witness :
  let a := "0x5eC6AF0798b25C563B102d3469971f1a8d598121" in
  let e := {| clock := fun n => 1700000000000 + Z.of_nat n;
              wallet := fun _ => mkWallet true OnMainnet (Ok a) (Ok 1000)
                                   (Throw "User rejected the request.") |} in
  let w := mkWorld a zero_state "" None ∅ [] 0 0 in
  local (exec plant e w) = zero_state
  /\ localStorage (exec plant e w) = ∅.
Proof.
  cbv zeta.
  match goal with
  | |- local (exec plant ?e ?w) = _ /\ _ =>
      pose proof (commit_protocol APlant e w (or_introl eq_refl)) as H
  end.
  cbv zeta in H. destruct H as (_ & _ & _ & _ & Hno & _).
  apply Hno. vm_compute. reflexivity.
Defined.

(** ** The cooldown that follows a success *)

Ltac no_commit Hc Hrun Hnc :=
  exfalso; unfold committed in Hc;
  rewrite (events_of_bump _ _ _ _ _ _ _ Hrun eq_refl) in Hc;
  first [discriminate Hc | rewrite Hnc in Hc; discriminate Hc].

(** What [plant], [water] and [revive] have done when they commit. *)
Lemma committed_run (a : Action) (e : Env) (w : World) :
  List.In a [APlant; AWater; ARevive] ->
  committed (run_action a) e w = true ->
  exists evs k next,
    exec (run_action a) e w = bump evs (S k) 1 (commit next w)
    /\ lastWateredAt next = Some (clock e (k + clock_reads w)%nat)
    /\ missedStreak next = 0.
Proof.
  intros [<-|[<-|[<-|[]]]] Hc; cbn [run_action] in *.
  - destruct (plant_run e w) as (evs & Hnc & Hrun). cbv zeta in Hrun.
    destruct (String.eqb (account w) ""); [no_commit Hc Hrun Hnc|].
    destruct (planted_of (local w)); [no_commit Hc Hrun Hnc|].
    destruct (tx_confirms _); [|no_commit Hc Hrun Hnc].
    eexists _, 1%nat, _. split; [exact Hrun|]. split; reflexivity.
  - destruct (water_run e w) as (evs & Hnc & Hrun). cbv zeta in Hrun.
    destruct (String.eqb (account w) ""); [no_commit Hc Hrun Hnc|].
    destruct (planted_of (local w)); cbn [negb] in Hrun;
      [|no_commit Hc Hrun Hnc].
    destruct (canWater_at _ (local w)); cbn [negb] in Hrun;
      [|no_commit Hc Hrun Hnc].
    destruct (tx_confirms _); [|no_commit Hc Hrun Hnc].
    eexists _, _, _. split; [exact Hrun|]. split; reflexivity.
  - destruct (revive_run e w) as (evs & Hnc & Hrun). cbv zeta in Hrun.
    destruct (String.eqb (account w) ""); [no_commit Hc Hrun Hnc|].
    destruct (planted_of (local w)); cbn [negb] in Hrun;
      [|no_commit Hc Hrun Hnc].
    destruct (missedStreak (local w) <? 3); [no_commit Hc Hrun Hnc|].
    destruct (tx_confirms _); [|no_commit Hc Hrun Hnc].
    eexists _, 1%nat, _. split; [exact Hrun|]. split; reflexivity.
Qed.

(** [water] during the cooldown: a toast at most, no use of the wallet. *)
Lemma water_blocked (e : Env) (w : World) :
  canWater_at (clock e (clock_reads w)) (local w) = false ->
  exists evs k,
    exec water e w = bump evs k 0 w
    /\ List.existsb is_commit evs = false.
Proof.
  intros Hcw. destruct (water_run e w) as (evs & _ & Hrun).
  cbv zeta in Hrun. rewrite Hcw in Hrun. cbn [negb] in Hrun.
  destruct (String.eqb (account w) "");
    [eexists _, _; split; [exact Hrun | reflexivity]|].
  destruct (negb (planted_of (local w)));
    eexists _, _; (split; [exact Hrun | reflexivity]).
Qed.

(** X15: when [plant], [water] or [revive] commits, the committed state has
    no missed day and its [lastWateredAt] is the last reading of the clock
    the action took; unless that reading is 0, a [water] that follows while
    the clock is less than one hour (3 600 000 ms) past it commits nothing,
    leaves the game state as it is and does not use the wallet. *)
Theorem cooldown_after_commit (a : Action) (e : Env) (w : World) :
  List.In a [APlant; AWater; ARevive] ->
  committed (run_action a) e w = true ->
  let w' := exec (run_action a) e w in
  let t := clock e (Nat.pred (clock_reads w')) in
  lastWateredAt (local w') = Some t
  /\ missedStreak (local w') = 0
  /\ (t <> 0 -> clock e (clock_reads w') - t < 3600000 ->
      committed water e w' = false
      /\ wallet_uses (exec water e w') = wallet_uses w'
      /\ local (exec water e w') = local w'
      /\ localStorage (exec water e w') = localStorage w').
Proof.
  intros Hin Hc w' t.
  destruct (committed_run a e w Hin Hc) as (evs & k & next & Hrun & Hl & Hm).
  assert (Hloc : local w' = next) by (unfold w'; rewrite Hrun; reflexivity).
  assert (Hcr : clock_reads w' = S (k + clock_reads w))
    by (unfold w'; rewrite Hrun; reflexivity).
  assert (Ht : t = clock e (k + clock_reads w)%nat)
    by (unfold t; rewrite Hcr; reflexivity).
  rewrite Hloc, Ht. split; [exact Hl|]. split; [exact Hm|].
  intros Hnz Hlt.
  assert (Hcw : canWater_at (clock e (clock_reads w')) (local w') = false).
  { apply canWater_false. rewrite Hloc. eexists. split; [exact Hl|].
    split; [exact Hnz | exact Hlt]. }
  destruct (water_blocked e w' Hcw) as (evs' & k' & Hrun' & Hnc').
  unfold committed.
  rewrite (events_of_bump _ _ _ _ _ _ _ Hrun' eq_refl), Hnc', Hrun'.
  cbn [bump wallet_uses local localStorage Nat.add]. rewrite Hloc.
  split; [reflexivity|]. split; [reflexivity|]. split; reflexivity.
Qed.

Lemma cooldown_after_commit_witness :
  let a := "0x5eC6AF0798b25C563B102d3469971f1a8d598121" in
  let e := {| clock := fun n => 1700000000000 + 60000 * Z.of_nat n;
              wallet := fun _ => mkWallet true OnMainnet (Ok a) (Ok 1000)
                                   (Ok tt) |} in
  let w := mkWorld a zero_state "" None ∅ [] 0 0 in
  committed water e (exec plant e w) = false.
Proof.
  cbv zeta.
  match goal with
  | |- committed water ?e (exec plant ?e ?w) = _ =>
      pose proof (cooldown_after_commit APlant e w (or_introl eq_refl)) as H
  end.
  cbv zeta in H. cbn [run_action] in H.
  refine (proj1 (proj2 (proj2 (H _)) _ _)).
  - vm_compute. reflexivity.
  - vm_compute. discriminate.
  - vm_compute. reflexivity.
Defined.

(** ** What the component shows *)

(** X16: the Health pill reads Withered exactly from three missed days on,
    Vibrant with one missed day at most, Tired with two; its fourth text,
    Fading, is never shown. *)
Theorem health_pill_texts (st : LocalState) :
  health_pill st <> "Fading"
  /\ (health_pill st = "Withered" <-> 3 <= missedStreak st)
  /\ (health_pill st = "Vibrant" <-> missedStreak st <= 1)
  /\ (health_pill st = "Tired" <-> missedStreak st = 2).
Proof.
  unfold health_pill, withered_of, computeHealth.
  destruct (Z.leb_spec 3 (missedStreak st)) as [H3|H3].
  { split; [discriminate|]. split; [tauto|].
    split; (split; [discriminate | lia]). }
  destruct (Z.leb_spec (missedStreak st) 0) as [H0|H0];
    [|destruct (Z.eqb_spec (missedStreak st) 1) as [H1|H1];
      [|destruct (Z.eqb_spec (missedStreak st) 2) as [H2|H2]; [|lia]]].
  - change (Qltb (8 # 10) 1) with true. cbv iota.
    split; [discriminate|]. split; [split; [discriminate | lia]|].
    split; [split; [lia | reflexivity] | split; [discriminate | lia]].
  - change (Qltb (8 # 10) (86 # 100)) with true. cbv iota.
    split; [discriminate|]. split; [split; [discriminate | lia]|].
    split; [split; [lia | reflexivity] | split; [discriminate | lia]].
  - change (Qltb (8 # 10) (68 # 100)) with false.
    change (Qltb (6 # 10) (68 # 100)) with true. cbv iota.
    split; [discriminate|]. split; [split; [discriminate | lia]|].
    split; [split; [discriminate | lia] | split; [lia | reflexivity]].
Qed.

(** X17: the Revive button is enabled exactly when [revive] would go as far
    as the wallet; while it is disabled a call of [revive] shows one toast
    and changes neither the game state nor the store. *)
Theorem revive_button_gate (e : Env) (w : World) :
  let w' := exec revive e w in
  (revive_button_disabled w = false
   <-> wallet_uses w' = S (wallet_uses w))
  /\ (revive_button_disabled w = true ->
      (exists msg, events_of revive e w = [EToast msg])
      /\ local w' = local w /\ localStorage w' = localStorage w).
Proof.
  intros w'. unfold revive_button_disabled, w'.
  rewrite withered_of_ltb, negb_involutive.
  destruct (revive_run e w) as (evs & Hnc & Hrun). cbv zeta in Hrun.
  destruct (String.eqb (account w) ""); cbn [orb].
  { rewrite (events_of_bump _ _ _ _ _ _ _ Hrun eq_refl), Hrun.
    cbn [bump wallet_uses local localStorage Nat.add].
    split; [split; [discriminate | lia]|].
    intros _. split; [eexists; reflexivity | split; reflexivity]. }
  destruct (planted_of (local w)); cbn [negb orb] in *.
  2:{ rewrite (events_of_bump _ _ _ _ _ _ _ Hrun eq_refl), Hrun.
      cbn [bump wallet_uses local localStorage Nat.add].
      split; [split; [discriminate | lia]|].
      intros _. split; [eexists; reflexivity | split; reflexivity]. }
  destruct (missedStreak (local w) <? 3).
  { rewrite (events_of_bump _ _ _ _ _ _ _ Hrun eq_refl), Hrun.
    cbn [bump wallet_uses local localStorage Nat.add].
    split; [split; [discriminate | lia]|].
    intros _. split; [eexists; reflexivity | split; reflexivity]. }
  split; [|discriminate]. split; [intros _|reflexivity].
  rewrite Hrun. destruct (tx_confirms _); reflexivity.
Qed.

Lemma revive_button_gate_witness :
  let e := {| clock := fun _ => 1700000000000;
              wallet := fun _ => mkWallet true OnMainnet (Ok "") (Ok 1000)
                                   (Ok tt) |} in
  let st := {| plantedAt := Some 1600000000000; growth := 4;
               lastWateredAt := Some 1600000000000; missedStreak := 2;
               revivedAt := None; lastGraftedAt := None |} in
  let w := mkWorld "0x5eC6AF0798b25C563B102d3469971f1a8d598121" st ""
             None ∅ [] 0 0 in
  local (exec revive e w) = st.
Proof.
  cbv zeta.
  match goal with
  | |- local (exec revive ?e ?w) = _ =>
      destruct (revive_button_gate e w) as (_ & H)
  end.
  exact (proj1 (proj2 (H eq_refl))).
Defined.

(** X18: in every world the program reaches, the growth the renderer is
    given is the number the Growth pill shows (the guard [Math.max(1, ...)]
    of the frame never fires); so the tree has depth
    [clamp(3 + floor(growth / 1.5), 3, 10)] of the growth shown: 3 while no
    tree is planted, and the largest depth, 10, exactly from growth 11
    on. *)
Theorem growth_drawn_is_shown (w : World) (rich act brz : Q) :
  reachable w ->
  let p := frame_params w rich act brz in
  p_growth p = inject_Z (growth_pill (local w))
  /\ maxDepth p
     = Z.max 3 (Z.min 10 (3 + 2 * growth_pill (local w) / 3))
  /\ (maxDepth p = 10 <-> 11 <= growth_pill (local w))
  /\ (planted_of (local w) = false -> maxDepth p = 3).
Proof.
  intros (e & acts & ->).
  pose proof (run_actions_ok acts e _ initial_world_ok) as [Hg _].
  set (w := run_actions acts e initial_world) in *. cbv zeta.
  assert (Hp : p_growth (frame_params w rich act brz)
               = inject_Z (growth_pill (local w))).
  { unfold frame_params, growth_pill. cbn [p_growth].
    destruct (planted_of (local w)) eqn:Hpl; [|reflexivity].
    f_equal. apply Z.max_r. apply Hg. unfold planted_of in Hpl.
    destruct (plantedAt (local w)); [discriminate | discriminate Hpl]. }
  unfold maxDepth. rewrite Hp, maxDepth_of_formula.
  split; [reflexivity|]. split; [reflexivity|].
  split; [split; intros H; Z.div_mod_to_equations; lia|].
  intros Hpl. unfold growth_pill. rewrite Hpl. reflexivity.
Qed.

Lemma growth_drawn_is_shown_witness :
  let a := "0x5eC6AF0798b25C563B102d3469971f1a8d598121" in
  let e := {| clock := fun n => 1700000000000 + 7200000 * Z.of_nat n;
              wallet := fun _ => mkWallet true OnMainnet (Ok a) (Ok 1000)
                                   (Ok tt) |} in
  let w := run_actions [AConnect a; APlant; AWater; AWater] e initial_world in
  maxDepth (frame_params w 0.5 0.5 0.5) = 5.
Proof.
  cbv zeta.
  match goal with
  | |- maxDepth (frame_params ?w _ _ _) = _ =>
      assert (Hr : reachable w) by (eexists _, _; reflexivity);
      pose proof (growth_drawn_is_shown w 0.5 0.5 0.5 Hr) as H
  end.
  cbv zeta in H. destruct H as (_ & Hd & _).
  rewrite Hd. vm_compute. reflexivity.
Defined.

(** ** The main button *)



(** ** The request of a game action *)






Lemma includes_cons (n s : string) (c : ascii) :
  includes n s = true -> includes n (String c s) = true.
Proof.
  intros H. cbn [includes]. rewrite H. apply orb_true_r.
Qed.

Lemma includes_of_prefix (n s : string) :
  String.prefix n s = true -> includes n s = true.
Proof.
  intros H. destruct s; cbn [includes]; rewrite H; reflexivity.
Qed.

Lemma prefix_app_includes (a b : string) :
  forall s, String.prefix (a ++ b) s = true -> includes b s = true.
Proof.
  induction a as [|c a IH]; intros s H.
  - apply includes_of_prefix. exact H.
  - rewrite str_app_cons in H. destruct s as [|d s]; [discriminate H|].
    cbn [String.prefix] in H.
    destruct (ascii_dec c d); [|discriminate H].
    apply includes_cons, IH, H.
Qed.

Lemma includes_app (a b : string) :
  forall s, includes (a ++ b) s = true -> includes b s = true.
Proof.
  induction s as [|d s IH]; intros H; cbn [includes] in H;
    apply orb_prop in H as [H|H].
  - now apply (prefix_app_includes a).
  - discriminate H.
  - now apply (prefix_app_includes a).
  - apply includes_cons, IH, H.
Qed.

(** X21: the [catch] of [sendGameTx] answers [false] and shows one toast:
    Canceled in wallet, exactly when the message of the error, in lower
    case, contains rejected (the test for user rejected decides nothing);
    otherwise the message itself, or Transaction failed when there is
    none. *)
Theorem tx_catch_toast (message : string) (e : Env) (w : World) :
  tx_catch message e w
  = (false,
     emit (EToast (if includes "rejected" (Str.toLowerCase message)
                   then "Canceled in wallet."
                   else if String.eqb message "" then "Transaction failed."
                        else message)) w).
Proof.
  unfold tx_catch, message_or.
  destruct (includes "rejected" (Str.toLowerCase message)) eqn:Hr.
  - rewrite orb_true_r. reflexivity.
  - destruct (includes "user rejected" (Str.toLowerCase message)) eqn:Hu.
    + apply (includes_app "user " "rejected") in Hu. congruence.
    + reflexivity.
Qed.

(** ** The store *)

Lemma lookup_commit (st : LocalState) (w : World) (key : string) :
  key <> lsKey (account w) ->
  localStorage (commit st w) !! key = localStorage w !! key.
Proof.
  intros H. unfold commit, saveState. cbn [localStorage].
  apply lookup_insert_ne. congruence.
Qed.

Lemma action_store (a : Action) (e : Env) (w : World) (key : string) :
  List.In a [APlant; AWater; ARevive; AGraft] ->
  key <> lsKey (account w) ->
  localStorage (exec (run_action a) e w) !! key = localStorage w !! key.
Proof.
  intros Hin Hk.
  destruct (action_outcome a e w Hin) as (w0 & evs & k & Hw0 & Hout).
  assert (Hs : account w0 = account w /\ localStorage w0 = localStorage w)
    by (destruct Hw0 as [->|(_ & hue & ->)]; split; reflexivity).
  destruct Hs as [Sa Ss].
  destruct Hout as [(_ & ->)|[(_ & _ & ->)|(_ & _ & _ & next & ->)]];
    cbn [bump localStorage].
  - reflexivity.
  - now rewrite Ss.
  - rewrite lookup_commit by (rewrite Sa; exact Hk). now rewrite Ss.
Qed.

Lemma lsKey_inj (a b : string) :
  lsKey a = lsKey b <-> Str.toLowerCase a = Str.toLowerCase b.
Proof.
  unfold lsKey. split; [|intros ->; reflexivity].
  intros H. rewrite !(str_app_cons) in H.
  repeat (rewrite ?str_app_cons in H; injection H as H).
  exact H.
Qed.

(** X22: the store is keyed by the account in lower case.  Whatever the
    user or the host does, the one item that can change is the one of the
    account connected afterwards: every other item of the store stays as it
    is, so the record of an account whose lower-case form differs is read
    back unchanged.  Two spellings of an address that differ in case share
    one record. *)
Theorem store_isolation (a : Action) (e : Env) (w : World) :
  let w' := exec (run_action a) e w in
  (forall key, key <> lsKey (account w') ->
               localStorage w' !! key = localStorage w !! key)
  /\ (forall other,
        Str.toLowerCase other <> Str.toLowerCase (account w') ->
        loadState other (localStorage w') = loadState other (localStorage w))
  /\ (forall addr ls,
        loadState (Str.toLowerCase addr) ls = loadState addr ls).
Proof.
  cbv zeta.
  assert (H1 : forall key,
             key <> lsKey (account (exec (run_action a) e w)) ->
             localStorage (exec (run_action a) e w) !! key
             = localStorage w !! key).
  { intros key Hk. destruct a.
    - apply action_store; [cbn; tauto|].
      destruct (action_outcome APlant e w ltac:(cbn; tauto))
        as (w0 & evs & k & Hw0 & Hout).
      intros E. apply Hk. rewrite E. f_equal.
      destruct Hw0 as [->|(_ & hue & ->)];
        destruct Hout as [(_ & ->)|[(_ & _ & ->)|(_ & _ & _ & next & ->)]];
        reflexivity.
    - apply action_store; [cbn; tauto|].
      destruct (action_outcome AWater e w ltac:(cbn; tauto))
        as (w0 & evs & k & Hw0 & Hout).
      intros E. apply Hk. rewrite E. f_equal.
      destruct Hw0 as [->|(_ & hue & ->)];
        destruct Hout as [(_ & ->)|[(_ & _ & ->)|(_ & _ & _ & next & ->)]];
        reflexivity.
    - apply action_store; [cbn; tauto|].
      destruct (action_outcome ARevive e w ltac:(cbn; tauto))
        as (w0 & evs & k & Hw0 & Hout).
      intros E. apply Hk. rewrite E. f_equal.
      destruct Hw0 as [->|(_ & hue & ->)];
        destruct Hout as [(_ & ->)|[(_ & _ & ->)|(_ & _ & _ & next & ->)]];
        reflexivity.
    - apply action_store; [cbn; tauto|].
      destruct (action_outcome AGraft e w ltac:(cbn; tauto))
        as (w0 & evs & k & Hw0 & Hout).
      intros E. apply Hk. rewrite E. f_equal.
      destruct Hw0 as [->|(_ & hue & ->)];
        destruct Hout as [(_ & ->)|[(_ & _ & ->)|(_ & _ & _ & next & ->)]];
        reflexivity.
    - cbn [run_action] in *. rewrite main_button_run in *.
      destruct (String.eqb (account w) ""); [reflexivity|].
      destruct (planted_of (local w)).
      + destruct (negb _ || _); [reflexivity|].
        set (w1 := tick (reads_of (lastWateredAt (local w))) w) in *.
        change (localStorage w) with (localStorage w1).
        apply (action_store AWater); [cbn; tauto|].
        destruct (action_outcome AWater e w1 ltac:(cbn; tauto))
          as (w0 & evs & k & Hw0 & Hout).
        intros E. apply Hk. rewrite E. f_equal. cbn [run_action] in Hout.
        destruct Hw0 as [->|(_ & hue & ->)];
          destruct Hout as [(_ & ->)|[(_ & _ & ->)|(_ & _ & _ & next & ->)]];
          reflexivity.
      + destruct (withered_of (local w)); [reflexivity|].
        apply (action_store APlant); [cbn; tauto|].
        destruct (action_outcome APlant e w ltac:(cbn; tauto))
          as (w0 & evs & k & Hw0 & Hout).
        intros E. apply Hk. rewrite E. f_equal. cbn [run_action] in Hout.
        destruct Hw0 as [->|(_ & hue & ->)];
          destruct Hout as [(_ & ->)|[(_ & _ & ->)|(_ & _ & _ & next & ->)]];
          reflexivity.
    - cbn [run_action] in *. unfold exec, connect_as in *.
      destruct (String.eqb addr (account w)); [reflexivity|].
      match goal with
      | |- context [on_account e ?W] =>
          pose proof (on_account_run e W) as Hrun
      end.
      cbv zeta in Hrun. unfold exec in Hrun.
      cbn [account localStorage clock_reads] in Hrun.
      rewrite Hrun in *.
      destruct (String.eqb addr ""); [reflexivity|].
      cbn [bump localStorage]. rewrite lookup_commit; [reflexivity|].
      exact Hk.
    - reflexivity.
    - reflexivity. }
  split; [exact H1|]. split.
  - intros other Hne. unfold loadState. rewrite H1; [reflexivity|].
    intros E. apply lsKey_inj in E. exact (Hne E).
  - intros addr ls. unfold loadState, lsKey. now rewrite toLowerCase_idem.
Qed.

Lemma store_isolation_witness :
  let a := "0x5eC6AF0798b25C563B102d3469971f1a8d598121" in
  let b := "0x833589fCD6eDb6E08f4c7C32D4f71b54bdA02913" in
  let e := {| clock := fun n => 1700000000000 + Z.of_nat n;
              wallet := fun _ => mkWallet true OnMainnet (Ok a) (Ok 1000)
                                   (Ok tt) |} in
  let w := run_actions [AConnect b; APlant; AConnect a] e initial_world in
  loadState b (localStorage (exec (run_action APlant) e w))
  = loadState b (localStorage w).
Proof.
  cbv zeta.
  match goal with
  | |- loadState ?b (localStorage (exec (run_action ?a) ?e ?w)) = _ =>
      destruct (store_isolation a e w) as (_ & H & _)
  end.
  apply H. vm_compute. discriminate.
Defined.

(** ** The renderer: what the tree depends on *)



(** ** The renderer: blooms *)

Lemma paints_ret (P : Mark -> Prop) {A} (a : A) : paints P (rret a).
Proof.
  intros s b s' [= _ <-]. exists []. now rewrite List.app_nil_r.
Qed.

Lemma paints_stop (P : Mark -> Prop) {A} :
  paints P (fun _ : RState => @None (A * RState)).
Proof. intros s a s' H. discriminate H. Qed.

Lemma paints_bind (P : Mark -> Prop) {A B} (m : R A) (k : A -> R B) :
  paints P m -> (forall a, paints P (k a)) -> paints P (rbind m k).
Proof.
  intros Hm Hk s b s'' H. unfold rbind in H.
  destruct (m s) as [[a s']|] eqn:E; [|discriminate].
  destruct (Hm s a s' E) as (n1 & E1 & F1).
  destruct (Hk a s' b s'' H) as (n2 & E2 & F2).
  exists (n1 ++ n2)%list. rewrite E2, E1, List.app_assoc.
  split; [reflexivity | now apply List.Forall_app].
Qed.

Lemma paints_rng_call (P : Mark -> Prop) : paints P rng_call.
Proof.
  intros s x s' H. unfold rng_call in H.
  destruct (mulberry32_next (rng s)) as [a' y]. injection H as _ <-.
  exists []. now rewrite List.app_nil_r.
Qed.

Lemma paints_rng_reset (P : Mark -> Prop) (a : num) : paints P (rng_reset a).
Proof.
  intros s x s' [= _ <-]. exists []. now rewrite List.app_nil_r.
Qed.

Lemma paints_random_call (P : Mark -> Prop) (rnd : nat -> Q) :
  paints P (random_call rnd).
Proof.
  intros s x s' [= _ <-]. exists []. now rewrite List.app_nil_r.
Qed.

Lemma paints_paint (P : Mark -> Prop) (m : Mark) : P m -> paints P (paint m).
Proof.
  intros Hm s x s' [= _ <-]. exists [m].
  split; [reflexivity | now constructor].
Qed.

Lemma paints_for_loop (P : Mark -> Prop) (n : nat) (body : Z -> R unit) :
  (forall i, paints P (body i)) ->
  forall start, paints P (for_loop n start body).
Proof.
  intros Hb. induction n as [|n IH]; intros start; cbn [for_loop].
  - apply paints_ret.
  - apply paints_bind; [apply Hb | intros _; apply IH].
Qed.

Lemma paints_leaf_body (pi : Q) (rnd : nat -> Q) (p : BonsaiParams)
  (ex ey : Q) (i : Z) :
  paints (bloom_of p) (leaf_body pi rnd p ex ey i).
Proof.
  unfold leaf_body, drawLeaf.
  apply paints_bind; [apply paints_rng_call | intros r1].
  apply paints_bind; [apply paints_rng_call | intros r2].
  apply paints_bind; [apply paints_rng_call | intros r3].
  apply paints_bind.
  { apply paints_bind; [apply paints_random_call | intros r].
    apply paints_paint. exact I. }
  intros _.
  apply paints_bind; [apply paints_rng_call | intros r4].
  destruct (Qltb r4 (bloomChance p)), (p_friendHue p) as [hue|] eqn:Hh;
    try apply paints_ret.
  apply paints_bind; [apply paints_rng_call | intros r5].
  unfold drawBloom. apply paints_paint. exact Hh.
Qed.

Ltac paints_step rec :=
  cbv beta zeta;
  lazymatch goal with
  | |- paints _ (rret _) => apply paints_ret
  | |- paints _ rng_call => apply paints_rng_call
  | |- paints _ (rng_reset _) => apply paints_rng_reset
  | |- paints _ (random_call _) => apply paints_random_call
  | |- paints _ (paint _) => apply paints_paint; exact I
  | |- paints _ (leaf_body _ _ _ _ _ _) => apply paints_leaf_body
  | |- paints _ (branch _ _ _ _ _ _ _ _ _ _ _ _) => rec
  | |- paints _ (for_loop _ _ _) => apply paints_for_loop; intros ?
  | |- paints _ (rbind _ _) => apply paints_bind; [|intros ?]
  | |- paints _ (if ?c then _ else _) => destruct c
  end.

Lemma paints_branch (cos sin : Q -> Q) (pi : Q) (rnd : nat -> Q)
  (p : BonsaiParams) (fuel : nat) :
  forall (x y ang len thick : Q) (depth : Z),
    paints (bloom_of p) (branch cos sin pi rnd p fuel x y ang len thick depth).
Proof.
  induction fuel as [|fuel IH]; intros x y ang len thick depth.
  - apply paints_stop.
  - cbn [branch]. unfold drawInkStroke, leaves.
    repeat paints_step ltac:(apply IH).
Qed.

(** X24: every bloom of a painting has the accent hue of the parameters; a
    render pass without an accent hue paints no bloom. *)
Theorem blooms_have_the_hue (cos sin : Q -> Q) (pi : Q) (rnd : nat -> Q)
  (w h : Q) (p : BonsaiParams) (ix : nat) :
  exists s,
    renderBonsai cos sin pi rnd w h p render_fuel (blank_canvas ix)
    = Some (tt, s)
    /\ (forall hue, List.In (SBloom hue) (topology s) ->
                    p_friendHue p = Some hue)
    /\ (p_friendHue p = None ->
        forall hue, ~ List.In (SBloom hue) (topology s)).
Proof.
  destruct (keeps_renderBonsai cos sin pi rnd w h p render_fuel
              ltac:(unfold render_fuel; lia) (blank_canvas ix))
    as ([] & s & Hrun & _); [constructor|].
  exists s. split; [exact Hrun|].
  assert (Hp : paints (bloom_of p) (renderBonsai cos sin pi rnd w h p render_fuel)).
  { unfold renderBonsai, base_branches, trunk_body, falling_leaf,
      drawInkStroke, drawLeaf.
    repeat paints_step ltac:(apply paints_branch). }
  destruct (Hp _ _ _ Hrun) as (new & Hm & Hall).
  cbn [blank_canvas marks List.app] in Hm.
  assert (Hb : forall hue, List.In (SBloom hue) (topology s) ->
                           p_friendHue p = Some hue).
  { intros hue Hin. unfold topology in Hin. rewrite Hm in Hin.
    apply List.in_map_iff in Hin as (m & Hs & Hin).
    rewrite List.Forall_forall in Hall. specialize (Hall m Hin).
    destruct m; try discriminate Hs. injection Hs as ->. exact Hall. }
  split; [exact Hb|].
  intros Hn hue Hin. rewrite (Hb hue Hin) in Hn. discriminate Hn.
Qed.

(** ** The renderer: how many numbers a pass draws *)

Lemma dam_le (n n' : nat) {A} (m : R A) :
  (n <= n')%nat -> draws_at_most n m -> draws_at_most n' m.
Proof. intros Hle Hm s a s' H. specialize (Hm s a s' H). lia. Qed.

Lemma dam_ret (n : nat) {A} (a : A) : draws_at_most n (rret a).
Proof. intros s b s' [= _ <-]. lia. Qed.

Lemma dam_stop (n : nat) {A} :
  draws_at_most n (fun _ : RState => @None (A * RState)).
Proof. intros s a s' H. discriminate H. Qed.

Lemma dam_bind (n1 n2 n : nat) {A B} (m : R A) (k : A -> R B) :
  (n1 + n2 <= n)%nat ->
  draws_at_most n1 m -> (forall a, draws_at_most n2 (k a)) ->
  draws_at_most n (rbind m k).
Proof.
  intros Hle Hm Hk s b s'' H. unfold rbind in H.
  destruct (m s) as [[a s']|] eqn:E; [|discriminate].
  specialize (Hm s a s' E). specialize (Hk a s' b s'' H). lia.
Qed.

Lemma dam_bind_rng (n2 n : nat) {B} (k : Q -> R B) :
  (1 + n2 <= n)%nat ->
  (forall x, in_unit x -> draws_at_most n2 (k x)) ->
  draws_at_most n (rbind rng_call k).
Proof.
  intros Hle Hk s b s'' H. unfold rbind, rng_call in H.
  pose proof (mulberry32_next_range (rng s)) as Hr.
  destruct (mulberry32_next (rng s)) as [a' x]. cbn [snd] in Hr.
  specialize (Hk x Hr _ b s'' H). cbn [seeded] in Hk.
  rewrite List.length_app in Hk. cbn [List.length] in Hk. lia.
Qed.

Lemma dam_bind_ret (n : nat) {A B} (a : A) (k : A -> R B) :
  draws_at_most n (k a) -> draws_at_most n (rbind (rret a) k).
Proof. intros Hk s b s' H. exact (Hk s b s' H). Qed.

Lemma dam_bind_assoc (n : nat) {A B C} (m : R A) (f : A -> R B)
  (k : B -> R C) :
  draws_at_most n (rbind m (fun x => rbind (f x) k)) ->
  draws_at_most n (rbind (rbind m f) k).
Proof.
  intros Hm s c s' H. apply (Hm s c s'). unfold rbind in *.
  destruct (m s) as [[a s1]|]; exact H.
Qed.

Lemma dam_paint (n : nat) (m : Mark) : draws_at_most n (paint m).
Proof. intros s x s' [= _ <-]. cbn [seeded]. lia. Qed.

Lemma dam_rng_reset (n : nat) (a : num) : draws_at_most n (rng_reset a).
Proof. intros s x s' [= _ <-]. cbn [seeded]. lia. Qed.

Lemma dam_random_call (n : nat) (rnd : nat -> Q) :
  draws_at_most n (random_call rnd).
Proof. intros s x s' [= _ <-]. cbn [seeded]. lia. Qed.

Lemma dam_for_loop (c n : nat) (body : Z -> R unit) :
  (forall i, draws_at_most c (body i)) ->
  forall start, draws_at_most (n * c) (for_loop n start body).
Proof.
  intros Hb. induction n as [|n IH]; intros start; cbn [for_loop].
  - apply dam_ret.
  - apply (dam_bind c (n * c)); [lia | apply Hb | intros _; apply IH].
Qed.

Lemma dam_drawInkStroke (n : nat) (rnd : nat -> Q)
  (x1 y1 x2 y2 w alpha gray : Q) :
  draws_at_most n (drawInkStroke rnd x1 y1 x2 y2 w alpha gray).
Proof.
  unfold drawInkStroke.
  apply (dam_bind 0 n); [lia | apply dam_random_call | intros r1].
  apply (dam_bind 0 n); [lia | apply dam_random_call | intros r2].
  apply dam_paint.
Qed.

Lemma dam_drawLeaf (n : nat) (pi : Q) (rnd : nat -> Q) (x y s ink wi : Q) :
  draws_at_most n (drawLeaf pi rnd x y s ink wi).
Proof.
  unfold drawLeaf.
  apply (dam_bind 0 n); [lia | apply dam_random_call | intros r].
  apply dam_paint.
Qed.

Lemma dam_leaf_body (pi : Q) (rnd : nat -> Q) (p : BonsaiParams)
  (ex ey : Q) (i : Z) :
  draws_at_most 5 (leaf_body pi rnd p ex ey i).
Proof.
  unfold leaf_body.
  apply (dam_bind_rng 4); [lia | intros r1 _].
  apply (dam_bind_rng 3); [lia | intros r2 _].
  apply (dam_bind_rng 2); [lia | intros r3 _].
  apply (dam_bind 0 2); [lia | apply dam_drawLeaf | intros _].
  apply (dam_bind_rng 1); [lia | intros r4 _].
  destruct (Qltb r4 (bloomChance p)), (p_friendHue p) as [hue|];
    try apply dam_ret.
  apply (dam_bind_rng 0); [lia | intros r5 _]. apply dam_paint.
Qed.

Lemma leaf_count_range (c : Q) :
  in_unit c -> (Z.to_nat (1 + Qfloor (c * 3)) <= 3)%nat.
Proof.
  intros [H0 H1]. destruct c as [n d].
  unfold Qle, Qlt in *. cbn [Qnum Qden] in *.
  unfold Qfloor, Qmult. cbn [Qnum Qden].
  assert (n * 3 / Z.pos (d * 1) < 3)
    by (apply Z.div_lt_upper_bound; lia).
  lia.
Qed.

Lemma dam_leaves (pi : Q) (rnd : nat -> Q) (p : BonsaiParams)
  (ex ey : Q) (depth : Z) :
  draws_at_most 17 (leaves pi rnd p ex ey depth).
Proof.
  unfold leaves.
  destruct (maxDepth p - 3 <? depth); [|apply dam_ret].
  apply (dam_bind_rng 16); [lia | intros r _].
  destruct (Qltb r (leafiness p)); [|apply dam_ret].
  apply (dam_bind_rng 15); [lia | intros c Hc].
  apply (dam_le (Z.to_nat (1 + Qfloor (c * 3)) * 5)).
  - pose proof (leaf_count_range c Hc). lia.
  - apply dam_for_loop. intros i. apply dam_leaf_body.
Qed.

(** A frame with at most [k] levels below it draws at most 28 numbers for
    each frame it can open. *)
Lemma dam_branch (cos sin : Q -> Q) (pi : Q) (rnd : nat -> Q)
  (p : BonsaiParams) (fuel : nat) :
  forall (k : nat) (x y ang len thick : Q) (depth : Z),
    maxDepth p - depth <= Z.of_nat k ->
    draws_at_most (28 * frames_bound k)
      (branch cos sin pi rnd p fuel x y ang len thick depth).
Proof.
  induction fuel as [|fuel IH]; intros k x y ang len thick depth Hk;
    [apply dam_stop|].
  cbn [branch]. set (N := (28 * frames_bound k)%nat).
  assert (HN : (28 <= N)%nat) by (unfold N; destruct k; cbn [frames_bound]; lia).
  apply (dam_bind 0 N); [lia | apply dam_paint | intros _].
  apply (dam_bind_rng (N - 1)); [lia | intros r _]. cbv zeta.
  apply (dam_bind 0 (N - 1)); [lia | apply dam_drawInkStroke | intros _].
  apply (dam_bind 17 (N - 18)); [lia | apply dam_leaves | intros _].
  destruct (Z.leb_spec (maxDepth p) depth) as [Hle|Hlt]; [apply dam_ret|].
  destruct k as [|k]; [lia|].
  set (X := (28 * frames_bound k)%nat).
  assert (HX : N = (28 + 3 * X)%nat)
    by (unfold N, X; cbn [frames_bound]; lia).
  assert (Hrec : forall x y ang len thick,
             draws_at_most X
               (branch cos sin pi rnd p fuel x y ang len thick (depth + 1)))
    by (intros; apply IH; lia).
  assert (Hbody : forall a0 t0 ex0 ey0 (i : Z),
             draws_at_most (3 + X)
               (rbind rng_call (fun r1 =>
                  rbind rng_call (fun r2 =>
                    rbind rng_call (fun r3 =>
                      branch cos sin pi rnd p fuel ex0 ey0
                        (a0 + (if (i =? 0)%Z then -1 else 1)
                              * (0.45 + r1 * 0.35) * (0.85 + t0 * 0.3))%Q
                        (len * (0.74 + r2 * 0.08))%Q
                        (Qmax 1.2 (thick * (0.7 + r3 * 0.06)))%Q
                        (depth + 1)))))).
  { intros a0 t0 ex0 ey0 i.
    apply (dam_bind_rng (2 + X)); [lia | intros r1 _].
    apply (dam_bind_rng (1 + X)); [lia | intros r2 _].
    apply (dam_bind_rng X); [lia | intros r3 _]. apply Hrec. }
  assert (Hrest : forall a0 ex0 ey0,
             draws_at_most (3 + X)
               (rbind rng_call (fun r0 =>
                  if Qltb r0 0.28 then
                    rbind rng_call (fun r1 =>
                      rbind rng_call (fun r2 =>
                        branch cos sin pi rnd p fuel ex0 ey0
                          (a0 + (r1 - 0.5) * 0.35)%Q
                          (len * (0.55 + r2 * 0.12))%Q
                          (Qmax 1.0 (thick * 0.55))%Q (depth + 1)))
                  else rret tt))).
  { intros a0 ex0 ey0.
    apply (dam_bind_rng (2 + X)); [lia | intros r0 _].
    destruct (Qltb r0 0.28); [|apply dam_ret].
    apply (dam_bind_rng (1 + X)); [lia | intros r1 _].
    apply (dam_bind_rng X); [lia | intros r2 _]. apply Hrec. }
  apply (dam_le (10 + 3 * X)); [lia|].
  destruct (depth <? 2).
  - apply dam_bind_ret.
    apply (dam_bind (1 * (3 + X)) (3 + X)); [lia | | intros _; apply Hrest].
    apply dam_for_loop. intros i. apply Hbody.
  - apply dam_bind_assoc.
    apply (dam_bind_rng (9 + 3 * X)); [lia | intros r0 _].
    apply dam_bind_ret.
    destruct (Qltb r0 0.65).
    + apply (dam_bind (2 * (3 + X)) (3 + X)); [lia | | intros _; apply Hrest].
      apply dam_for_loop. intros i. apply Hbody.
    + apply (dam_bind (1 * (3 + X)) (3 + X)); [lia | | intros _; apply Hrest].
      apply dam_for_loop. intros i. apply Hbody.
Qed.

Lemma frames_bound_pow (k : nat) :
  2 * Z.of_nat (frames_bound k) + 1 = 3 ^ (Z.of_nat k + 1).
Proof.
  induction k as [|k IH]; [reflexivity|].
  cbn [frames_bound].
  replace (Z.of_nat (S k) + 1) with (Z.succ (Z.of_nat k + 1)) by lia.
  rewrite Z.pow_succ_r by lia. lia.
Qed.

Lemma dam_falling_leaf (pi : Q) (rnd : nat -> Q) (w h : Q)
  (p : BonsaiParams) (i : Z) :
  draws_at_most 4 (falling_leaf pi rnd w h p i).
Proof.
  unfold falling_leaf.
  apply (dam_bind_rng 3); [lia | intros r _].
  destruct (Qltb r 0.12); [|apply dam_ret].
  apply (dam_bind_rng 2); [lia | intros r1 _].
  apply (dam_bind_rng 1); [lia | intros r2 _].
  apply (dam_bind_rng 0); [lia | intros r3 _].
  apply dam_drawLeaf.
Qed.

Lemma dam_trunk (cos sin : Q -> Q) (pi : Q) (rnd : nat -> Q) (w h : Q)
  (p : BonsaiParams) :
  draws_at_most 0 (for_loop (Z.to_nat trunkSteps) 0 (trunk_body rnd w h p)).
Proof.
  apply (dam_le (Z.to_nat trunkSteps * 0)); [lia|].
  apply dam_for_loop. intros i. unfold trunk_body. apply dam_drawInkStroke.
Qed.

Lemma dam_renderBonsai (cos sin : Q -> Q) (pi : Q) (rnd : nat -> Q)
  (w h : Q) (p : BonsaiParams) (fuel : nat) :
  draws_at_most
    (2 * (28 * frames_bound (Z.to_nat (maxDepth p - 1))) + 12)
    (renderBonsai cos sin pi rnd w h p fuel).
Proof.
  unfold renderBonsai, base_branches.
  set (X := (28 * frames_bound (Z.to_nat (maxDepth p - 1)))%nat).
  assert (Hb : forall x y ang len thick,
             draws_at_most X
               (branch cos sin pi rnd p fuel x y ang len thick 1))
    by (intros; apply dam_branch; lia).
  apply (dam_bind 0 (2 * X + 12)); [lia | apply dam_rng_reset | intros _].
  apply (dam_bind 0 (2 * X + 12));
    [lia | apply (dam_trunk cos sin pi) | intros _].
  apply (dam_bind (2 * X) 12); [lia | | intros _].
  - apply (dam_bind 0 (2 * X)); [lia | apply dam_rng_reset | intros _].
    apply (dam_bind X X); [lia | apply Hb | intros _; apply Hb].
  - apply (dam_for_loop 4 3). intros i. apply dam_falling_leaf.
Qed.

(** X25: a render pass draws at most 28 seeded numbers for each frame of
    [branch] it can open, and 12 more for the falling leaves: at most
    [28 * (3^maxDepth - 1) + 12] in all, which is 1 653 356 at the largest
    depth, 10. *)
Theorem render_draws_bounded (cos sin : Q -> Q) (pi : Q) (rnd : nat -> Q)
  (w h : Q) (p : BonsaiParams) (ix : nat) :
  exists s,
    renderBonsai cos sin pi rnd w h p render_fuel (blank_canvas ix)
    = Some (tt, s)
    /\ Z.of_nat (List.length (seeded s)) <= 28 * (3 ^ maxDepth p - 1) + 12
    /\ 28 * (3 ^ maxDepth p - 1) + 12 <= 1653356.
Proof.
  destruct (keeps_renderBonsai cos sin pi rnd w h p render_fuel
              ltac:(unfold render_fuel; lia) (blank_canvas ix))
    as ([] & s & Hrun & _); [constructor|].
  exists s. split; [exact Hrun|].
  pose proof (maxDepth_of_range (p_growth p)) as Hr. fold (maxDepth p) in Hr.
  pose proof (dam_renderBonsai cos sin pi rnd w h p render_fuel _ _ _ Hrun)
    as Hd.
  cbn [blank_canvas seeded List.length Nat.add] in Hd.
  pose proof (frames_bound_pow (Z.to_nat (maxDepth p - 1))) as Hp.
  replace (Z.of_nat (Z.to_nat (maxDepth p - 1)) + 1) with (maxDepth p)
    in Hp by lia.
  split; [lia|].
  assert (3 ^ maxDepth p <= 3 ^ 10) by (apply Z.pow_le_mono_r; lia).
  change (3 ^ 10) with 59049 in *. lia.
Qed.

(** ** The renderer: the generator stays exact *)

Lemma mulberry32_take_length (n : nat) (a : num) :
  List.length (mulberry32_take n a) = n.
Proof.
  revert a. induction n as [|n IH]; intros a; [reflexivity|].
  cbn [mulberry32_take]. destruct (mulberry32_next a) as [a' x].
  cbn [List.length]. now rewrite IH.
Qed.

Lemma mulberry32_next_exact (z : Z) :
  - 2 ^ 53 < z + 1831565813 < 2 ^ 53 ->
  fst (mulberry32_next (Fin (inject_Z z))) = Fin (inject_Z (z + 1831565813)).
Proof.
  intros Hz. unfold mulberry32_next. cbn [fst num_add]. f_equal.
  assert (E : Qplus (inject_Z z) (inject_Z 1831565813)
              = inject_Z (z + 1831565813)).
  { unfold Qplus, inject_Z. cbn [Qnum Qden]. f_equal. lia. }
  rewrite E. apply round_double_int. lia.
Qed.

Lemma mulberry32_skip_exact (n : nat) :
  forall z, 0 <= z -> z + Z.of_nat n * 1831565813 < 2 ^ 53 ->
    mulberry32_skip n (Fin (inject_Z z))
    = Fin (inject_Z (z + Z.of_nat n * 1831565813)).
Proof.
  induction n as [|n IH]; intros z H0 Hlt.
  - cbn [mulberry32_skip]. do 2 f_equal. lia.
  - cbn [mulberry32_skip]. rewrite mulberry32_next_exact by lia.
    rewrite IH by lia. do 2 f_equal. lia.
Qed.

Lemma rbind_inv {A B} (m : R A) (k : A -> R B) (s s'' : RState) (b : B) :
  rbind m k s = Some (b, s'') ->
  exists a s', m s = Some (a, s') /\ k a s' = Some (b, s'').
Proof.
  unfold rbind. destruct (m s) as [[a s']|]; [|discriminate].
  intros H. now exists a, s'.
Qed.

(** A pass that creates the generator, draws nothing, creates it again
    with the same seed and then only draws from it, has drawn the first
    numbers of the stream of the seed. *)
Lemma stream_after_reset (a : num) (trunk base1 base2 falling : R unit)
  (s0 s : RState) :
  draws_at_most 0 trunk -> streams base1 -> streams base2 ->
  streams falling ->
  rbind (rng_reset a)
    (fun _ => rbind trunk
       (fun _ => rbind (rbind (rng_reset a)
                          (fun _ => rbind base1 (fun _ => base2)))
                   (fun _ => falling))) s0 = Some (tt, s) ->
  seeded s0 = [] ->
  exists k, seeded s = mulberry32_take k a /\ rng s = mulberry32_skip k a.
Proof.
  intros Ht S1 S2 Sf H H0.
  apply rbind_inv in H as ([] & sa & Ha & H).
  apply rbind_inv in H as ([] & sb & Hb & H).
  apply rbind_inv in H as ([] & sc & Hc & H).
  apply rbind_inv in Hc as ([] & sr & Hr & Hc).
  apply rbind_inv in Hc as ([] & s1 & H1 & H2).
  unfold rng_reset in Ha, Hr.
  injection Ha as <-. injection Hr as <-.
  pose proof (Ht _ _ _ Hb) as Hlen. cbn [seeded] in Hlen.
  rewrite H0 in Hlen. cbn [List.length Nat.add] in Hlen.
  assert (Hsb : seeded sb = [])
    by (destruct (seeded sb); [reflexivity | cbn [List.length] in Hlen; lia]).
  destruct (S1 _ _ _ H1) as (k1 & Hd1 & Hr1). cbn [seeded rng] in Hd1, Hr1.
  destruct (S2 _ _ _ H2) as (k2 & Hd2 & Hr2).
  destruct (Sf _ _ _ H) as (k3 & Hd3 & Hr3).
  rewrite Hsb in Hd1. cbn [List.app] in Hd1.
  exists (k1 + k2 + k3)%nat. split.
  - rewrite !mulberry32_take_add, mulberry32_skip_add.
    rewrite <- Hr1, <- Hr2, <- Hd1, <- Hd2. exact Hd3.
  - rewrite !mulberry32_skip_add. rewrite <- Hr1, <- Hr2. exact Hr3.
Qed.

Lemma streams_falling (pi : Q) (rnd : nat -> Q) (w h : Q)
  (p : BonsaiParams) :
  streams (for_loop 3 0 (falling_leaf pi rnd w h p)).
Proof.
  apply streams_for_loop. intros i. unfold falling_leaf, drawLeaf.
  repeat streams_step fail.
Qed.

(** Every seeded number of a pass comes from the stream of the seed: the
    trunk draws none, and the generator is created with the same seed in
    front of the trunk and in front of the base calls. *)
Lemma renderBonsai_stream (cos sin : Q -> Q) (pi : Q) (rnd : nat -> Q)
  (w h : Q) (p : BonsaiParams) (fuel : nat) (s0 s : RState) :
  renderBonsai cos sin pi rnd w h p fuel s0 = Some (tt, s) ->
  seeded s0 = [] ->
  exists k, seeded s = mulberry32_take k (seed_int p)
            /\ rng s = mulberry32_skip k (seed_int p).
Proof.
  unfold renderBonsai, base_branches.
  apply stream_after_reset.
  - apply (dam_trunk cos sin pi).
  - apply streams_branch.
  - apply streams_branch.
  - apply streams_falling.
Qed.

(** X26: the variable of the generator is a number, never wrapped to 32
    bits: each call adds [0x6D2B79F5] to it.  With a seed of [0, 2^31), as
    the seed of an address is, a render pass returns, the numbers it draws
    are the first ones of the stream of the seed, and after them, as after
    any fewer calls, the variable holds [seed + calls * 0x6D2B79F5] exactly:
    it stays below 2^53, where binary64 would start to round. *)
Theorem generator_stays_exact (cos sin : Q -> Q) (pi : Q) (rnd : nat -> Q)
  (w h : Q) (p : BonsaiParams) (ix : nat) (z : Z) :
  seed_int p = Fin (inject_Z z) ->
  0 <= z < 2 ^ 31 ->
  exists s,
    renderBonsai cos sin pi rnd w h p render_fuel (blank_canvas ix)
    = Some (tt, s)
    /\ seeded s = mulberry32_take (List.length (seeded s)) (Fin (inject_Z z))
    /\ rng s
       = Fin (inject_Z (z + Z.of_nat (List.length (seeded s)) * 1831565813))
    /\ (forall j, (j <= List.length (seeded s))%nat ->
          mulberry32_skip j (Fin (inject_Z z))
          = Fin (inject_Z (z + Z.of_nat j * 1831565813))
          /\ z + Z.of_nat j * 1831565813 < 2 ^ 53).
Proof.
  intros Hseed Hz.
  destruct (keeps_renderBonsai cos sin pi rnd w h p render_fuel
              ltac:(unfold render_fuel; lia) (blank_canvas ix))
    as ([] & s & Hrun & _); [constructor|].
  exists s. split; [exact Hrun|].
  pose proof (maxDepth_of_range (p_growth p)) as Hr. fold (maxDepth p) in Hr.
  pose proof (dam_renderBonsai cos sin pi rnd w h p render_fuel _ _ _ Hrun)
    as Hd.
  cbn [blank_canvas seeded List.length Nat.add] in Hd.
  pose proof (frames_bound_pow (Z.to_nat (maxDepth p - 1))) as Hp.
  replace (Z.of_nat (Z.to_nat (maxDepth p - 1)) + 1) with (maxDepth p)
    in Hp by lia.
  assert (H3 : 3 ^ maxDepth p <= 3 ^ 10) by (apply Z.pow_le_mono_r; lia).
  change (3 ^ 10) with 59049 in H3.
  assert (Hlen : Z.of_nat (List.length (seeded s)) <= 1653356) by lia.
  destruct (renderBonsai_stream cos sin pi rnd w h p render_fuel _ s Hrun
              eq_refl) as (k & Hsd & Hrg).
  rewrite Hseed in Hsd, Hrg.
  assert (Hk : List.length (seeded s) = k)
    by (rewrite Hsd; apply mulberry32_take_length).
  assert (Hex : forall j, (j <= k)%nat ->
            mulberry32_skip j (Fin (inject_Z z))
            = Fin (inject_Z (z + Z.of_nat j * 1831565813))
            /\ z + Z.of_nat j * 1831565813 < 2 ^ 53).
  { intros j Hj.
    assert (z + Z.of_nat j * 1831565813 < 2 ^ 53).
    { change (2 ^ 53) with 9007199254740992.
      change (2 ^ 31) with 2147483648 in Hz. nia. }
    split; [apply mulberry32_skip_exact; lia | assumption]. }
  rewrite Hk. split; [exact Hsd|]. split; [|exact Hex].
  rewrite Hrg. apply Hex. lia.
Qed.

Lemma generator_stays_exact_witness :
  let p := {| seed := "0x5eC6AF0798b25C563B102d3469971f1a8d598121";
              richness := 0.5; activity := 0.5; p_growth := 2;
              health := 1; breeze := 0.25; p_friendHue := None |} in
  exists s,
    renderBonsai (fun _ => 0%Q) (fun _ => 1%Q) 3 (fun _ => 0.5%Q) 300 300 p
      render_fuel (blank_canvas 0) = Some (tt, s)
    /\ rng s
       = Fin (inject_Z (99200859
                        + Z.of_nat (List.length (seeded s)) * 1831565813)).
Proof.
  cbv zeta.
  match goal with
  | |- exists s, renderBonsai ?c ?n ?q ?r ?a ?b ?p _ (blank_canvas ?i) = _
                 /\ _ =>
      destruct (generator_stays_exact c n q r a b p i 99200859)
        as (s & Hrun & _ & Hr & _)
  end.
  - vm_compute. reflexivity.
  - lia.
  - exists s. split; [exact Hrun | exact Hr].
Defined.
